(** * The bloom map: locations endpoint and overlay filter panel

    A shallow embedding of the TypeScript sources of the repository:

    - the locations route ([GET], [POST], [PUT], [DELETE] over the
      module-level array [locations]),
    - the overlay filter panel ([isLocationInOverlay], [overlaysWithStats],
      [searchResults], [handleOverlayToggle], [handleSelectAll],
      [handleClearAll]), and
    - [mockCreateLocation] of the species service, which validates and
      normalises a location as the route does.

    The route receives untyped JSON, so its data are JavaScript values and
    its records are JavaScript objects; the panel receives props typed by the
    compiler, so its data are records.  The built-in functions of the
    language that the sources call and whose algorithms are lexical
    ([Number::toString], [StringToNumber], [parseFloat], [Date.parse],
    [toLowerCase]) are the fields of a class [Platform]; every theorem holds
    for every platform, and one instance is given to evaluate examples. *)

From Stdlib Require Import QArith Qround ZArith Ascii.
From stdpp Require Import gmap strings list fin_maps.

#[local] Set Warnings "-register-all".
#[local] Open Scope Z_scope.

(** ** Numbers

    A JavaScript Number is a binary64 value.  The embedding keeps what the
    sources observe of it: whether it is [NaN], an infinity, or finite, and
    for a finite one the rational it denotes.  Order and equality of binary64
    values are those of the rationals they denote, so the comparisons below
    are exact.  The two zeros are one value here (the sources never tell them
    apart).  Addition is the exact sum; binary64 agrees with it whenever the
    sum is representable, which covers the integers up to [2^53]. *)

Inductive number : Type :=
| NaN
| NegInfinity
| Finite (q : Q)
| PosInfinity.

Definition num_of_Z (z : Z) : number := Finite (inject_Z z).

(** [IsLessThan] on Numbers: [None] is the answer "undefined" given when an
    operand is [NaN]. *)
Definition num_lt (x y : number) : option bool :=
  match x, y with
  | NaN, _ | _, NaN => None
  | NegInfinity, NegInfinity => Some false
  | NegInfinity, _ => Some true
  | _, NegInfinity => Some false
  | PosInfinity, _ => Some false
  | _, PosInfinity => Some true
  | Finite a, Finite b => Some (negb (Qle_bool b a))
  end.

(** [x < y], [x <= y], [x >= y] as the relational operators compute them
    from [IsLessThan]. *)
Definition js_lt (x y : number) : bool :=
  match num_lt x y with Some true => true | _ => false end.

Definition js_le (x y : number) : bool :=
  match num_lt y x with Some false => true | _ => false end.

Definition js_ge (x y : number) : bool :=
  match num_lt x y with Some false => true | _ => false end.

(** [Number::equal], the [===] of two Numbers. *)
Definition num_eqb (x y : number) : bool :=
  match x, y with
  | NegInfinity, NegInfinity | PosInfinity, PosInfinity => true
  | Finite a, Finite b => Qeq_bool a b
  | _, _ => false
  end.

(** [Number::add]. *)
Definition num_add (x y : number) : number :=
  match x, y with
  | NaN, _ | _, NaN => NaN
  | NegInfinity, PosInfinity | PosInfinity, NegInfinity => NaN
  | NegInfinity, _ | _, NegInfinity => NegInfinity
  | PosInfinity, _ | _, PosInfinity => PosInfinity
  | Finite a, Finite b => Finite (a + b)
  end.

(** The larger of two Numbers as [Math.max] folds them: [NaN] wins. *)
Definition num_max (x y : number) : number :=
  match x, y with
  | NaN, _ | _, NaN => NaN
  | _, _ => if js_lt x y then y else x
  end.

Definition is_finite (x : number) : bool :=
  match x with Finite _ => true | _ => false end.

(** The Number value of a mathematical integer: the nearest binary64 value,
    a tie going to the even significand.  An integer of magnitude up to
    [2^53] is itself; beyond, the 53 leading bits are kept and rounded; what
    rounds to [2^1024] or more is an infinity. *)
Definition Number_of_integer (z : Z) : number :=
  let a := Z.abs z in
  let e := Z.log2 a - 52 in
  if e <=? 0 then num_of_Z z else
  let q := Z.shiftr a e in
  let r := Z.land a (Z.ones e) in
  let half := Z.shiftl 1 (e - 1) in
  let m := if (r <? half) || ((r =? half) && Z.even q) then q else q + 1 in
  let v := Z.shiftl m e in
  if Z.shiftl 1 1024 <=? v
  then (if z <? 0 then NegInfinity else PosInfinity)
  else num_of_Z (Z.sgn z * v).

(** Truncation toward zero. *)
Definition Qtrunc (q : Q) : Z :=
  if Qle_bool 0 q then Qfloor q else Qceiling q.

(** [TimeClip]: a time value is an integral number of milliseconds of
    magnitude at most 8.64e15, or [NaN]. *)
Definition TimeClip (t : number) : number :=
  match t with
  | Finite q =>
      let z := Qtrunc q in
      if Z.abs z <=? 8640000000000000 then num_of_Z z else NaN
  | _ => NaN
  end.

(** The order of the extended reals on Numbers, [NaN] being unrelated to
    everything: what "x <= y" means in the specification. *)
Inductive num_le : number -> number -> Prop :=
| num_le_finite a b : (a <= b)%Q -> num_le (Finite a) (Finite b)
| num_le_neg y : y <> NaN -> num_le NegInfinity y
| num_le_pos x : x <> NaN -> num_le x PosInfinity.

(** [x < y]: strictly below. *)
Definition num_less (x y : number) : Prop :=
  num_le x y /\ ~ num_le y x.

(** ** Values

    What [request.json()] can return, and [undefined], which reading an
    absent property gives.  An object is the finite map of its own
    properties: the order of the keys, which only serialisation shows, is not
    kept. *)

Inductive value : Type :=
| VUndefined
| VNull
| VBool (b : bool)
| VNum (n : number)
| VStr (s : string)
| VArr (elems : list value)
| VObj (props : gmap string value).

Abbreviation object := (gmap string value).

(** ** Exceptions

    Every handler runs inside one [try] whose [catch] answers 500, and the
    only exception the handlers' own code can raise is a [TypeError]. *)

Inductive result (A : Type) : Type :=
| Ok (a : A)
| Throw.

Arguments Ok {A} a.
Arguments Throw {A}.

Definition bind {A B : Type} (m : result A) (f : A -> result B) : result B :=
  match m with
  | Ok a => f a
  | Throw => Throw
  end.

Notation "x <- m ;; k" := (bind m (fun x => k))
  (at level 20, m at level 99, k at level 200, only parsing).

(** [a || b] on computations that may throw: [b] runs only when [a] is false. *)
Definition orr (a b : result bool) : result bool :=
  x <- a ;; if x then Ok true else b.

(** ** Strings

    A string is the UTF-8 text of the JavaScript string. *)

Definition string_of_codes (l : list N) : string :=
  foldr (fun n s => String (ascii_of_N n) s) EmptyString l.

(** The code points of [WhiteSpace] and [LineTerminator]: U+0009 to U+000D,
    U+0020, U+00A0, U+1680, U+2000 to U+200A, U+2028, U+2029, U+202F, U+205F,
    U+3000 and U+FEFF. *)
Definition WhiteSpace : list string :=
  string_of_codes <$>
    [ [9]; [10]; [11]; [12]; [13]; [32]; [194; 160]; [225; 154; 128];
      [226; 128; 128]; [226; 128; 129]; [226; 128; 130]; [226; 128; 131];
      [226; 128; 132]; [226; 128; 133]; [226; 128; 134]; [226; 128; 135];
      [226; 128; 136]; [226; 128; 137]; [226; 128; 138]; [226; 128; 168];
      [226; 128; 169]; [226; 128; 175]; [226; 129; 159]; [227; 128; 128];
      [239; 187; 191] ]%N.

Fixpoint strip_prefix (p s : string) : option string :=
  match p, s with
  | EmptyString, _ => Some s
  | String a p', String b s' => if decide (a = b) then strip_prefix p' s' else None
  | String _ _, EmptyString => None
  end.

Fixpoint strip_any (ps : list string) (s : string) : option string :=
  match ps with
  | [] => None
  | p :: ps' =>
      match strip_prefix p s with
      | Some r => Some r
      | None => strip_any ps' s
      end
  end.

Fixpoint strip_all (fuel : nat) (ps : list string) (s : string) : string :=
  match fuel with
  | O => s
  | S fuel' =>
      match strip_any ps s with
      | Some r => strip_all fuel' ps r
      | None => s
      end
  end.

Definition trimStart (s : string) : string :=
  strip_all (String.length s) WhiteSpace s.

Definition trimEnd (s : string) : string :=
  String.rev (strip_all (String.length s) (String.rev <$> WhiteSpace) (String.rev s)).

(** [String.prototype.trim]. *)
Definition trim (s : string) : string := trimEnd (trimStart s).

(** [String.prototype.includes]. *)
Fixpoint includes (s sub : string) : bool :=
  match strip_prefix sub s with
  | Some _ => true
  | None =>
      match s with
      | EmptyString => false
      | String _ s' => includes s' sub
      end
  end.

(** *** [parseInt] of a string, radix absent *)

Definition digit_value (radix : Z) (c : ascii) : option Z :=
  let n := Z.of_N (N_of_ascii c) in
  let d :=
    if (48 <=? n) && (n <=? 57) then Some (n - 48)
    else if (97 <=? n) && (n <=? 102) then Some (n - 87)
    else if (65 <=? n) && (n <=? 70) then Some (n - 55)
    else None in
  match d with
  | Some v => if v <? radix then Some v else None
  | None => None
  end.

(** The digits at the front of [s], most significant first, folded into
    [acc]; [None] when [s] does not start with a digit. *)
Fixpoint leading_digits (radix : Z) (s : string) (acc : option Z) : option Z :=
  match s with
  | EmptyString => acc
  | String c s' =>
      match digit_value radix c with
      | Some d => leading_digits radix s' (Some (radix * default 0 acc + d))
      | None => acc
      end
  end.

(** Leading white space, a sign, [0x] or [0X] for radix 16, then the longest
    run of digits; [NaN] when there is none.  The result is the Number value
    of the integer the digits denote.  (In radix 10 the language lets an
    implementation read the digits after the twentieth as zeros; here every
    digit counts.) *)
Definition parseInt_string (input : string) : number :=
  let s := trimStart input in
  let '(sign, s) :=
    match s with
    | String "-" r => (-1, r)
    | String "+" r => (1, r)
    | _ => (1, s)
    end in
  let '(radix, s) :=
    match s with
    | String "0" (String "x" r) | String "0" (String "X" r) => (16, r)
    | _ => (10, s)
    end in
  match leading_digits radix s None with
  | Some n => Number_of_integer (sign * n)
  | None => NaN
  end.

(** ** The platform *)

Class Platform : Type := {
  (** [Number::toString], radix 10 *)
  Number_toString : number -> string;
  (** [StringToNumber], the [ToNumber] of a string *)
  StringToNumber : string -> number;
  (** [parseFloat] of a string *)
  parseFloat_string : string -> number;
  (** [Date.parse]: a time value or [NaN] *)
  Date_parse : string -> number;
  (** [String.prototype.toLowerCase] *)
  toLowerCase : string -> string
}.

(** ** Conversions and property access *)

(** [ToBoolean]. *)
Definition truthy (v : value) : bool :=
  match v with
  | VUndefined | VNull => false
  | VBool b => b
  | VNum NaN => false
  | VNum (Finite q) => negb (Qeq_bool q 0)
  | VNum _ => true
  | VStr s => negb (bool_decide (s = EmptyString))
  | VArr _ | VObj _ => true
  end.

(** [v.k] for the property names the sources read ([speciesId],
    [locationName], [coordinates], [bloomingPeriod], [start], [peak], [end],
    [id]): none of them is a property of a prototype, so only an object can
    have one, as its own, and reading it off [null] or [undefined] throws. *)
Definition get (v : value) (k : string) : result value :=
  match v with
  | VUndefined | VNull => Throw
  | VObj m => Ok (default VUndefined (m !! k))
  | _ => Ok VUndefined
  end.

(** [!v.k] *)
Definition falsy (v : value) (k : string) : result bool :=
  x <- get v k ;; Ok (negb (truthy x)).

(** [Array.isArray(v)] *)
Definition isArray (v : value) : bool :=
  match v with VArr _ => true | _ => false end.

(** [v.length] and [v[i]] of an array *)
Definition array_length (v : value) : nat :=
  match v with VArr l => length l | _ => 0%nat end.

Definition index (v : value) (i : nat) : value :=
  match v with VArr l => default VUndefined (l !! i) | _ => VUndefined end.

(** [v === n] where [n] is a Number: true only of an equal Number. *)
Definition strict_equals_num (v : value) (n : number) : bool :=
  match v with VNum m => num_eqb m n | _ => false end.

(** [v.trim()]: only a string has the method. *)
Definition call_trim (v : value) : result string :=
  match v with VStr s => Ok (trim s) | _ => Throw end.

(** [Array.prototype.findIndex], [None] for -1; the callback may throw. *)
Fixpoint findIndex {A : Type} (f : A -> result bool) (l : list A) : result (option nat) :=
  match l with
  | [] => Ok None
  | x :: l' =>
      b <- f x ;;
      if b then Ok (Some 0%nat)
      else r <- findIndex f l' ;; Ok (S <$> r)
  end.

Section Conversions.
Context `{Platform}.

(** [ToString].  An array is joined with commas, [null] and [undefined]
    elements giving the empty string.  An object parsed from JSON inherits
    [Object.prototype.toString] unless it has a property of that name of
    its own, which is then not callable: the conversion throws. *)
Fixpoint ToString (v : value) : result string :=
  match v with
  | VUndefined => Ok "undefined"
  | VNull => Ok "null"
  | VBool true => Ok "true"
  | VBool false => Ok "false"
  | VNum n => Ok (Number_toString n)
  | VStr s => Ok s
  | VArr l =>
      (fix join (l : list value) : result string :=
         match l with
         | [] => Ok EmptyString
         | x :: rest =>
             s <- match x with
                  | VUndefined | VNull => Ok EmptyString
                  | _ => ToString x
                  end ;;
             match rest with
             | [] => Ok s
             | _ :: _ => r <- join rest ;; Ok (s +:+ "," +:+ r)
             end
         end) l
  | VObj m =>
      if bool_decide (is_Some (m !! "toString")) then Throw
      else Ok "[object Object]"
  end.

(** [ToPrimitive]: a primitive is itself, an array or object its string. *)
Definition ToPrimitive (v : value) : result value :=
  match v with
  | VArr _ | VObj _ => s <- ToString v ;; Ok (VStr s)
  | _ => Ok v
  end.

(** [ToNumber]. *)
Definition ToNumber (v : value) : result number :=
  match v with
  | VUndefined => Ok NaN
  | VNull => Ok (num_of_Z 0)
  | VBool true => Ok (num_of_Z 1)
  | VBool false => Ok (num_of_Z 0)
  | VNum n => Ok n
  | VStr s => Ok (StringToNumber s)
  | VArr _ | VObj _ => s <- ToString v ;; Ok (StringToNumber s)
  end.

(** The time value of [new Date(v)]. *)
Definition NewDate (v : value) : result number :=
  p <- ToPrimitive v ;;
  match p with
  | VStr s => Ok (TimeClip (Date_parse s))
  | _ => n <- ToNumber p ;; Ok (TimeClip n)
  end.

(** [Math.max(...args)]: every argument is coerced, in order, then the
    largest is taken, starting from minus infinity. *)
Fixpoint coerce_all (args : list value) : result (list number) :=
  match args with
  | [] => Ok []
  | v :: args' => n <- ToNumber v ;; ns <- coerce_all args' ;; Ok (n :: ns)
  end.

Definition Math_max (args : list value) : result number :=
  ns <- coerce_all args ;; Ok (foldl num_max NegInfinity ns).

Definition parseInt (v : value) : result number :=
  s <- ToString v ;; Ok (parseInt_string s).

Definition parseFloat (v : value) : result number :=
  s <- ToString v ;; Ok (parseFloat_string s).

End Conversions.

(** ** The locations route *)

Module Route.

(** [NextResponse.json({ success, data, message }, { status })] *)
Record Response : Type := {
  status : Z;
  success : bool;
  data : value;
  message : string
}.

Definition MissingField : Response :=
  {| status := 400; success := false; data := VNull;
     message := "Missing required fields: speciesId, locationName, coordinates, bloomingPeriod" |}.

Definition InvalidCoordinates : Response :=
  {| status := 400; success := false; data := VNull;
     message := "Coordinates must be an array of [longitude, latitude]" |}.

Definition InvalidBloomingPeriod : Response :=
  {| status := 400; success := false; data := VNull;
     message := "Blooming period must include start, peak, and end dates" |}.

Definition InvalidDateOrder : Response :=
  {| status := 400; success := false; data := VNull;
     message := "Invalid date order: start date must be before peak date, and peak date must be before end date" |}.

Definition MissingId : Response :=
  {| status := 400; success := false; data := VNull;
     message := "Location ID is required" |}.

Definition NotFound : Response :=
  {| status := 404; success := false; data := VNull;
     message := "Location not found" |}.

(** The answer of a handler's [catch]. *)
Definition Unexpected (msg : string) : Response :=
  {| status := 500; success := false; data := VNull; message := msg |}.

Definition Created (newLocation : object) : Response :=
  {| status := 201; success := true; data := VObj newLocation;
     message := "Location created successfully" |}.

Definition Success (d : value) (msg : string) : Response :=
  {| status := 200; success := true; data := d; message := msg |}.

(** A stored location: the object literal of [POST]. *)
Definition location (id speciesId locationName : value) (lon lat : value)
    (start peak end_ : value) : object :=
  <["id" := id]> (<["speciesId" := speciesId]> (<["locationName" := locationName]>
    (<["coordinates" := VArr [lon; lat]]>
      (<["bloomingPeriod" :=
          VObj (<["start" := start]> (<["peak" := peak]> (<["end" := end_]> ∅)))]> ∅)))).

(** The initial contents of [locations]. *)
Definition seed : list object :=
  [ location (VNum (num_of_Z 1)) (VNum (num_of_Z 1)) (VStr "Vườn hoa Nguyễn Huệ")
      (VNum (Finite (1067008 # 10000))) (VNum (Finite (107769 # 10000)))
      (VStr "2024-02-01") (VStr "2024-02-15") (VStr "2024-03-15");
    location (VNum (num_of_Z 2)) (VNum (num_of_Z 2)) (VStr "Công viên Tao Đàn")
      (VNum (Finite (1066947 # 10000))) (VNum (Finite (107881 # 10000)))
      (VStr "2024-01-15") (VStr "2024-02-01") (VStr "2024-02-28");
    location (VNum (num_of_Z 3)) (VNum (num_of_Z 1)) (VStr "Vườn hoa Lý Tự Trọng")
      (VNum (Finite (106692 # 1000))) (VNum (Finite (107756 # 10000)))
      (VStr "2024-02-10") (VStr "2024-02-25") (VStr "2024-03-20") ].

(** [l.id] and [l.speciesId] of a stored location *)
Definition id_of (l : object) : value := default VUndefined (l !! "id").
Definition speciesId_of (l : object) : value := default VUndefined (l !! "speciesId").

Section Handlers.
Context `{Platform}.

(** [GET]: all locations, or those of one species.  [speciesId] is
    [searchParams.get("speciesId")], [None] for [null]. *)
Definition GET (locations : list object) (speciesId : option string)
    : Response * list object :=
  let filteredLocations :=
    match speciesId with
    | Some s =>
        if truthy (VStr s)
        then List.filter
               (fun l => strict_equals_num (speciesId_of l) (parseInt_string s))
               locations
        else locations
    | None => locations
    end in
  (Success (VArr (VObj <$> filteredLocations)) "Locations retrieved successfully",
   locations).

(** The body of the [try] of [POST]. *)
Definition POST_try (locations : list object) (request_json : result value)
    : result (Response * list object) :=
  body <- request_json ;;
  (* Validate required fields *)
  missing <- orr (falsy body "speciesId")
               (orr (falsy body "locationName")
                  (orr (falsy body "coordinates") (falsy body "bloomingPeriod"))) ;;
  if missing then Ok (MissingField, locations) else
  (* Validate coordinates format *)
  coordinates <- get body "coordinates" ;;
  if negb (isArray coordinates) || negb (Nat.eqb (array_length coordinates) 2)
  then Ok (InvalidCoordinates, locations) else
  (* Validate blooming period *)
  bloomingPeriod <- get body "bloomingPeriod" ;;
  incomplete <- orr (falsy bloomingPeriod "start")
                  (orr (falsy bloomingPeriod "peak") (falsy bloomingPeriod "end")) ;;
  if incomplete then Ok (InvalidBloomingPeriod, locations) else
  (* Validate date order *)
  start <- get bloomingPeriod "start" ;;
  peak <- get bloomingPeriod "peak" ;;
  end_ <- get bloomingPeriod "end" ;;
  startDate <- NewDate start ;;
  peakDate <- NewDate peak ;;
  endDate <- NewDate end_ ;;
  if js_lt peakDate startDate || js_lt endDate peakDate
  then Ok (InvalidDateOrder, locations) else
  (* Generate new ID *)
  highest <- Math_max ((id_of <$> locations) ++ [VNum (num_of_Z 0)]) ;;
  let newId := num_add highest (num_of_Z 1) in
  (* Create new location *)
  speciesId <- (v <- get body "speciesId" ;; parseInt v) ;;
  locationName <- (v <- get body "locationName" ;; call_trim v) ;;
  lon <- parseFloat (index coordinates 0) ;;
  lat <- parseFloat (index coordinates 1) ;;
  let newLocation :=
    location (VNum newId) (VNum speciesId) (VStr locationName)
      (VNum lon) (VNum lat) start peak end_ in
  (* Add to storage *)
  Ok (Created newLocation, locations ++ [newLocation]).

Definition POST (locations : list object) (request_json : result value)
    : Response * list object :=
  match POST_try locations request_json with
  | Ok r => r
  | Throw => (Unexpected "Failed to create location", locations)
  end.

(** The body of the [try] of [PUT].  [const { id, ...updateData } = body]
    throws on [null]; of anything but an object it finds no [id], and the
    handler answers before [updateData] is used. *)
Definition PUT_try (locations : list object) (request_json : result value)
    : result (Response * list object) :=
  body <- request_json ;;
  id <- get body "id" ;;
  let updateData : object :=
    match body with VObj m => delete "id" m | _ => ∅ end in
  if negb (truthy id) then Ok (MissingId, locations) else
  locationIndex <-
    findIndex (fun l => n <- parseInt id ;; Ok (strict_equals_num (id_of l) n))
      locations ;;
  match locationIndex with
  | None => Ok (NotFound, locations)
  | Some i =>
      (* Update location *)
      let merged : object := updateData ∪ default ∅ (locations !! i) in
      let locations' := <[i := merged]> locations in
      Ok (Success (default VUndefined (VObj <$> locations' !! i))
            "Location updated successfully",
          locations')
  end.

Definition PUT (locations : list object) (request_json : result value)
    : Response * list object :=
  match PUT_try locations request_json with
  | Ok r => r
  | Throw => (Unexpected "Failed to update location", locations)
  end.

(** The body of the [try] of [DELETE].  [id] is [searchParams.get("id")]. *)
Definition DELETE_try (locations : list object) (id : option string)
    : result (Response * list object) :=
  let id := match id with Some s => VStr s | None => VNull end in
  if negb (truthy id) then Ok (MissingId, locations) else
  locationIndex <-
    findIndex (fun l => n <- parseInt id ;; Ok (strict_equals_num (id_of l) n))
      locations ;;
  match locationIndex with
  | None => Ok (NotFound, locations)
  | Some i =>
      (* Remove location: [locations.splice(locationIndex, 1)[0]] *)
      let deletedLocation := default VUndefined (VObj <$> locations !! i) in
      Ok (Success deletedLocation "Location deleted successfully",
          delete i locations)
  end.

Definition DELETE (locations : list object) (id : option string)
    : Response * list object :=
  match DELETE_try locations id with
  | Ok r => r
  | Throw => (Unexpected "Failed to delete location", locations)
  end.

End Handlers.

End Route.

(** ** The overlay filter panel *)

Module Panel.

(** Modelled from the spec: the declarations of [Location] and [MapOverlay]
    (the module of types the panel imports is not among the sources), with
    the fields the data model lists and the panel reads. *)
Record BloomingPeriod : Type := {
  start : string;
  peak : string;
  end_ : string
}.

Record Location : Type := {
  location_id : number;
  speciesId : number;
  locationName : string;
  coordinates : number * number;
  bloomingPeriod : BloomingPeriod
}.

Record Bounds : Type := {
  minLon : number;
  maxLon : number;
  minLat : number;
  maxLat : number
}.

Record MapOverlay : Type := {
  id : number;
  name : string;
  address : string;
  startDate : option string;
  endDate : option string;
  bounds : Bounds
}.

(** [{ ...overlay, locationCount, locations }] *)
Record OverlayWithStats : Type := {
  overlay : MapOverlay;
  locationCount : nat;
  locations : list Location
}.

(** The props and the local state of the component.  What a handler passes
    to [onOverlayFilter] is the new selection. *)
Record Props : Type := {
  allOverlays : list MapOverlay;
  allLocations : list Location;
  selectedOverlayIds : list number
}.

Record State : Type := {
  isExpanded : bool;
  searchQuery : string
}.

(** Check if a location is within overlay bounds *)
Definition isLocationInOverlay (location : Location) (overlay : MapOverlay) : bool :=
  let '(lon, lat) := coordinates location in
  js_ge lon (minLon (bounds overlay)) &&
  js_le lon (maxLon (bounds overlay)) &&
  js_ge lat (minLat (bounds overlay)) &&
  js_le lat (maxLat (bounds overlay)).

(** Create overlay data with location counts *)
Definition overlaysWithStats (allOverlays : list MapOverlay)
    (allLocations : list Location) : list OverlayWithStats :=
  List.map
    (fun overlay =>
       let overlayLocations :=
         List.filter (fun loc => isLocationInOverlay loc overlay) allLocations in
       {| overlay := overlay;
          locationCount := length overlayLocations;
          locations := overlayLocations |})
    allOverlays.

(** [ids.includes(x)]: [SameValueZero], under which [NaN] is itself. *)
Definition same_value_zero (x y : number) : bool :=
  match x, y with
  | NaN, NaN => true
  | _, _ => num_eqb x y
  end.

Definition ids_include (ids : list number) (x : number) : bool :=
  existsb (same_value_zero x) ids.

Section Handlers.
Context `{Platform}.

(** Filter overlays by search query *)
Definition searchResults (stats : list OverlayWithStats) (searchQuery : string)
    : list OverlayWithStats :=
  if negb (truthy (VStr (trim searchQuery))) then stats
  else
    let query := toLowerCase searchQuery in
    List.filter (fun o => includes (toLowerCase (name (overlay o))) query) stats.

(** Handle individual overlay selection *)
Definition handleOverlayToggle (props : Props) (overlayId : number) : list number :=
  if ids_include (selectedOverlayIds props) overlayId
  then List.filter (fun i => negb (num_eqb i overlayId)) (selectedOverlayIds props)
  else selectedOverlayIds props ++ [overlayId].

(** Handle select all overlays *)
Definition handleSelectAll (props : Props) (st : State) : list number :=
  let stats := overlaysWithStats (allOverlays props) (allLocations props) in
  if Nat.eqb (length (selectedOverlayIds props)) (length stats)
  then [] (* Deselect all if all are selected *)
  else List.map (fun o => id (overlay o)) stats.

(** Clear all selections: the new selection and the new state *)
Definition handleClearAll (props : Props) (st : State) : list number * State :=
  ([], {| isExpanded := isExpanded st; searchQuery := EmptyString |}).

(** What the list of the panel shows *)
Definition candidates (props : Props) (st : State) : list OverlayWithStats :=
  searchResults (overlaysWithStats (allOverlays props) (allLocations props))
    (searchQuery st).

Definition totalLocationsInSelected (props : Props) : nat :=
  foldl (fun sum o => (sum + locationCount o)%nat) 0%nat
    (List.filter (fun o => ids_include (selectedOverlayIds props) (id (overlay o)))
       (overlaysWithStats (allOverlays props) (allLocations props))).

End Handlers.

End Panel.

(** ** The mock of the species service *)

Module Service.

(** [{ success, data, message }] *)
Record Reply : Type := {
  success : bool;
  data : value;
  message : string
}.

Definition Failure (msg : string) : Reply :=
  {| success := false; data := VNull; message := msg |}.

Section Mock.
Context `{Platform}.

(** [v.toString()]: [undefined] and [null] have no method to call. *)
Definition call_toString (v : value) : result string :=
  match v with
  | VUndefined | VNull => Throw
  | _ => ToString v
  end.

(** The body of the [try] of [mockCreateLocation], after the simulated
    delay.  [draw] is [Math.floor(Math.random() * 10000)]. *)
Definition mockCreateLocation_try (draw : Z) (locationData : value) : result Reply :=
  (* Validate required fields *)
  missing <- orr (falsy locationData "speciesId")
               (orr (falsy locationData "locationName")
                  (orr (falsy locationData "coordinates")
                     (falsy locationData "bloomingPeriod"))) ;;
  if missing then Ok (Failure "Thiếu thông tin bắt buộc") else
  (* Validate coordinates *)
  coordinates <- get locationData "coordinates" ;;
  if negb (isArray coordinates) || negb (Nat.eqb (array_length coordinates) 2)
  then Ok (Failure "Tọa độ không hợp lệ") else
  (* Validate blooming period *)
  bloomingPeriod <- get locationData "bloomingPeriod" ;;
  incomplete <- orr (falsy bloomingPeriod "start")
                  (orr (falsy bloomingPeriod "peak") (falsy bloomingPeriod "end")) ;;
  if incomplete then Ok (Failure "Thời gian nở hoa không hợp lệ") else
  (* Validate date order *)
  start <- get bloomingPeriod "start" ;;
  peak <- get bloomingPeriod "peak" ;;
  end_ <- get bloomingPeriod "end" ;;
  startDate <- NewDate start ;;
  peakDate <- NewDate peak ;;
  endDate <- NewDate end_ ;;
  if js_lt peakDate startDate || js_lt endDate peakDate
  then Ok (Failure "Thứ tự thời gian nở hoa không hợp lệ") else
  (* Generate new ID *)
  let newId := num_of_Z (draw + 1000) in
  speciesId <- get locationData "speciesId" ;;
  locationName <- (v <- get locationData "locationName" ;; call_trim v) ;;
  lon <- (s <- call_toString (index coordinates 0) ;; Ok (parseFloat_string s)) ;;
  lat <- (s <- call_toString (index coordinates 1) ;; Ok (parseFloat_string s)) ;;
  let newLocation :=
    Route.location (VNum newId) speciesId (VStr locationName)
      (VNum lon) (VNum lat) start peak end_ in
  Ok {| success := true; data := VObj newLocation;
        message := "Địa điểm đã được tạo thành công" |}.

Definition mockCreateLocation (draw : Z) (locationData : value) : Reply :=
  match mockCreateLocation_try draw locationData with
  | Ok r => r
  | Throw => Failure "Lỗi khi tạo địa điểm mới"
  end.

End Mock.

End Service.

(** ** The requests of the species service *)

Module Api.

(** What [fetch] resolves to, as far as the service reads it: [response.ok]
    and what [response.json()] resolves to, [Throw] when it rejects.
    ([response.status] only goes into the message of an error that is
    thrown, caught and logged.) *)
Record FetchResponse : Type := {
  ok : bool;
  json : result value
}.

(** [process.env.NEXT_PUBLIC_API_URL || "http://localhost:8000"] *)
Definition API_BASE_URL (NEXT_PUBLIC_API_URL : option string) : string :=
  match NEXT_PUBLIC_API_URL with
  | Some url => if truthy (VStr url) then url else "http://localhost:8000"
  | None => "http://localhost:8000"
  end.

Section Requests.
Context `{Platform}.
Variable NEXT_PUBLIC_API_URL : option string.
(** [fetch(url)]: [Throw] when the promise rejects. *)
Variable fetch : string -> result FetchResponse.

(** The body of the [try] of [getLocationsBySpecies].  [success] and [data]
    are no properties of a prototype either, so [get] reads them as it reads
    the fields of a payload. *)
Definition getLocationsBySpecies_try (speciesId : number) : result value :=
  response <-
    fetch (API_BASE_URL NEXT_PUBLIC_API_URL +:+ "/api/v1/locations" +:+ "/" +:+
           Number_toString speciesId) ;;
  if negb (ok response) then Throw else
  data <- json response ;;
  success <- get data "success" ;;
  if negb (truthy success) then Throw else
  get data "data".

(** 3. The locations of one species: [[]] when anything fails. *)
Definition getLocationsBySpecies (speciesId : number) : value :=
  match getLocationsBySpecies_try speciesId with
  | Ok locations => locations
  | Throw => VArr []
  end.

(** The body of the [try] of [getSpeciesById]. *)
Definition getSpeciesById_try (speciesId : number) : result value :=
  response <-
    fetch (API_BASE_URL NEXT_PUBLIC_API_URL +:+ "/api/v1/species" +:+ "/" +:+
           Number_toString speciesId) ;;
  if negb (ok response) then Throw else
  data <- json response ;;
  success <- get data "success" ;;
  if negb (truthy success) then Throw else
  get data "data".

(** 4. One species: [null] when anything fails. *)
Definition getSpeciesById (speciesId : number) : value :=
  match getSpeciesById_try speciesId with
  | Ok species => species
  | Throw => VNull
  end.

(** Species and locations together.  Neither of the two promises rejects,
    so [Promise.all] resolves and the [catch] is never entered. *)
Definition getSpeciesWithLocations (speciesId : number) : value :=
  let species := getSpeciesById speciesId in
  let locations := getLocationsBySpecies speciesId in
  if negb (truthy species) then VNull
  else VObj (<["species" := species]> (<["locations" := locations]> ∅)).

End Requests.

Section Creation.
Context `{Platform}.

(** [createLocation] returns what [mockCreateLocation] resolves to (the
    request the source keeps after the [return] is never made), and the mock
    does not reject: the [catch] is never entered. *)
Definition createLocation (draw : Z) (locationData : value) : Service.Reply :=
  Service.mockCreateLocation draw locationData.

End Creation.

End Api.

(** ** A platform to evaluate examples

    Decimal literals, calendar dates and ASCII letters.  It agrees with the
    language on the inputs of the examples below: integers and short decimal
    fractions (printed and parsed exactly), dates written [YYYY-MM-DD] (UTC
    midnight of that day) and ASCII text. *)

Module Reference.

Definition digit_char (d : Z) : ascii := ascii_of_N (Z.to_N (48 + d)).

(** The decimal digits of a natural number, most significant first. *)
Fixpoint digits_fuel (fuel : nat) (n : Z) (acc : string) : string :=
  match fuel with
  | O => acc
  | S fuel' =>
      let acc' := String (digit_char (n mod 10)) acc in
      if n <? 10 then acc' else digits_fuel fuel' (n / 10) acc'
  end.

Definition digits (n : Z) : string :=
  digits_fuel (S (Z.to_nat (Z.log2 n))) n EmptyString.

(** The digits after the point of [r / d], [r < d], until they end. *)
Fixpoint fraction_fuel (fuel : nat) (r d : Z) : string :=
  match fuel with
  | O => EmptyString
  | S fuel' =>
      if r =? 0 then EmptyString
      else String (digit_char (10 * r / d)) (fraction_fuel fuel' (10 * r mod d) d)
  end.

Definition Number_toString (x : number) : string :=
  match x with
  | NaN => "NaN"
  | PosInfinity => "Infinity"
  | NegInfinity => "-Infinity"
  | Finite q =>
      let n := Z.abs (Qnum q) in
      let d := Z.pos (Qden q) in
      let sign := if Qnum q <? 0 then "-" else EmptyString in
      let frac := fraction_fuel 20 (n mod d) d in
      sign +:+ digits (n / d) +:+
      (if bool_decide (frac = EmptyString) then EmptyString else "." +:+ frac)
  end.

(** The decimal digits at the front of a string, and the rest. *)
Fixpoint take_digits (s : string) : list Z * string :=
  match s with
  | String c s' =>
      match digit_value 10 c with
      | Some d => let '(ds, rest) := take_digits s' in (d :: ds, rest)
      | None => ([], s)
      end
  | EmptyString => ([], s)
  end.

Definition digits_value (ds : list Z) : Z :=
  foldl (fun acc d => 10 * acc + d) 0 ds.

Definition scale10 (m e : Z) : Q :=
  if 0 <=? e then inject_Z (m * 10 ^ e) else m # Z.to_pos (10 ^ (- e)).

(** The longest [StrUnsignedDecimalLiteral] at the front of [s], without
    [Infinity]: its value and the rest of [s]. *)
Definition unsigned_decimal (s : string) : option (Q * string) :=
  let '(int, s1) := take_digits s in
  let '(frac, s2) :=
    match s1 with
    | String "." r => take_digits r
    | _ => ([], s1)
    end in
  let s2 := match s1, int, frac with
            | String "." r, [], [] => s1
            | _, _, _ => s2
            end in
  match int, frac with
  | [], [] => None
  | _, _ =>
      let m := digits_value (int ++ frac) in
      let e0 := - Z.of_nat (length frac) in
      let '(e, s3) :=
        match s2 with
        | String "e" r | String "E" r =>
            let '(sign, r') :=
              match r with
              | String "-" r' => (-1, r')
              | String "+" r' => (1, r')
              | _ => (1, r)
              end in
            match take_digits r' with
            | ([], _) => (0, s2)
            | (ds, rest) => (sign * digits_value ds, rest)
            end
        | _ => (0, s2)
        end in
      Some (scale10 m (e0 + e), s3)
  end.

Definition signed_decimal (s : string) : option (number * string) :=
  let '(neg, s) :=
    match s with
    | String "-" r => (true, r)
    | String "+" r => (false, r)
    | _ => (false, s)
    end in
  match strip_prefix "Infinity" s with
  | Some rest => Some (if neg then NegInfinity else PosInfinity, rest)
  | None =>
      match unsigned_decimal s with
      | Some (q, rest) => Some (Finite (if neg then - q else q)%Q, rest)
      | None => None
      end
  end.

Definition parseFloat_string (s : string) : number :=
  match signed_decimal (trimStart s) with
  | Some (x, _) => x
  | None => NaN
  end.

Definition StringToNumber (s : string) : number :=
  let s := trim s in
  if bool_decide (s = EmptyString) then num_of_Z 0
  else match signed_decimal s with
       | Some (x, EmptyString) => x
       | _ => NaN
       end.

Definition is_leap (y : Z) : bool :=
  ((y mod 4 =? 0) && negb (y mod 100 =? 0)) || (y mod 400 =? 0).

Definition days_in_month (y m : Z) : Z :=
  if m =? 2 then (if is_leap y then 29 else 28)
  else if (m =? 4) || (m =? 6) || (m =? 9) || (m =? 11) then 30
  else 31.

(** Days from 1970-01-01 to the civil date [y]-[m]-[d]. *)
Definition days_from_civil (y m d : Z) : Z :=
  let y := if m <=? 2 then y - 1 else y in
  let era := y / 400 in
  let yoe := y - era * 400 in
  let doy := (153 * (if 2 <? m then m - 3 else m + 9) + 2) / 5 + d - 1 in
  let doe := yoe * 365 + yoe / 4 - yoe / 100 + doy in
  era * 146097 + doe - 719468.

Definition Date_parse (s : string) : number :=
  match take_digits s with
  | ([y1; y2; y3; y4], String "-" s1) =>
      match take_digits s1 with
      | ([m1; m2], String "-" s2) =>
          match take_digits s2 with
          | ([d1; d2], EmptyString) =>
              let y := digits_value [y1; y2; y3; y4] in
              let m := digits_value [m1; m2] in
              let d := digits_value [d1; d2] in
              if (1 <=? m) && (m <=? 12) && (1 <=? d) && (d <=? days_in_month y m)
              then num_of_Z (days_from_civil y m d * 86400000)
              else NaN
          | _ => NaN
          end
      | _ => NaN
      end
  | _ => NaN
  end.

Definition lower (c : ascii) : ascii :=
  let n := N_of_ascii c in
  if ((65 <=? n) && (n <=? 90))%N then ascii_of_N (n + 32) else c.

Fixpoint toLowerCase (s : string) : string :=
  match s with
  | EmptyString => EmptyString
  | String c s' => String (lower c) (toLowerCase s')
  end.

End Reference.

Definition reference : Platform := {|
  Number_toString := Reference.Number_toString;
  StringToNumber := Reference.StringToNumber;
  parseFloat_string := Reference.parseFloat_string;
  Date_parse := Reference.Date_parse;
  toLowerCase := Reference.toLowerCase
|}.

(** * Specification

    The notions the statements below are written in, in the words of the
    specification. *)

(** ** White space *)

(** A concatenation of strings of [ps]. *)
Inductive made_of (ps : list string) : string -> Prop :=
| made_of_nil : made_of ps EmptyString
| made_of_cons p s : p ∈ ps -> made_of ps s -> made_of ps (p +:+ s).

(** A string of white space and line terminators only. *)
Definition whitespace (s : string) : Prop := made_of WhiteSpace s.

Definition starts_with_whitespace (s : string) : Prop :=
  exists w r, w ∈ WhiteSpace /\ s = w +:+ r.

Definition ends_with_whitespace (s : string) : Prop :=
  exists w r, w ∈ WhiteSpace /\ s = r +:+ w.

(** [t] is [s] without the white space around it. *)
Definition trimmed_of (s t : string) : Prop :=
  (exists before after, whitespace before /\ whitespace after /\
                        s = before +:+ t +:+ after) /\
  ~ starts_with_whitespace t /\ ~ ends_with_whitespace t.

(** [sub] occurs in [s]. *)
Definition substring (sub s : string) : Prop :=
  exists before after, s = before +:+ sub +:+ after.

(** ** Bounds containment *)

(** [minLon <= lon <= maxLon] and [minLat <= lat <= maxLat]. *)
Definition Contains (point : number * number) (box : Panel.Bounds) : Prop :=
  num_le (Panel.minLon box) point.1 /\ num_le point.1 (Panel.maxLon box) /\
  num_le (Panel.minLat box) point.2 /\ num_le point.2 (Panel.maxLat box).

(** A box whose minima do not exceed its maxima, and one with [min > max] on
    an axis. *)
Definition well_formed (box : Panel.Bounds) : Prop :=
  num_le (Panel.minLon box) (Panel.maxLon box) /\
  num_le (Panel.minLat box) (Panel.maxLat box).

Definition malformed (box : Panel.Bounds) : Prop :=
  num_less (Panel.maxLon box) (Panel.minLon box) \/
  num_less (Panel.maxLat box) (Panel.minLat box).

(** A point on the edge of a box: one coordinate is a bound of its axis and
    the other lies between the bounds of its own. *)
Definition on_edge (point : number * number) (box : Panel.Bounds) : Prop :=
  ((point.1 = Panel.minLon box \/ point.1 = Panel.maxLon box) /\
   num_le (Panel.minLat box) point.2 /\ num_le point.2 (Panel.maxLat box)) \/
  ((point.2 = Panel.minLat box \/ point.2 = Panel.maxLat box) /\
   num_le (Panel.minLon box) point.1 /\ num_le point.1 (Panel.maxLon box)).

Definition is_corner (point : number * number) (box : Panel.Bounds) : Prop :=
  (point.1 = Panel.minLon box \/ point.1 = Panel.maxLon box) /\
  (point.2 = Panel.minLat box \/ point.2 = Panel.maxLat box).

#[global] Instance num_le_dec (x y : number) : Decision (num_le x y).
Proof.
  destruct x as [| |a|], y as [| |b|];
    try (left; constructor; congruence);
    try (right; intros Hxy; inversion Hxy; congruence).
  destruct (Qlt_le_dec b a) as [Hlt|Hle].
  - right. intros Hxy. inversion Hxy; subst. by apply Qlt_not_le in Hlt.
  - left. by constructor.
Defined.

#[global] Instance Contains_dec (point : number * number) (box : Panel.Bounds) :
  Decision (Contains point box).
Proof. unfold Contains. apply _. Defined.

(** The locations a caller finds in a box by filtering the list himself, and
    their number. *)
Definition contained_in (box : Panel.Bounds) (locations : list Panel.Location)
    : list Panel.Location :=
  filter (fun l => Contains (Panel.coordinates l) box) locations.

Definition count_in (box : Panel.Bounds) (locations : list Panel.Location) : nat :=
  length (contained_in box locations).

(** A coordinate of the point or a bound of the box is [NaN]. *)
Definition has_NaN (point : number * number) (box : Panel.Bounds) : Prop :=
  point.1 = NaN \/ point.2 = NaN \/
  Panel.minLon box = NaN \/ Panel.maxLon box = NaN \/
  Panel.minLat box = NaN \/ Panel.maxLat box = NaN.

(** ** The selection *)

(** The props of the next render, once the parent has stored the selection
    that [onOverlayFilter] received. *)
Definition with_selection (props : Panel.Props) (ids : list number) : Panel.Props :=
  {| Panel.allOverlays := Panel.allOverlays props;
     Panel.allLocations := Panel.allLocations props;
     Panel.selectedOverlayIds := ids |}.

(** The overlay's id is one of the selected ids. *)
Definition is_selected (props : Panel.Props) (o : Panel.MapOverlay) : Prop :=
  Panel.ids_include (Panel.selectedOverlayIds props) (Panel.id o) = true.

#[global] Instance is_selected_dec (props : Panel.Props) (o : Panel.MapOverlay) :
  Decision (is_selected props o).
Proof. unfold is_selected. apply _. Defined.

(** The pairs of an overlay and a location within its bounds. *)
Definition containments (overlays : list Panel.MapOverlay) (locations : list Panel.Location)
    : list (Panel.MapOverlay * Panel.Location) :=
  filter (fun ol => Contains (Panel.coordinates ol.2) (Panel.bounds ol.1))
    (list_prod overlays locations).

(** ** The validation of a payload

    A payload is a JSON object, [p] the map of its properties. *)

Definition field (p : object) (k : string) : value := default VUndefined (p !! k).

(** The property [k] of a value that may not be an object. *)
Definition prop (v : value) (k : string) : value :=
  match v with VObj m => field m k | _ => VUndefined end.

(** The properties of a payload: those of a JSON object; a payload that is
    no object has none. *)
Definition fields_of (body : value) : object :=
  match body with VObj p => p | _ => ∅ end.

Definition absent_or_falsy (v : value) : Prop := truthy v = false.


(** MissingField: any of [speciesId], [locationName], [coordinates],
    [bloomingPeriod] absent or falsy. *)
Definition missing_field (p : object) : Prop :=
  absent_or_falsy (field p "speciesId") \/ absent_or_falsy (field p "locationName") \/
  absent_or_falsy (field p "coordinates") \/ absent_or_falsy (field p "bloomingPeriod").

(** InvalidCoordinates: [coordinates] is not an array of exactly two
    elements. *)
Definition invalid_coordinates (p : object) : Prop :=
  forall a b, field p "coordinates" <> VArr [a; b].

(** InvalidBloomingPeriod: any of [bloomingPeriod.start/peak/end] absent or
    falsy. *)
Definition invalid_blooming_period (p : object) : Prop :=
  absent_or_falsy (prop (field p "bloomingPeriod") "start") \/
  absent_or_falsy (prop (field p "bloomingPeriod") "peak") \/
  absent_or_falsy (prop (field p "bloomingPeriod") "end").

(** A value that has no string: an object with a property [toString] of its
    own (which JSON cannot make callable), or an array that holds one. *)
Inductive unprintable : value -> Prop :=
| unprintable_object m : is_Some (m !! "toString") -> unprintable (VObj m)
| unprintable_array l x : x ∈ l -> unprintable x -> unprintable (VArr l).

(** The values of a payload that [POST] converts to a string. *)
Definition converted (p : object) : list value :=
  [ prop (field p "bloomingPeriod") "start"; prop (field p "bloomingPeriod") "peak";
    prop (field p "bloomingPeriod") "end"; field p "speciesId";
    index (field p "coordinates") 0; index (field p "coordinates") 1 ].

Section Dates.
Context `{Platform}.

(** The three dates of the blooming period parse to the time values [ts],
    [tp] and [te]. *)
Definition parsed_dates (p : object) (ts tp te : number) : Prop :=
  NewDate (prop (field p "bloomingPeriod") "start") = Ok ts /\
  NewDate (prop (field p "bloomingPeriod") "peak") = Ok tp /\
  NewDate (prop (field p "bloomingPeriod") "end") = Ok te.

(** InvalidDateOrder: parsed [peak < start] or [end < peak]. *)
Definition invalid_date_order (p : object) : Prop :=
  exists ts tp te, parsed_dates p ts tp te /\ (num_less tp ts \/ num_less te tp).

(** The three earlier checks pass. *)
Definition reaches_date_check (p : object) : Prop :=
  ~ missing_field p /\ ~ invalid_coordinates p /\ ~ invalid_blooming_period p.

End Dates.

(** ** The answers of [POST] *)

Section Create.
Context `{Platform}.

(** A conversion that [POST] makes of the payload, once it has passed the
    first three checks, throws. *)
Definition raises (locations : list object) (p : object) : Prop :=
  NewDate (prop (field p "bloomingPeriod") "start") = Throw \/
  NewDate (prop (field p "bloomingPeriod") "peak") = Throw \/
  NewDate (prop (field p "bloomingPeriod") "end") = Throw \/
  Math_max ((Route.id_of <$> locations) ++ [VNum (num_of_Z 0)]) = Throw \/
  parseInt (field p "speciesId") = Throw \/
  call_trim (field p "locationName") = Throw \/
  parseFloat (index (field p "coordinates") 0) = Throw \/
  parseFloat (index (field p "coordinates") 1) = Throw.

(** What [POST] can answer to an object, check by check. *)
Inductive POST_outcome (locations : list object) (p : object)
    : Route.Response -> list object -> Prop :=
| post_missing_field :
    missing_field p ->
    POST_outcome locations p Route.MissingField locations
| post_invalid_coordinates :
    ~ missing_field p -> invalid_coordinates p ->
    POST_outcome locations p Route.InvalidCoordinates locations
| post_invalid_blooming_period :
    ~ missing_field p -> ~ invalid_coordinates p -> invalid_blooming_period p ->
    POST_outcome locations p Route.InvalidBloomingPeriod locations
| post_invalid_date_order :
    reaches_date_check p -> invalid_date_order p ->
    POST_outcome locations p Route.InvalidDateOrder locations
| post_unexpected :
    reaches_date_check p -> ~ invalid_date_order p -> raises locations p ->
    POST_outcome locations p (Route.Unexpected "Failed to create location") locations
| post_created highest speciesId raw c0 c1 lon lat ts tp te :
    reaches_date_check p -> ~ invalid_date_order p ->
    parsed_dates p ts tp te ->
    Math_max ((Route.id_of <$> locations) ++ [VNum (num_of_Z 0)]) = Ok highest ->
    parseInt (field p "speciesId") = Ok speciesId ->
    field p "locationName" = VStr raw ->
    field p "coordinates" = VArr [c0; c1] ->
    parseFloat c0 = Ok lon ->
    parseFloat c1 = Ok lat ->
    let newLocation :=
      Route.location (VNum (num_add highest (num_of_Z 1))) (VNum speciesId)
        (VStr (trim raw)) (VNum lon) (VNum lat)
        (prop (field p "bloomingPeriod") "start")
        (prop (field p "bloomingPeriod") "peak")
        (prop (field p "bloomingPeriod") "end") in
    POST_outcome locations p (Route.Created newLocation) (locations ++ [newLocation]).

End Create.

(** ** The replies of [mockCreateLocation] *)

Section Mocked.
Context `{Platform}.

(** A conversion that [mockCreateLocation] makes of the payload, once it has
    passed the first three checks, throws. *)
Definition mock_raises (p : object) : Prop :=
  NewDate (prop (field p "bloomingPeriod") "start") = Throw \/
  NewDate (prop (field p "bloomingPeriod") "peak") = Throw \/
  NewDate (prop (field p "bloomingPeriod") "end") = Throw \/
  call_trim (field p "locationName") = Throw \/
  Service.call_toString (index (field p "coordinates") 0) = Throw \/
  Service.call_toString (index (field p "coordinates") 1) = Throw.

(** What [mockCreateLocation] can reply to an object, check by check. *)
Inductive mock_outcome (draw : Z) (p : object) : Service.Reply -> Prop :=
| mock_missing_field :
    missing_field p ->
    mock_outcome draw p (Service.Failure "Thiếu thông tin bắt buộc")
| mock_invalid_coordinates :
    ~ missing_field p -> invalid_coordinates p ->
    mock_outcome draw p (Service.Failure "Tọa độ không hợp lệ")
| mock_invalid_blooming_period :
    ~ missing_field p -> ~ invalid_coordinates p -> invalid_blooming_period p ->
    mock_outcome draw p (Service.Failure "Thời gian nở hoa không hợp lệ")
| mock_invalid_date_order :
    reaches_date_check p -> invalid_date_order p ->
    mock_outcome draw p (Service.Failure "Thứ tự thời gian nở hoa không hợp lệ")
| mock_unexpected :
    reaches_date_check p -> ~ invalid_date_order p -> mock_raises p ->
    mock_outcome draw p (Service.Failure "Lỗi khi tạo địa điểm mới")
| mock_created raw c0 c1 s0 s1 :
    reaches_date_check p -> ~ invalid_date_order p -> ~ mock_raises p ->
    field p "locationName" = VStr raw ->
    field p "coordinates" = VArr [c0; c1] ->
    Service.call_toString c0 = Ok s0 ->
    Service.call_toString c1 = Ok s1 ->
    mock_outcome draw p
      {| Service.success := true;
         Service.data :=
           VObj (Route.location (VNum (num_of_Z (draw + 1000))) (field p "speciesId")
                   (VStr (trim raw)) (VNum (parseFloat_string s0))
                   (VNum (parseFloat_string s1))
                   (prop (field p "bloomingPeriod") "start")
                   (prop (field p "bloomingPeriod") "peak")
                   (prop (field p "bloomingPeriod") "end"));
         Service.message := "Địa điểm đã được tạo thành công" |}.

End Mocked.

(** ** Identifiers *)

(** [Number.MAX_SAFE_INTEGER]: up to it, and one beyond, binary64 adds one
    exactly. *)
Definition MAX_SAFE_INTEGER : Z := 9007199254740991.

(** The [id] of a stored location when it is an integer. *)
Definition int_id (l : object) : option Z :=
  match l !! "id" with
  | Some (VNum (Finite (Qmake z xH))) => Some z
  | _ => None
  end.

(** Every [id] of the store is a positive safe integer: true of the seed,
    and kept by every handler while fewer than [2^53] locations have been
    created. *)
Definition safe_ids (locations : list object) : Prop :=
  Forall (fun l => exists z, l !! "id" = Some (VNum (num_of_Z z)) /\
                             1 <= z <= MAX_SAFE_INTEGER) locations.

Definition ids (locations : list object) : list Z := omap int_id locations.

(** [max(existing ids, 0)] *)
Definition max_id (locations : list object) : Z := foldr Z.max 0 (ids locations).

(** The ids of the store are positive safe integers, no two the same, none
    above [n]. *)
Definition ids_within (n : Z) (locations : list object) : Prop :=
  safe_ids locations /\ NoDup (Route.id_of <$> locations) /\ max_id locations <= n.

(** ** Looking a record up by its id *)

(** The record [l] has the id [n]: [l.id === n]. *)
Definition has_id (n : number) (l : object) : Prop :=
  strict_equals_num (Route.id_of l) n = true.

#[global] Instance has_id_dec (n : number) (l : object) : Decision (has_id n l).
Proof. unfold has_id. apply _. Defined.

Definition no_record_has (n : number) (locations : list object) : Prop :=
  forall l, l ∈ locations -> ~ has_id n l.

(** [l], at index [i], is the first record of the store with the id [n]:
    the record with that id, ids being unique. *)
Definition record_with_id (n : number) (locations : list object) (i : nat) (l : object)
    : Prop :=
  locations !! i = Some l /\ has_id n l /\
  forall j l', locations !! j = Some l' -> (j < i)%nat -> ~ has_id n l'.

(** The record [l] is of the species [n]: [l.speciesId === n]. *)
Definition of_species (n : number) (l : object) : Prop :=
  exists m, l !! "speciesId" = Some (VNum m) /\ num_eqb m n = true.

(** ** Runs of the store *)

Inductive request : Type :=
| List_ (speciesId : option string)
| Create (body : result value)
| Update (body : result value)
| Delete (id : option string).

Section Runs.
Context `{Platform}.

Definition handle (locations : list object) (q : request)
    : Route.Response * list object :=
  match q with
  | List_ speciesId => Route.GET locations speciesId
  | Create body => Route.POST locations body
  | Update body => Route.PUT locations body
  | Delete id => Route.DELETE locations id
  end.

(** The answers to a sequence of requests and the store they leave. *)
Fixpoint run (locations : list object) (qs : list request)
    : list Route.Response * list object :=
  match qs with
  | [] => ([], locations)
  | q :: qs' =>
      let '(r, locations') := handle locations q in
      let '(rs, locations'') := run locations' qs' in
      (r :: rs, locations'')
  end.

End Runs.

(** The ids that the successful Creates among [qs] answered with, in
    order. *)
Fixpoint new_ids (qs : list request) (answers : list Route.Response) : list value :=
  match qs, answers with
  | Create _ :: qs', r :: answers' =>
      (if Route.success r then [prop (Route.data r) "id"] else []) ++ new_ids qs' answers'
  | _ :: qs', _ :: answers' => new_ids qs' answers'
  | _, _ => []
  end.

Definition is_delete (q : request) : Prop :=
  match q with Delete _ => True | _ => False end.

(** The request is a Delete of the record that has the greatest id of the
    store. *)
Definition deletes_greatest (locations : list object) (q : request) : Prop :=
  match q with
  | Delete (Some id) =>
      id <> EmptyString /\
      exists i l, record_with_id (parseInt_string id) locations i l /\
                  int_id l = Some (max_id locations)
  | _ => False
  end.

Section Sparing.
Context `{Platform}.

(** None of the requests [qs], made one after the other from the store
    [locations] on, is such a Delete. *)
Fixpoint spares_greatest (locations : list object) (qs : list request) : Prop :=
  match qs with
  | [] => True
  | q :: qs' =>
      ~ deletes_greatest locations q /\ spares_greatest (handle locations q).2 qs'
  end.

End Sparing.

(** ** Coordinates *)

Definition two_numbers (v : value) : Prop :=
  exists a b, v = VArr [VNum a; VNum b].

Definition two_finite_numbers (v : value) : Prop :=
  exists a b, v = VArr [VNum (Finite a); VNum (Finite b)].

Definition coordinates_ok (locations : list object) : Prop :=
  Forall (fun l => two_numbers (field l "coordinates")) locations.

(** A request that cannot spoil the coordinates of a record: any but an
    Update whose body carries [coordinates] that are not two numbers. *)
Definition keeps_coordinates (q : request) : Prop :=
  match q with
  | Update (Ok (VObj body)) =>
      forall v, body !! "coordinates" = Some v -> two_numbers v
  | _ => True
  end.

Section Finite.
Context `{Platform}.

(** A request that leaves the coordinates of every record two finite
    numbers: any but a Create of which an element of [coordinates] does not
    parse to a finite number, and an Update whose body carries [coordinates]
    that are not two finite numbers. *)
Definition keeps_finite (q : request) : Prop :=
  match q with
  | Create (Ok (VObj p)) =>
      forall c0 c1 lon lat,
        field p "coordinates" = VArr [c0; c1] ->
        parseFloat c0 = Ok lon -> parseFloat c1 = Ok lat ->
        is_finite lon = true /\ is_finite lat = true
  | Update (Ok (VObj body)) =>
      forall v, body !! "coordinates" = Some v -> two_finite_numbers v
  | _ => True
  end.

End Finite.

(** ** The requests of the service *)

Section Fetching.
Context `{Platform}.
Variable NEXT_PUBLIC_API_URL : option string.
Variable fetch : string -> result Api.FetchResponse.

(** The request of [url] succeeds with the data [d]: the response is ok and
    its body is a JSON object with a truthy [success] and [d] for [data]
    ([undefined] when it has none). *)
Definition succeeds (url : string) (d : value) : Prop :=
  exists response body,
    fetch url = Ok response /\ Api.ok response = true /\
    Api.json response = Ok (VObj body) /\ truthy (field body "success") = true /\
    field body "data" = d.

Definition fails (url : string) : Prop := forall d, ~ succeeds url d.

(** Where the service asks for a species and for its locations. *)
Definition species_url (speciesId : number) : string :=
  Api.API_BASE_URL NEXT_PUBLIC_API_URL +:+ "/api/v1/species" +:+ "/" +:+
  Number_toString speciesId.

Definition locations_url (speciesId : number) : string :=
  Api.API_BASE_URL NEXT_PUBLIC_API_URL +:+ "/api/v1/locations" +:+ "/" +:+
  Number_toString speciesId.

End Fetching.

(** ** Examples *)

Module Examples.

Definition period (start peak end_ : string) : value :=
  VObj (<["start" := VStr start]> (<["peak" := VStr peak]> (<["end" := VStr end_]> ∅))).

Definition payload (speciesId locationName coordinates bloomingPeriod : value) : object :=
  <["speciesId" := speciesId]> (<["locationName" := locationName]>
    (<["coordinates" := coordinates]> (<["bloomingPeriod" := bloomingPeriod]> ∅))).

(** A fourth location for the seed store. *)
Definition garden : object :=
  payload (VNum (num_of_Z 2)) (VStr " Test Garden ")
    (VArr [VNum (Finite (1067 # 10)); VNum (Finite (1078 # 100))])
    (period "2024-03-01" "2024-03-15" "2024-04-01").

(** The same with the peak before the start. *)
Definition inverted : object :=
  payload (VNum (num_of_Z 2)) (VStr " Test Garden ")
    (VArr [VNum (Finite (1067 # 10)); VNum (Finite (1078 # 100))])
    (period "2024-03-15" "2024-03-01" "2024-04-01").

(** The same again without a species. *)
Definition inverted_no_species : object := delete "speciesId" inverted.

(** One day for the three dates. *)
Definition one_day : object :=
  payload (VNum (num_of_Z 2)) (VStr "Test Garden")
    (VArr [VNum (Finite (1067 # 10)); VNum (Finite (1078 # 100))])
    (period "2024-03-01" "2024-03-01" "2024-03-01").

(** Coordinates that are not numerals. *)
Definition nowhere : object :=
  payload (VNum (num_of_Z 2)) (VStr "Test Garden")
    (VArr [VStr "east"; VStr "north"])
    (period "2024-03-01" "2024-03-15" "2024-04-01").

(** A body for [PUT]: the record 1, its coordinates and period replaced. *)
Definition patch_1 : object :=
  <["id" := VStr "1"]> (<["coordinates" := VStr "nowhere"]>
    (<["bloomingPeriod" := period "2024-03-15" "2024-03-01" "2024-04-01"]> ∅)).

(** A body for [PUT] that only renames the record 2. *)
Definition rename_2 : object :=
  <["id" := VNum (num_of_Z 2)]> (<["locationName" := VStr "Tao Dan Park"]> ∅).

(** The first and the second record of the seed. *)
Definition seed_1 : object := default ∅ (Route.seed !! 0%nat).
Definition seed_2 : object := default ∅ (Route.seed !! 1%nat).

(** Five requests, none of which spoils the coordinates of a record. *)
Definition requests : list request :=
  [Create (Ok (VObj garden)); Update (Ok (VObj rename_2)); Delete (Some "1");
   Create (Ok (VObj nowhere)); List_ None].

Definition desert : Panel.MapOverlay :=
  {| Panel.id := num_of_Z 1; Panel.name := "Antelope Valley";
     Panel.address := "California"; Panel.startDate := None; Panel.endDate := None;
     Panel.bounds := {| Panel.minLon := Finite (-11844 # 100);
                        Panel.maxLon := Finite (-11838 # 100);
                        Panel.minLat := Finite (34764 # 1000);
                        Panel.maxLat := Finite (3488 # 100) |} |}.

Definition coast : Panel.MapOverlay :=
  {| Panel.id := num_of_Z 2; Panel.name := "Namaqualand";
     Panel.address := "Namibia"; Panel.startDate := None; Panel.endDate := None;
     Panel.bounds := {| Panel.minLon := Finite (1532 # 100);
                        Panel.maxLon := Finite (1542 # 100);
                        Panel.minLat := Finite (2634 # 100);
                        Panel.maxLat := Finite (2644 # 100) |} |}.

Definition place (n : Z) (lon lat : Q) : Panel.Location :=
  {| Panel.location_id := num_of_Z n; Panel.speciesId := num_of_Z 1;
     Panel.locationName := "place"; Panel.coordinates := (Finite lon, Finite lat);
     Panel.bloomingPeriod := {| Panel.start := "2024-03-01"; Panel.peak := "2024-03-15";
                                Panel.end_ := "2024-04-01" |} |}.

(** A location at the corner of [desert]. *)
Definition corner : Panel.Location := place 1 (-11844 # 100) (34764 # 1000).

(** Nothing selected, two overlays, and a query that matches the first. *)
Definition props : Panel.Props :=
  {| Panel.allOverlays := [desert; coast];
     Panel.allLocations := [corner; place 2 (1535 # 100) (2640 # 100); place 3 0 0];
     Panel.selectedOverlayIds := [] |}.

Definition searching : Panel.State :=
  {| Panel.isExpanded := true; Panel.searchQuery := "valley" |}.

(** A peak that is no date, and the end before the start. *)
Definition unparsable_peak : object :=
  payload (VNum (num_of_Z 2)) (VStr "Test Garden")
    (VArr [VNum (Finite (1067 # 10)); VNum (Finite (1078 # 100))])
    (period "2024-03-01" "soon" "2024-02-01").

(** A number for a name. *)
Definition nameless : object :=
  payload (VNum (num_of_Z 2)) (VNum (num_of_Z 5))
    (VArr [VNum (Finite (1067 # 10)); VNum (Finite (1078 # 100))])
    (period "2024-03-01" "2024-03-15" "2024-04-01").

(** Two spaces for a name. *)
Definition blank_name : object :=
  payload (VNum (num_of_Z 2)) (VStr "  ")
    (VArr [VNum (Finite (1067 # 10)); VNum (Finite (1078 # 100))])
    (period "2024-03-01" "2024-03-15" "2024-04-01").

(** A species that is no number. *)
Definition unlisted : object :=
  payload (VStr "rose") (VStr "Test Garden")
    (VArr [VNum (Finite (1067 # 10)); VNum (Finite (1078 # 100))])
    (period "2024-03-01" "2024-03-15" "2024-04-01").

(** A body for [PUT] that moves the record 2 to another species. *)
Definition respecies_2 : object :=
  <["id" := VNum (num_of_Z 2)]> (<["speciesId" := VNum (num_of_Z 5)]> ∅).

(** A Create, a Delete of the first record, and a Create. *)
Definition spared : list request :=
  [Create (Ok (VObj garden)); Delete (Some "1"); Create (Ok (VObj garden))].

(** The requests of a client that creates, renames, is refused, lists and
    creates again. *)
Definition creations : list request :=
  [Create (Ok (VObj garden)); Update (Ok (VObj rename_2));
   Create (Ok (VObj inverted)); List_ (Some "2"); Create (Ok (VObj one_day))].

(** A location with no longitude. *)
Definition adrift : Panel.Location :=
  {| Panel.location_id := num_of_Z 4; Panel.speciesId := num_of_Z 1;
     Panel.locationName := "adrift"; Panel.coordinates := (NaN, Finite (34764 # 1000));
     Panel.bloomingPeriod := {| Panel.start := "2024-03-01"; Panel.peak := "2024-03-15";
                                Panel.end_ := "2024-04-01" |} |}.

(** A server that knows the species 7, and refuses to tell its locations. *)
Definition rose : value := VObj (<["name" := VStr "Rose"]> ∅).

Definition species_only (url : string) : result Api.FetchResponse :=
  if bool_decide (url = "http://localhost:8000/api/v1/species/7")
  then Ok {| Api.ok := true;
             Api.json := Ok (VObj (<["success" := VBool true]> (<["data" := rose]> ∅))) |}
  else if bool_decide (url = "http://localhost:8000/api/v1/locations/7")
  then Ok {| Api.ok := false; Api.json := Throw |}
  else Throw.

End Examples.

(** * Properties *)

(** ** The relational operators compute the order of Numbers *)

Lemma js_le_iff (x y : number) : js_le x y = true <-> num_le x y.
Proof.
  unfold js_le.
  destruct x as [| |a|], y as [| |b|]; simpl; split; intros Hxy;
    try discriminate; try (constructor; congruence);
    try (inversion Hxy; subst; congruence).
  - destruct (Qle_bool a b) eqn:E; [|discriminate].
    constructor. by apply Qle_bool_iff.
  - inversion Hxy as [? ? Hab| |]; subst.
    apply Qle_bool_iff in Hab. by rewrite Hab.
Qed.

Lemma js_ge_iff (x y : number) : js_ge x y = true <-> num_le y x.
Proof. exact (js_le_iff y x). Qed.

Lemma num_le_trans (x y z : number) : num_le x y -> num_le y z -> num_le x z.
Proof.
  intros Hxy Hyz.
  destruct Hxy as [a b Hab|y Hy|x Hx]; inversion Hyz; subst;
    try congruence; try (constructor; congruence).
  constructor. by eapply Qle_trans.
Qed.

Lemma num_le_refl (x : number) : x <> NaN -> num_le x x.
Proof.
  destruct x; intros Hx; try congruence; constructor; try congruence.
  apply Qle_refl.
Qed.

Lemma num_le_not_NaN (x y : number) : num_le x y -> x <> NaN /\ y <> NaN.
Proof. intros Hxy; inversion Hxy; subst; split; congruence. Qed.

Lemma js_lt_iff (x y : number) : js_lt x y = true <-> num_less x y.
Proof.
  unfold num_less. rewrite <- !js_le_iff. unfold js_lt, js_le.
  destruct x as [| |a|], y as [| |b|]; simpl; try (split; [discriminate|intros [? ?]; congruence]);
    try (split; [split; congruence|done]).
  destruct (Qle_bool b a) eqn:Eba; simpl.
  - split; [discriminate|]. intros [_ Hn]. by destruct Hn.
  - split; [|done]. intros _. split; [|congruence].
    destruct (Qle_bool a b) eqn:Eab; [done|].
    exfalso.
    destruct (Qlt_le_dec b a) as [Hlt|Hle].
    + apply Qlt_le_weak, Qle_bool_iff in Hlt. congruence.
    + apply Qle_bool_iff in Hle. congruence.
Qed.

Lemma js_lt_irrefl (x : number) : js_lt x x = false.
Proof.
  destruct (js_lt x x) eqn:E; [|done].
  apply js_lt_iff in E as [? ?]. done.
Qed.

(** ** Strings and trimming *)

Lemma app_cons (a : ascii) (s t : string) : String a s +:+ t = String a (s +:+ t).
Proof. reflexivity. Qed.

Lemma app_nil_r (s : string) : s +:+ EmptyString = s.
Proof. induction s as [|a s IH]; [done|]. by rewrite app_cons, IH. Qed.

Lemma app_assoc (s1 s2 s3 : string) : (s1 +:+ s2) +:+ s3 = s1 +:+ (s2 +:+ s3).
Proof. induction s1 as [|a s1 IH]; [done|]. by rewrite !app_cons, IH. Qed.

Lemma length_app (s1 s2 : string) :
  String.length (s1 +:+ s2) = (String.length s1 + String.length s2)%nat.
Proof. induction s1 as [|a s1 IH]; [done|]. rewrite app_cons. cbn. by rewrite IH. Qed.

Lemma rev_app_append (s1 s2 : string) : String.rev_app s1 s2 = String.rev s1 +:+ s2.
Proof.
  unfold String.rev. revert s2.
  induction s1 as [|a s1 IH]; intros s2; [done|].
  cbn [String.rev_app]. rewrite (IH (String a s2)), (IH (String a EmptyString)).
  by rewrite app_assoc.
Qed.

Lemma rev_cons (a : ascii) (s : string) :
  String.rev (String a s) = String.rev s +:+ String a EmptyString.
Proof. unfold String.rev at 1. cbn [String.rev_app]. apply rev_app_append. Qed.

Lemma rev_append (s1 s2 : string) :
  String.rev (s1 +:+ s2) = String.rev s2 +:+ String.rev s1.
Proof.
  induction s1 as [|a s1 IH]; [by rewrite app_nil_r|].
  by rewrite app_cons, !rev_cons, IH, app_assoc.
Qed.

Lemma rev_involutive (s : string) : String.rev (String.rev s) = s.
Proof.
  induction s as [|a s IH]; [done|].
  by rewrite rev_cons, rev_append, IH.
Qed.

Lemma length_rev (s : string) : String.length (String.rev s) = String.length s.
Proof.
  induction s as [|a s IH]; [done|].
  rewrite rev_cons, length_app, IH. cbn. lia.
Qed.

Lemma strip_prefix_Some (p s r : string) : strip_prefix p s = Some r <-> s = p +:+ r.
Proof.
  revert s. induction p as [|a p IH]; intros s.
  - change (EmptyString +:+ r) with r. destruct s; cbn; split; congruence.
  - rewrite app_cons. destruct s as [|b s]; cbn [strip_prefix]; [split; discriminate|].
    destruct (decide (a = b)) as [->|Hne]; [|split; congruence].
    rewrite IH. split; congruence.
Qed.

Lemma strip_any_Some (ps : list string) (s r : string) :
  strip_any ps s = Some r -> exists p, p ∈ ps /\ s = p +:+ r.
Proof.
  induction ps as [|p ps IH]; [done|]. cbn.
  destruct (strip_prefix p s) as [r'|] eqn:E.
  - intros [= ->]. exists p. split; [left|]. by apply strip_prefix_Some.
  - intros (p' & ? & ?)%IH. exists p'. split; [by right|done].
Qed.

Lemma strip_any_None (ps : list string) (s : string) :
  strip_any ps s = None -> forall p r, p ∈ ps -> s <> p +:+ r.
Proof.
  induction ps as [|p ps IH]; [by intros _ p r ?%elem_of_nil|]. cbn.
  destruct (strip_prefix p s) as [r'|] eqn:E; [done|].
  intros Hnone p' r [->|Hin]%elem_of_cons Hs.
  - apply strip_prefix_Some in Hs. congruence.
  - by apply (IH Hnone p' r).
Qed.

Lemma made_of_app (ps : list string) (s1 s2 : string) :
  made_of ps s1 -> made_of ps s2 -> made_of ps (s1 +:+ s2).
Proof.
  induction 1 as [|p s Hp _ IH]; [done|]. intros Hs2.
  rewrite app_assoc. constructor; auto.
Qed.

Lemma made_of_rev (ps : list string) (s : string) :
  made_of (String.rev <$> ps) s -> made_of ps (String.rev s).
Proof.
  induction 1 as [|p s Hp _ IH]; [constructor|].
  rewrite rev_append. apply made_of_app; [done|].
  apply list_elem_of_fmap in Hp as (q & -> & Hq).
  rewrite rev_involutive, <- (app_nil_r q). constructor; [done|constructor].
Qed.

Lemma strip_all_prefix (fuel : nat) (ps : list string) (s : string) :
  exists before, made_of ps before /\ s = before +:+ strip_all fuel ps s.
Proof.
  revert s. induction fuel as [|fuel IH]; intros s; cbn.
  { exists EmptyString. split; [constructor|done]. }
  destruct (strip_any ps s) as [r|] eqn:E.
  - apply strip_any_Some in E as (p & Hp & ->).
    destruct (IH r) as (before & Hbefore & Hr).
    exists (p +:+ before). split; [by constructor|].
    by rewrite app_assoc, <- Hr.
  - exists EmptyString. split; [constructor|done].
Qed.

Lemma strip_all_done (fuel : nat) (ps : list string) (s : string) :
  Forall (fun p => p <> EmptyString) ps -> (String.length s <= fuel)%nat ->
  strip_any ps (strip_all fuel ps s) = None.
Proof.
  intros Hps. revert s. induction fuel as [|fuel IH]; intros s Hlen; cbn.
  - destruct s; [|cbn in Hlen; lia].
    destruct (strip_any ps EmptyString) as [r|] eqn:E; [|done].
    apply strip_any_Some in E as (p & Hp & Hs).
    rewrite Forall_forall in Hps. specialize (Hps p Hp).
    destruct p; [done|discriminate].
  - destruct (strip_any ps s) as [r|] eqn:E; [|done].
    apply IH. apply strip_any_Some in E as (p & Hp & ->).
    rewrite Forall_forall in Hps. specialize (Hps p Hp).
    rewrite length_app in Hlen. destruct p; [done|]. cbn in Hlen. lia.
Qed.

Lemma WhiteSpace_not_empty : Forall (fun p => p <> EmptyString) WhiteSpace.
Proof. repeat constructor; discriminate. Qed.

Lemma rev_WhiteSpace_not_empty :
  Forall (fun p => p <> EmptyString) (String.rev <$> WhiteSpace).
Proof. repeat constructor; discriminate. Qed.

Lemma trimStart_spec (s : string) :
  (exists before, whitespace before /\ s = before +:+ trimStart s) /\
  ~ starts_with_whitespace (trimStart s).
Proof.
  unfold trimStart. split; [apply strip_all_prefix|].
  intros (w & r & Hw & Hs).
  by eapply strip_any_None;
    [apply (strip_all_done _ _ s WhiteSpace_not_empty (le_n _))|..].
Qed.

Lemma trimEnd_spec (s : string) :
  (exists after, whitespace after /\ s = trimEnd s +:+ after) /\
  ~ ends_with_whitespace (trimEnd s).
Proof.
  unfold trimEnd. split.
  - destruct (strip_all_prefix (String.length s) (String.rev <$> WhiteSpace) (String.rev s))
      as (before & Hbefore & Hs).
    exists (String.rev before). split; [by apply made_of_rev|].
    by rewrite <- rev_append, <- Hs, rev_involutive.
  - intros (w & r & Hw & Hs).
    apply (f_equal String.rev) in Hs. rewrite rev_involutive, rev_append in Hs.
    eapply strip_any_None; [|exact (list_elem_of_fmap_2 String.rev _ _ Hw)|exact Hs].
    apply strip_all_done; [apply rev_WhiteSpace_not_empty|].
    by rewrite length_rev.
Qed.

(** [trim] takes the white space, and only it, off both ends. *)
Lemma trim_trimmed (s : string) : trimmed_of s (trim s).
Proof.
  unfold trim, trimmed_of.
  destruct (trimStart_spec s) as [(before & Hbefore & Hs) Hstart].
  destruct (trimEnd_spec (trimStart s)) as [(after & Hafter & Ht) Hend].
  split_and!; [|..|done].
  - exists before, after. split_and!; [done|done|]. by rewrite <- Ht.
  - intros (w & r & Hw & Hr). apply Hstart. exists w, (r +:+ after).
    split; [done|]. by rewrite Ht at 1; rewrite Hr, app_assoc.
Qed.

(** ** Bounds containment *)

Lemma isLocationInOverlay_Contains (location : Panel.Location) (overlay : Panel.MapOverlay) :
  Panel.isLocationInOverlay location overlay = true <->
  Contains (Panel.coordinates location) (Panel.bounds overlay).
Proof.
  unfold Panel.isLocationInOverlay, Contains.
  destruct (Panel.coordinates location) as [lon lat]; simpl.
  rewrite !andb_true_iff, !js_ge_iff, !js_le_iff. tauto.
Qed.

Lemma malformed_empty (point : number * number) (box : Panel.Bounds) :
  malformed box -> ~ Contains point box.
Proof.
  intros [[_ Hn]|[_ Hn]] (H1 & H2 & H3 & H4); apply Hn; eauto using num_le_trans.
Qed.

Lemma well_formed_corner (point : number * number) (box : Panel.Bounds) :
  well_formed box -> is_corner point box -> Contains point box.
Proof.
  intros [Hlon Hlat] [Hx Hy].
  destruct (num_le_not_NaN _ _ Hlon), (num_le_not_NaN _ _ Hlat).
  unfold Contains.
  destruct Hx as [-> | ->], Hy as [-> | ->]; auto using num_le_refl.
Qed.

Lemma well_formed_edge (point : number * number) (box : Panel.Bounds) :
  well_formed box -> on_edge point box -> Contains point box.
Proof.
  intros [Hlon Hlat] Hedge.
  destruct (num_le_not_NaN _ _ Hlon), (num_le_not_NaN _ _ Hlat).
  unfold Contains.
  destruct Hedge as [[[-> | ->] [? ?]]|[[-> | ->] [? ?]]]; auto using num_le_refl.
Qed.

(** C5.  A location is in an overlay exactly when its longitude lies between
    the bounds of longitude and its latitude between those of latitude, all
    four comparisons inclusive: of a well-formed box, every point on an edge
    and every corner is inside.  Of a box with [min > max] on an axis no
    point is inside.  The test is a total function: it answers for every
    location and every box. *)
Theorem isLocationInOverlay_inclusive (location : Panel.Location) (overlay : Panel.MapOverlay) :
  let point := Panel.coordinates location in
  let box := Panel.bounds overlay in
  (Panel.isLocationInOverlay location overlay = true <->
     num_le (Panel.minLon box) point.1 /\ num_le point.1 (Panel.maxLon box) /\
     num_le (Panel.minLat box) point.2 /\ num_le point.2 (Panel.maxLat box)) /\
  (well_formed box -> on_edge point box \/ is_corner point box ->
     Panel.isLocationInOverlay location overlay = true) /\
  (malformed box -> Panel.isLocationInOverlay location overlay = false).
Proof.
  intros point box. split; [|split].
  - apply isLocationInOverlay_Contains.
  - intros Hwf [Hedge|Hcorner]; apply isLocationInOverlay_Contains.
    + by apply well_formed_edge.
    + by apply well_formed_corner.
  - intros Hbad.
    destruct (Panel.isLocationInOverlay location overlay) eqn:E; [|done].
    apply isLocationInOverlay_Contains in E. by apply malformed_empty in E.
Qed.

(** ** Overlay statistics *)

Lemma filter_isLocationInOverlay (overlay : Panel.MapOverlay) (locations : list Panel.Location) :
  List.filter (fun loc => Panel.isLocationInOverlay loc overlay) locations =
  contained_in (Panel.bounds overlay) locations.
Proof.
  unfold contained_in.
  induction locations as [|l locations IH]; [done|].
  simpl. rewrite filter_cons.
  destruct (Panel.isLocationInOverlay l overlay) eqn:E.
  - rewrite decide_True by (by apply isLocationInOverlay_Contains). by f_equal.
  - rewrite decide_False; [done|].
    intros Hc. apply isLocationInOverlay_Contains in Hc. congruence.
Qed.

(** C6.  The overlays come back in the order given, each with the locations
    its bounds contain, in the order of the list of locations, and with the
    number of them: the number a caller finds by filtering that list with
    those bounds himself. *)
Theorem overlaysWithStats_stable (overlays : list Panel.MapOverlay) (locations : list Panel.Location) :
  let stats := Panel.overlaysWithStats overlays locations in
  Panel.overlay <$> stats = overlays /\
  Forall (fun s =>
            Panel.locations s = contained_in (Panel.bounds (Panel.overlay s)) locations /\
            sublist (Panel.locations s) locations /\
            Panel.locationCount s = length (Panel.locations s) /\
            Panel.locationCount s = count_in (Panel.bounds (Panel.overlay s)) locations)
         stats.
Proof.
  simpl. unfold Panel.overlaysWithStats, count_in. split.
  - induction overlays as [|o overlays IH]; [done|]. simpl. by f_equal.
  - apply Forall_forall. intros s Hs.
    apply list_elem_of_In, in_map_iff in Hs as (o & <- & _). simpl.
    rewrite filter_isLocationInOverlay.
    split_and!; try done. apply sublist_filter.
Qed.

(** ** Selecting every overlay *)

Lemma length_overlaysWithStats (overlays : list Panel.MapOverlay) (locations : list Panel.Location) :
  length (Panel.overlaysWithStats overlays locations) = length overlays.
Proof. unfold Panel.overlaysWithStats. apply length_map. Qed.

Lemma ids_overlaysWithStats (overlays : list Panel.MapOverlay) (locations : list Panel.Location) :
  List.map (fun o => Panel.id (Panel.overlay o)) (Panel.overlaysWithStats overlays locations) =
  Panel.id <$> overlays.
Proof. unfold Panel.overlaysWithStats. rewrite List.map_map. done. Qed.

(** C4, as amended.  When as many overlays are selected as there are
    overlays, the selection is cleared; otherwise the new selection is the
    ids of all the overlays, in their order, whatever the search query and
    the candidates it leaves. *)
Theorem handleSelectAll_all (props : Panel.Props) (st : Panel.State) :
  (length (Panel.selectedOverlayIds props) = length (Panel.allOverlays props) ->
     Panel.handleSelectAll props st = []) /\
  (length (Panel.selectedOverlayIds props) <> length (Panel.allOverlays props) ->
     Panel.handleSelectAll props st = Panel.id <$> Panel.allOverlays props) /\
  (forall st', Panel.handleSelectAll props st' = Panel.handleSelectAll props st).
Proof.
  unfold Panel.handleSelectAll.
  rewrite length_overlaysWithStats, ids_overlaysWithStats.
  split_and!.
  - intros ->. by rewrite Nat.eqb_refl.
  - intros Hne. apply Nat.eqb_neq in Hne. by rewrite Hne.
  - done.
Qed.

(** ** Reading a payload *)

Lemma get_VObj (p : object) (k : string) : get (VObj p) k = Ok (field p k).
Proof. reflexivity. Qed.

Lemma get_truthy (v : value) (k : string) : truthy v = true -> get v k = Ok (prop v k).
Proof. by destruct v. Qed.

Lemma not_absent_or_falsy (v : value) : ~ absent_or_falsy v <-> truthy v = true.
Proof. unfold absent_or_falsy. destruct (truthy v); naive_solver. Qed.

Lemma not_invalid_coordinates (p : object) :
  ~ invalid_coordinates p <-> exists a b, field p "coordinates" = VArr [a; b].
Proof.
  unfold invalid_coordinates. split.
  - intros Hn. destruct (field p "coordinates") as [| | | | |[|a [|b [|c l]]]|] eqn:E;
      try (exfalso; apply Hn; intros; congruence); eauto.
  - intros (a & b & E) Hn. by apply (Hn a b).
Qed.

Lemma two_elements (v : value) :
  negb (isArray v) || negb (Nat.eqb (array_length v) 2) = false <->
  exists a b, v = VArr [a; b].
Proof.
  split.
  - destruct v as [| | | | |[|a [|b [|c l]]]|]; simpl; try discriminate; eauto.
  - by intros (a & b & ->).
Qed.

Section Create_facts.
Context `{Platform}.

Lemma POST_cases (locations : list object) (p : object) :
  POST_outcome locations p
    (Route.POST locations (Ok (VObj p))).1 (Route.POST locations (Ok (VObj p))).2.
Proof.
  unfold Route.POST, Route.POST_try.
  cbn [bind orr falsy get].
  fold (field p "speciesId") (field p "locationName") (field p "coordinates")
    (field p "bloomingPeriod").
  destruct (truthy (field p "speciesId")) eqn:Hs; cbn [negb bind];
    [|apply post_missing_field; unfold missing_field, absent_or_falsy; tauto].
  destruct (truthy (field p "locationName")) eqn:Hn; cbn [negb bind];
    [|apply post_missing_field; unfold missing_field, absent_or_falsy; tauto].
  destruct (truthy (field p "coordinates")) eqn:Hc; cbn [negb bind];
    [|apply post_missing_field; unfold missing_field, absent_or_falsy; tauto].
  destruct (truthy (field p "bloomingPeriod")) eqn:Hb; cbn [negb bind];
    [|apply post_missing_field; unfold missing_field, absent_or_falsy; tauto].
  assert (Hmf : ~ missing_field p).
  { unfold missing_field, absent_or_falsy. intros [?|[?|[?|?]]]; congruence. }
  destruct (negb (isArray (field p "coordinates")) ||
            negb (Nat.eqb (array_length (field p "coordinates")) 2)) eqn:Harr.
  { apply post_invalid_coordinates; [done|].
    intros a b E. rewrite E in Harr. discriminate. }
  apply two_elements in Harr as (c0 & c1 & Hcoords).
  assert (Hic : ~ invalid_coordinates p) by (apply not_invalid_coordinates; eauto).
  unfold orr, falsy. rewrite !(get_truthy _ _ Hb). cbn [bind].
  destruct (truthy (prop (field p "bloomingPeriod") "start")) eqn:Hstart; cbn [negb bind];
    [|apply post_invalid_blooming_period; unfold invalid_blooming_period, absent_or_falsy; tauto].
  destruct (truthy (prop (field p "bloomingPeriod") "peak")) eqn:Hpeak; cbn [negb bind];
    [|apply post_invalid_blooming_period; unfold invalid_blooming_period, absent_or_falsy; tauto].
  destruct (truthy (prop (field p "bloomingPeriod") "end")) eqn:Hend; cbn [negb bind];
    [|apply post_invalid_blooming_period; unfold invalid_blooming_period, absent_or_falsy; tauto].
  assert (Hibp : ~ invalid_blooming_period p).
  { unfold invalid_blooming_period, absent_or_falsy. intros [?|[?|?]]; congruence. }
  assert (Hreach : reaches_date_check p) by done.
  destruct (NewDate (prop (field p "bloomingPeriod") "start")) as [ts|] eqn:Hts; cbn [bind]; cycle 1.
  { apply post_unexpected; [done| |unfold raises; tauto].
    intros (? & ? & ? & (? & ? & ?) & _). congruence. }
  destruct (NewDate (prop (field p "bloomingPeriod") "peak")) as [tp|] eqn:Htp; cbn [bind]; cycle 1.
  { apply post_unexpected; [done| |unfold raises; tauto].
    intros (? & ? & ? & (? & ? & ?) & _). congruence. }
  destruct (NewDate (prop (field p "bloomingPeriod") "end")) as [te|] eqn:Hte; cbn [bind]; cycle 1.
  { apply post_unexpected; [done| |unfold raises; tauto].
    intros (? & ? & ? & (? & ? & ?) & _). congruence. }
  assert (Hparsed : parsed_dates p ts tp te) by done.
  destruct (js_lt tp ts || js_lt te tp) eqn:Horder.
  { apply post_invalid_date_order; [done|]. exists ts, tp, te. split; [done|].
    apply orb_true_iff in Horder. rewrite !js_lt_iff in Horder. done. }
  assert (Hido : ~ invalid_date_order p).
  { intros (ts' & tp' & te' & (E1 & E2 & E3) & Hless).
    rewrite <- !js_lt_iff in Hless.
    apply orb_false_iff in Horder as [? ?].
    destruct Hless; congruence. }
  destruct (Math_max _) as [highest|] eqn:Hmax; cbn [bind];
    [|apply post_unexpected; [done|done|];
      unfold raises; rewrite ?Hcoords;
      change (index (VArr [c0; c1]) 0) with c0;
      change (index (VArr [c0; c1]) 1) with c1; tauto].
  destruct (parseInt (field p "speciesId")) as [speciesId|] eqn:Hsid; cbn [bind];
    [|apply post_unexpected; [done|done|];
      unfold raises; rewrite ?Hcoords;
      change (index (VArr [c0; c1]) 0) with c0;
      change (index (VArr [c0; c1]) 1) with c1; tauto].
  destruct (call_trim (field p "locationName")) as [name|] eqn:Hname; cbn [bind];
    [|apply post_unexpected; [done|done|];
      unfold raises; rewrite ?Hcoords;
      change (index (VArr [c0; c1]) 0) with c0;
      change (index (VArr [c0; c1]) 1) with c1; tauto].
  rewrite Hcoords.
  change (index (VArr [c0; c1]) 0) with c0.
  change (index (VArr [c0; c1]) 1) with c1.
  destruct (parseFloat c0) as [lon|] eqn:Hlon; cbn [bind];
    [|apply post_unexpected; [done|done|];
      unfold raises; rewrite ?Hcoords;
      change (index (VArr [c0; c1]) 0) with c0;
      change (index (VArr [c0; c1]) 1) with c1; tauto].
  destruct (parseFloat c1) as [lat|] eqn:Hlat; cbn [bind];
    [|apply post_unexpected; [done|done|];
      unfold raises; rewrite ?Hcoords;
      change (index (VArr [c0; c1]) 0) with c0;
      change (index (VArr [c0; c1]) 1) with c1; tauto].
  destruct (field p "locationName") as [| | | |raw| |] eqn:Hraw; try discriminate.
  injection Hname as <-.
  cbn [fst snd].
  by eapply post_created.
Qed.

(** Create accepts a payload exactly when the four checks pass and no
    conversion throws. *)
Lemma POST_accepts (locations : list object) (p : object) :
  Route.success (Route.POST locations (Ok (VObj p))).1 = true <->
  reaches_date_check p /\ ~ invalid_date_order p /\ ~ raises locations p.
Proof.
  pose proof (POST_cases locations p) as Hc.
  destruct Hc as [Hmf|Hmf Hic|Hmf Hic Hibp|Hreach Hido|Hreach Hido Hraise
                  |highest speciesId raw c0 c1 lon lat ts tp te Hreach Hido
                     (Hts & Htp & Hte) Hmax Hsid Hraw Hcoords Hlon Hlat];
    cbn [Route.success Route.MissingField Route.InvalidCoordinates
         Route.InvalidBloomingPeriod Route.InvalidDateOrder Route.Unexpected];
    try (split; [discriminate|intros ((? & ? & ?) & ? & ?); tauto]).
  split; [intros _|done]. split_and!; try done.
  unfold raises. rewrite Hts, Htp, Hte, Hmax, Hsid, Hraw, Hcoords.
  change (index (VArr [c0; c1]) 0) with c0.
  change (index (VArr [c0; c1]) 1) with c1.
  rewrite Hlon, Hlat. cbn [call_trim]. intros [?|[?|[?|[?|[?|[?|[?|?]]]]]]]; discriminate.
Qed.

(** A body that is not an object has no fields, and [null] has none to
    read. *)
Lemma POST_not_object (locations : list object) (body : value) :
  match body with
  | VBool _ | VNum _ | VStr _ | VArr _ =>
      Route.POST locations (Ok body) = (Route.MissingField, locations)
  | VNull | VUndefined =>
      Route.POST locations (Ok body) =
      (Route.Unexpected "Failed to create location", locations)
  | VObj _ => True
  end.
Proof. by destruct body. Qed.

Lemma POST_unparsable (locations : list object) :
  Route.POST locations Throw = (Route.Unexpected "Failed to create location", locations).
Proof. done. Qed.

(** C3, as amended.  The answer of Create to a payload other than [null]
    is the error of the first check, in the order MissingField,
    InvalidCoordinates, InvalidBloomingPeriod, InvalidDateOrder, whose
    condition holds of the payload, and Create succeeds only if none of the
    four conditions holds.  The payload [null], of which no property can be
    read, is answered 500, not MissingField. *)
Theorem POST_first_failure (locations : list object) (body : value) :
  let answer := Route.POST locations (Ok body) in
  let p := fields_of body in
  (body = VNull ->
     Route.status answer.1 = 500 /\ Route.success answer.1 = false /\
     Route.message answer.1 = "Failed to create location" /\ answer.2 = locations) /\
  (body <> VNull -> body <> VUndefined ->
     (missing_field p -> answer.1 = Route.MissingField) /\
     (~ missing_field p -> invalid_coordinates p ->
        answer.1 = Route.InvalidCoordinates) /\
     (~ missing_field p -> ~ invalid_coordinates p -> invalid_blooming_period p ->
        answer.1 = Route.InvalidBloomingPeriod) /\
     (~ missing_field p -> ~ invalid_coordinates p -> ~ invalid_blooming_period p ->
        invalid_date_order p -> answer.1 = Route.InvalidDateOrder) /\
     (Route.success answer.1 = true ->
        ~ missing_field p /\ ~ invalid_coordinates p /\ ~ invalid_blooming_period p /\
        ~ invalid_date_order p)).
Proof.
  intros answer p. split; [by intros ->|]. intros Hnull Hundef.
  assert (Hnone : missing_field ∅).
  { left. reflexivity. }
  pose proof (POST_not_object locations body) as Hbody. fold answer in Hbody.
  destruct body as [| |b|n|s|l|m]; try done;
    try (rewrite Hbody; split_and!; try done; intros; exfalso; tauto).
  clear Hbody. pose proof (POST_cases locations m) as Hc. fold answer in Hc.
  change (fields_of (VObj m)) with m in p. subst p.
  destruct Hc as [Hmf|Hmf Hic|Hmf Hic Hibp|(Hmf & Hic & Hibp) Hido
                  |(Hmf & Hic & Hibp) Hido _
                  |? ? ? ? ? ? ? ? ? ? (Hmf & Hic & Hibp) Hido];
    split_and!; try done; try (intros; exfalso; tauto).
Qed.

(** C2, as amended.  A payload whose parsed dates satisfy [peak < start] or
    [end < peak] is refused and leaves the store as it was; the error is
    InvalidDateOrder when the payload passes the three earlier checks (an
    earlier failing check answers first).  Dates in the order
    [start <= peak <= end], equal dates among them, pass the check. *)
Theorem POST_date_order (locations : list object) (p : object) :
  let answer := Route.POST locations (Ok (VObj p)) in
  (invalid_date_order p ->
     Route.success answer.1 = false /\ answer.2 = locations /\
     (reaches_date_check p -> answer = (Route.InvalidDateOrder, locations))) /\
  (forall ts tp te, parsed_dates p ts tp te ->
     num_le ts tp /\ num_le tp te \/ ts = tp /\ tp = te ->
     ~ invalid_date_order p /\ answer.1 <> Route.InvalidDateOrder).
Proof.
  intros answer. pose proof (POST_cases locations p) as Hc. fold answer in Hc.
  split.
  - intros Hido. rewrite (surjective_pairing answer).
    destruct Hc as [Hmf|Hmf Hic|Hmf Hic Hibp|Hreach _|Hreach Hn _
                    |? ? ? ? ? ? ? ? ? ? Hreach Hn];
      try done; split_and!; try done;
      intros Hreach; exfalso; destruct Hreach as (? & ? & ?); tauto.
  - intros ts tp te Hparsed Horder.
    assert (Hok : ~ invalid_date_order p).
    { intros (ts' & tp' & te' & (E1 & E2 & E3) & Hless).
      destruct Hparsed as (F1 & F2 & F3).
      assert (ts' = ts) as -> by congruence.
      assert (tp' = tp) as -> by congruence.
      assert (te' = te) as -> by congruence.
      destruct Horder as [[? ?]|[-> ->]]; destruct Hless as [[? Hn]|[? Hn]];
        by apply Hn. }
    split; [done|].
    destruct Hc; try done.
Qed.

Lemma Number_of_integer_exact (z : Z) :
  Z.abs z < 2 ^ 53 -> Number_of_integer z = num_of_Z z.
Proof.
  intros Hz. unfold Number_of_integer. cbv zeta.
  assert (He : Z.log2 (Z.abs z) - 52 <= 0).
  { destruct (decide (Z.abs z = 0)) as [->|Hne]; [done|].
    assert (Z.log2 (Z.abs z) < 53) by (apply Z.log2_lt_pow2; lia). lia. }
  apply Z.leb_le in He. by rewrite He.
Qed.




End Create_facts.

(** ** The mock of the service

    [mockCreateLocation] makes the four checks of [POST] in the same order;
    what it returns on success differs in the [id], drawn at random, and in
    [speciesId], returned as it came. *)

Section Mock_facts.
Context `{Platform}.

Lemma mockCreateLocation_checks (draw : Z) (p : object) :
  let reply := Service.mockCreateLocation draw (VObj p) in
  (missing_field p -> reply = Service.Failure "Thiếu thông tin bắt buộc") /\
  (~ missing_field p -> invalid_coordinates p ->
     reply = Service.Failure "Tọa độ không hợp lệ") /\
  (~ missing_field p -> ~ invalid_coordinates p -> invalid_blooming_period p ->
     reply = Service.Failure "Thời gian nở hoa không hợp lệ") /\
  (reaches_date_check p -> invalid_date_order p ->
     reply = Service.Failure "Thứ tự thời gian nở hoa không hợp lệ") /\
  (Service.success reply = true ->
     reaches_date_check p /\ ~ invalid_date_order p /\
     exists raw c0 c1 s0 s1,
       field p "locationName" = VStr raw /\
       field p "coordinates" = VArr [c0; c1] /\
       Service.call_toString c0 = Ok s0 /\ Service.call_toString c1 = Ok s1 /\
       Service.data reply =
         VObj (Route.location (VNum (num_of_Z (draw + 1000))) (field p "speciesId")
                 (VStr (trim raw)) (VNum (parseFloat_string s0))
                 (VNum (parseFloat_string s1))
                 (prop (field p "bloomingPeriod") "start")
                 (prop (field p "bloomingPeriod") "peak")
                 (prop (field p "bloomingPeriod") "end"))).
Proof.
  unfold Service.mockCreateLocation, Service.mockCreateLocation_try.
  cbn [bind orr falsy get].
  fold (field p "speciesId") (field p "locationName") (field p "coordinates")
    (field p "bloomingPeriod").
  unfold reaches_date_check, missing_field, invalid_blooming_period, absent_or_falsy.
  destruct (truthy (field p "speciesId")) eqn:Hs; cbn [negb bind];
    [|split_and!; try done; intros; exfalso; tauto].
  destruct (truthy (field p "locationName")) eqn:Hn; cbn [negb bind];
    [|split_and!; try done; intros; exfalso; tauto].
  destruct (truthy (field p "coordinates")) eqn:Hc; cbn [negb bind];
    [|split_and!; try done; intros; exfalso; tauto].
  destruct (truthy (field p "bloomingPeriod")) eqn:Hb; cbn [negb bind];
    [|split_and!; try done; intros; exfalso; tauto].
  destruct (negb (isArray (field p "coordinates")) ||
            negb (Nat.eqb (array_length (field p "coordinates")) 2)) eqn:Harr.
  { assert (invalid_coordinates p) by (intros a b E; rewrite E in Harr; discriminate).
    split_and!; try done; intros; exfalso; intuition congruence. }
  apply two_elements in Harr as (c0 & c1 & Hcoords).
  assert (Hic : ~ invalid_coordinates p) by (apply not_invalid_coordinates; eauto).
  unfold orr, falsy. rewrite !(get_truthy _ _ Hb). cbn [bind].
  destruct (truthy (prop (field p "bloomingPeriod") "start")) eqn:Hstart; cbn [negb bind];
    [|split_and!; try done; intros; exfalso; intuition congruence].
  destruct (truthy (prop (field p "bloomingPeriod") "peak")) eqn:Hpeak; cbn [negb bind];
    [|split_and!; try done; intros; exfalso; intuition congruence].
  destruct (truthy (prop (field p "bloomingPeriod") "end")) eqn:Hend; cbn [negb bind];
    [|split_and!; try done; intros; exfalso; intuition congruence].
  destruct (NewDate (prop (field p "bloomingPeriod") "start")) as [ts|] eqn:Hts;
    cbn [bind]; cycle 1.
  { split_and!; try done; try (intros; exfalso; intuition congruence).
    intros _ (? & ? & ? & (? & ? & ?) & _). congruence. }
  destruct (NewDate (prop (field p "bloomingPeriod") "peak")) as [tp|] eqn:Htp;
    cbn [bind]; cycle 1.
  { split_and!; try done; try (intros; exfalso; intuition congruence).
    intros _ (? & ? & ? & (? & ? & ?) & _). congruence. }
  destruct (NewDate (prop (field p "bloomingPeriod") "end")) as [te|] eqn:Hte;
    cbn [bind]; cycle 1.
  { split_and!; try done; try (intros; exfalso; intuition congruence).
    intros _ (? & ? & ? & (? & ? & ?) & _). congruence. }
  destruct (js_lt tp ts || js_lt te tp) eqn:Horder.
  { split_and!; try done; intros; exfalso; intuition congruence. }
  assert (Hido : ~ invalid_date_order p).
  { intros (ts' & tp' & te' & (E1 & E2 & E3) & Hless).
    rewrite <- !js_lt_iff in Hless.
    apply orb_false_iff in Horder as [? ?].
    destruct Hless; congruence. }
  destruct (call_trim (field p "locationName")) as [name|] eqn:Hname; cbn [bind];
    [|split_and!; try done; intros; exfalso; intuition congruence].
  rewrite Hcoords.
  change (index (VArr [c0; c1]) 0) with c0.
  change (index (VArr [c0; c1]) 1) with c1.
  destruct (Service.call_toString c0) as [s0|] eqn:Hs0; cbn [bind];
    [|split_and!; try done; intros; exfalso; intuition congruence].
  destruct (Service.call_toString c1) as [s1|] eqn:Hs1; cbn [bind];
    [|split_and!; try done; intros; exfalso; intuition congruence].
  destruct (field p "locationName") as [| | | |raw| |] eqn:Hraw; try discriminate.
  injection Hname as <-.
  split_and!; try (intros; exfalso; intuition congruence).
  intros _. split_and!; try done; try (intros [?|[?|[?|?]]]; congruence);
    try (intros [?|[?|?]]; congruence).
  by exists raw, c0, c1, s0, s1.
Qed.

End Mock_facts.

(** ** Identifiers *)

Lemma Qle_bool_inject_Z (a b : Z) : Qle_bool (inject_Z a) (inject_Z b) = (a <=? b).
Proof. unfold Qle_bool, inject_Z. simpl. by rewrite !Z.mul_1_r. Qed.

Lemma num_max_Z (a b : Z) : num_max (num_of_Z a) (num_of_Z b) = num_of_Z (Z.max a b).
Proof.
  unfold num_max, js_lt, num_of_Z. simpl. rewrite Qle_bool_inject_Z.
  destruct (Z.leb_spec b a); simpl; f_equal; f_equal; lia.
Qed.

Lemma foldl_num_max_Z (a : Z) (zs : list Z) :
  foldl num_max (num_of_Z a) (num_of_Z <$> zs) = num_of_Z (foldl Z.max a zs).
Proof.
  revert a. induction zs as [|z zs IH]; intros a; [done|].
  rewrite fmap_cons. cbn [foldl]. by rewrite num_max_Z, IH.
Qed.

Lemma foldl_Z_max (a : Z) (zs : list Z) :
  foldl Z.max a (zs ++ [0]) = Z.max a (foldr Z.max 0 zs).
Proof.
  revert a. induction zs as [|z zs IH]; intros a; simpl; [done|].
  rewrite IH. lia.
Qed.

Lemma Math_max_Z (zs : list Z) :
  foldl num_max NegInfinity (num_of_Z <$> (zs ++ [0])) = num_of_Z (foldr Z.max 0 zs).
Proof.
  destruct zs as [|z zs]; [done|].
  change (foldl num_max NegInfinity (num_of_Z <$> ((z :: zs) ++ [0])))
    with (foldl num_max (num_of_Z z) (num_of_Z <$> (zs ++ [0]))).
  by rewrite foldl_num_max_Z, foldl_Z_max.
Qed.

Lemma num_add_Z (a b : Z) : num_add (num_of_Z a) (num_of_Z b) = num_of_Z (a + b).
Proof.
  unfold num_add, num_of_Z, inject_Z, Qplus. simpl. by rewrite !Z.mul_1_r.
Qed.

Lemma int_id_num_of_Z (l : object) (z : Z) :
  l !! "id" = Some (VNum (num_of_Z z)) -> int_id l = Some z.
Proof. unfold int_id. by intros ->. Qed.

Lemma safe_ids_ids (locations : list object) :
  safe_ids locations ->
  Route.id_of <$> locations = (fun z => VNum (num_of_Z z)) <$> ids locations.
Proof.
  unfold safe_ids, ids.
  induction 1 as [|l locations (z & Hz & _) _ IH]; [done|].
  simpl. rewrite (int_id_num_of_Z l z Hz). simpl. f_equal; [|done].
  unfold Route.id_of. by rewrite Hz.
Qed.

Lemma max_id_bound (locations : list object) (l : object) (z : Z) :
  l ∈ locations -> int_id l = Some z -> z <= max_id locations.
Proof.
  unfold max_id, ids.
  induction 1 as [l locations|l l' locations _ IH]; intros Hz; cbn [omap list_omap].
  - rewrite Hz. cbn [foldr]. lia.
  - specialize (IH Hz). destruct (int_id l'); cbn [foldr]; lia.
Qed.

Section Identifiers.
Context `{Platform}.

Lemma coerce_all_numbers (ns : list number) : coerce_all (VNum <$> ns) = Ok ns.
Proof.
  induction ns as [|n ns IH]; [done|].
  rewrite fmap_cons. cbn [coerce_all ToNumber bind]. by rewrite IH.
Qed.

Lemma Math_max_ids (locations : list object) :
  safe_ids locations ->
  Math_max ((Route.id_of <$> locations) ++ [VNum (num_of_Z 0)]) =
  Ok (num_of_Z (max_id locations)).
Proof.
  intros Hsafe. rewrite (safe_ids_ids _ Hsafe).
  change [VNum (num_of_Z 0)] with ((fun z => VNum (num_of_Z z)) <$> [0]).
  rewrite <- fmap_app.
  rewrite (list_fmap_compose num_of_Z VNum).
  unfold Math_max. rewrite coerce_all_numbers. simpl. by rewrite Math_max_Z.
Qed.

End Identifiers.

(** ** Update and delete *)

Lemma findIndex_ext {A : Type} (f g : A -> result bool) (l : list A) :
  (forall x, f x = g x) -> findIndex f l = findIndex g l.
Proof.
  intros Hfg. induction l as [|x l IH]; [done|].
  simpl. by rewrite Hfg, IH.
Qed.

Lemma findIndex_list_find {A : Type} (f : A -> bool) (l : list A) :
  findIndex (fun x => Ok (f x)) l = Ok (fst <$> list_find (fun x => f x = true) l).
Proof.
  induction l as [|x l IH]; [done|].
  cbn [findIndex bind list_find]. rewrite IH. cbn [bind].
  destruct (f x) eqn:E.
  - by rewrite decide_True.
  - rewrite decide_False by congruence.
    by destruct (list_find _ l) as [[i y]|].
Qed.

Lemma find_no_record (n : number) (locations : list object) :
  no_record_has n locations <-> list_find (has_id n) locations = None.
Proof.
  rewrite list_find_None, Forall_forall. done.
Qed.

Lemma find_record_with_id (n : number) (locations : list object) (i : nat) (l : object) :
  record_with_id n locations i l <-> list_find (has_id n) locations = Some (i, l).
Proof. by rewrite list_find_Some. Qed.

Lemma record_or_none (n : number) (locations : list object) :
  no_record_has n locations \/ exists i l, record_with_id n locations i l.
Proof.
  destruct (list_find (has_id n) locations) as [[i l]|] eqn:E.
  - right. exists i, l. by apply find_record_with_id.
  - left. by apply find_no_record.
Qed.

Section Update_delete.
Context `{Platform}.

Lemma findIndex_id (idv : value) (n : number) (locations : list object) :
  parseInt idv = Ok n ->
  findIndex (fun l => n' <- parseInt idv ;; Ok (strict_equals_num (Route.id_of l) n'))
    locations = Ok (fst <$> list_find (has_id n) locations).
Proof.
  intros Hn.
  rewrite (findIndex_ext _ (fun l => Ok (strict_equals_num (Route.id_of l) n)))
    by (intros l; by rewrite Hn).
  apply findIndex_list_find.
Qed.

Lemma PUT_missing_id (locations : list object) (body : object) :
  truthy (field body "id") = false ->
  Route.PUT locations (Ok (VObj body)) = (Route.MissingId, locations).
Proof.
  intros Hid. unfold Route.PUT, Route.PUT_try. cbn [bind get].
  fold (field body "id"). by rewrite Hid.
Qed.

Lemma DELETE_missing_id (locations : list object) :
  Route.DELETE locations None = (Route.MissingId, locations) /\
  Route.DELETE locations (Some EmptyString) = (Route.MissingId, locations).
Proof. done. Qed.

Lemma DELETE_find (locations : list object) (id : string) :
  id <> EmptyString ->
  Route.DELETE locations (Some id) =
  match list_find (has_id (parseInt_string id)) locations with
  | None => (Route.NotFound, locations)
  | Some (i, l) =>
      (Route.Success (VObj l) "Location deleted successfully", delete i locations)
  end.
Proof.
  intros Hid. unfold Route.DELETE, Route.DELETE_try.
  assert (truthy (VStr id) = true) as -> by (simpl; by rewrite bool_decide_eq_false_2).
  cbn [negb]. rewrite (findIndex_id _ (parseInt_string id)) by done. cbn [bind].
  destruct (list_find _ locations) as [[i l]|] eqn:E; [|done].
  apply list_find_Some in E as (Hi & _ & _). cbn [fmap option_fmap option_map fst].
  by rewrite Hi.
Qed.

(** C8.  Update of an id no record has answers NotFound (404), the store
    untouched.  Otherwise the record with that id is replaced, in its place,
    by the merge of the patch (the body without its [id]) into it, and the
    merge is the [data] of the answer (200): each property of the patch as
    the patch has it, of whatever value, every other property as it was, and
    the [id] as it was whatever the [id] of the body. *)
Theorem PUT_merges (locations : list object) (body : object) (idv : value) (n : number) :
  body !! "id" = Some idv -> truthy idv = true -> parseInt idv = Ok n ->
  let answer := Route.PUT locations (Ok (VObj body)) in
  let patch : object := delete "id" body in
  (no_record_has n locations ->
     Route.status answer.1 = 404 /\ Route.success answer.1 = false /\
     Route.data answer.1 = VNull /\ Route.message answer.1 = "Location not found" /\
     answer.2 = locations) /\
  (Route.success answer.1 = true -> exists i old, record_with_id n locations i old) /\
  (forall i old, record_with_id n locations i old ->
     exists merged : object,
       Route.status answer.1 = 200 /\ Route.success answer.1 = true /\
       Route.data answer.1 = VObj merged /\
       Route.message answer.1 = "Location updated successfully" /\
       answer.2 = <[i := merged]> locations /\
       (forall k v, patch !! k = Some v -> merged !! k = Some v) /\
       (forall k, patch !! k = None -> merged !! k = old !! k) /\
       merged !! "id" = old !! "id").
Proof.
  intros Hid Htruthy Hn answer patch.
  assert (Hanswer : answer =
    match list_find (has_id n) locations with
    | None => (Route.NotFound, locations)
    | Some (i, old) =>
        (Route.Success (VObj (patch ∪ old)) "Location updated successfully",
         <[i := patch ∪ old]> locations)
    end).
  { unfold answer, Route.PUT, Route.PUT_try. cbn [bind get].
    rewrite Hid. cbn [default from_option id]. rewrite Htruthy. cbn [negb].
    rewrite (findIndex_id _ _ _ Hn). cbn [bind].
    destruct (list_find (has_id n) locations) as [[i old]|] eqn:E; [|done].
    apply list_find_Some in E as (Hi & _ & _). cbn [fmap option_fmap option_map fst].
    rewrite Hi. cbn [default from_option id].
    rewrite list_lookup_insert_eq by (by eapply lookup_lt_Some). done. }
  split_and!.
  - intros Hnone. apply find_no_record in Hnone. by rewrite Hanswer, Hnone.
  - intros Hsuccess. rewrite Hanswer in Hsuccess.
    destruct (list_find (has_id n) locations) as [[i old]|] eqn:E; [|discriminate].
    exists i, old. by apply find_record_with_id.
  - intros i old Hrec. apply find_record_with_id in Hrec.
    rewrite Hanswer, Hrec. exists (patch ∪ old). split_and!; try done.
    + intros k v Hk. by apply lookup_union_Some_l.
    + intros k Hk. by apply lookup_union_r.
    + apply lookup_union_r. apply lookup_delete_eq.
Qed.

(** C9.  Delete of an id no record has answers NotFound (404) and leaves the
    store as it was.  Otherwise it takes the record with that id, and nothing
    else, out of the store, and the record is the [data] of the answer
    (200). *)
Theorem DELETE_removes (locations : list object) (id : string) :
  id <> EmptyString ->
  let n := parseInt_string id in
  let answer := Route.DELETE locations (Some id) in
  (no_record_has n locations ->
     Route.status answer.1 = 404 /\ Route.success answer.1 = false /\
     Route.data answer.1 = VNull /\ Route.message answer.1 = "Location not found" /\
     answer.2 = locations) /\
  (forall i l, record_with_id n locations i l ->
     exists before after,
       locations = before ++ l :: after /\ length before = i /\
       Route.status answer.1 = 200 /\ Route.success answer.1 = true /\
       Route.data answer.1 = VObj l /\
       Route.message answer.1 = "Location deleted successfully" /\
       answer.2 = before ++ after) /\
  (no_record_has n locations \/ exists i l, record_with_id n locations i l).
Proof.
  intros Hid n answer.
  assert (Hanswer : answer =
    match list_find (has_id n) locations with
    | None => (Route.NotFound, locations)
    | Some (i, l) =>
        (Route.Success (VObj l) "Location deleted successfully", delete i locations)
    end).
  { unfold answer, Route.DELETE, Route.DELETE_try.
    assert (truthy (VStr id) = true) as -> by (simpl; by rewrite bool_decide_eq_false_2).
    cbn [negb]. rewrite (findIndex_id _ n) by done. cbn [bind].
    destruct (list_find (has_id n) locations) as [[i l]|] eqn:E; [|done].
    apply list_find_Some in E as (Hi & _ & _). cbn [fmap option_fmap option_map fst].
    by rewrite Hi. }
  split_and!.
  - intros Hnone. apply find_no_record in Hnone. by rewrite Hanswer, Hnone.
  - intros i l Hrec. pose proof Hrec as (Hi & _ & _).
    apply find_record_with_id in Hrec. rewrite Hanswer, Hrec.
    apply list_elem_of_split_length in Hi as (before & after & -> & ->).
    exists before, after. split_and!; try done.
    cbn [snd]. by rewrite delete_middle.
  - apply record_or_none.
Qed.

End Update_delete.

(** ** The store after a request *)

(** One step through the body of a handler: the next computation either
    throws or returns, the next test goes either way. *)
Ltac handler_step :=
  match goal with
  | |- context [bind ?m _] => destruct m; cbn [bind]
  | |- context [if ?b then _ else _] => destruct b
  | |- context [match ?o with Some _ => _ | None => _ end] => destruct o
  end.

Section Store.
Context `{Platform}.

Lemma POST_store (locations : list object) (body : result value) :
  (Route.POST locations body).2 = locations \/
  exists id speciesId locationName lon lat start peak end_,
    (Route.POST locations body).2 =
    locations ++ [Route.location id speciesId locationName (VNum lon) (VNum lat)
                    start peak end_].
Proof.
  unfold Route.POST, Route.POST_try.
  repeat handler_step; try (by left); right; by repeat eexists.
Qed.

Lemma DELETE_store (locations : list object) (id : option string) :
  sublist (Route.DELETE locations id).2 locations.
Proof.
  unfold Route.DELETE, Route.DELETE_try.
  repeat handler_step; try done. apply sublist_delete.
Qed.

Lemma GET_store (locations : list object) (speciesId : option string) :
  (Route.GET locations speciesId).2 = locations.
Proof. done. Qed.

Lemma PUT_store (locations : list object) (body : result value) :
  (Route.PUT locations body).2 = locations \/
  exists (patch : object) i old,
    body = Ok (VObj patch) /\ locations !! i = Some old /\
    (Route.PUT locations body).2 = <[i := delete "id" patch ∪ old]> locations.
Proof.
  unfold Route.PUT, Route.PUT_try.
  destruct body as [[| | | | | |patch]|]; cbn [bind get]; try (by left);
    try (destruct (findIndex _ _) as [[i|]|]; by left).
  destruct (negb _); [by left|].
  destruct (findIndex _ locations) as [[i|]|] eqn:E; cbn [bind]; try (by left).
  destruct (locations !! i) as [old|] eqn:Hi.
  - right. exists patch, i, old. done.
  - left. cbn [snd]. apply list_insert_ge. by apply lookup_ge_None.
Qed.

Lemma run_cons (locations : list object) (q : request) (qs : list request) :
  (run locations (q :: qs)).2 = (run (handle locations q).2 qs).2.
Proof.
  cbn [run]. destruct (handle locations q) as [r s]. cbn [snd].
  by destruct (run s qs).
Qed.

End Store.

(** ** The coordinates of the stored records *)

Section Coordinates.
Context `{Platform}.

Lemma handle_coordinates (locations : list object) (q : request) :
  coordinates_ok locations -> keeps_coordinates q ->
  coordinates_ok (handle locations q).2.
Proof.
  unfold coordinates_ok. intros Hok Hq. destruct q as [s|body|body|id]; cbn [handle].
  - done.
  - destruct (POST_store locations body) as [->|(? & ? & ? & lon & lat & ? & ? & ? & ->)];
      [done|].
    apply Forall_app. split; [done|]. apply Forall_singleton. by exists lon, lat.
  - destruct (PUT_store locations body) as [->|(patch & i & old & -> & Hi & ->)]; [done|].
    apply Forall_insert; [done|].
    unfold field. rewrite lookup_union.
    destruct (decide ("coordinates" = "id")) as [|Hne]; [done|].
    rewrite lookup_delete_ne by done.
    destruct (patch !! "coordinates") as [v|] eqn:Hv.
    + destruct (old !! "coordinates"); by apply Hq.
    + rewrite (left_id None _). by apply (Forall_lookup_1 _ _ _ _ Hok Hi).
  - apply Forall_forall. intros l Hl. rewrite Forall_forall in Hok. apply Hok.
    eapply elem_of_sublist; [done|]. apply DELETE_store.
Qed.

Lemma run_coordinates (locations : list object) (qs : list request) :
  coordinates_ok locations -> Forall keeps_coordinates qs ->
  coordinates_ok (run locations qs).2.
Proof.
  intros Hok Hqs. revert locations Hok.
  induction Hqs as [|q qs Hq _ IH]; intros locations Hok; [done|].
  rewrite run_cons. apply IH. by apply handle_coordinates.
Qed.

Lemma seed_coordinates :
  Forall (fun l => two_finite_numbers (field l "coordinates")) Route.seed.
Proof. repeat constructor; by eexists _, _. Qed.

(** The coordinates that Create stores. *)
Lemma POST_coordinates (locations : list object) (p : object)
    (r : Route.Response) (locations' : list object) :
  Route.POST locations (Ok (VObj p)) = (r, locations') -> Route.success r = true ->
  exists c0 c1 lon lat (created : object),
    field p "coordinates" = VArr [c0; c1] /\
    parseFloat c0 = Ok lon /\ parseFloat c1 = Ok lat /\
    Route.data r = VObj created /\ locations' = locations ++ [created] /\
    created !! "coordinates" = Some (VArr [VNum lon; VNum lat]).
Proof.
  intros Hpost Hsuccess.
  pose proof (POST_cases locations p) as Hc. rewrite Hpost in Hc. cbn [fst snd] in Hc.
  destruct Hc as [| | | | |highest speciesId raw c0 c1 lon lat ts tp te
                           _ _ _ _ _ _ Hcoords Hlon Hlat]; try discriminate.
  exists c0, c1, lon, lat, newLocation. split_and!; done.
Qed.

Lemma handle_finite (locations : list object) (q : request) :
  Forall (fun l => two_finite_numbers (field l "coordinates")) locations ->
  keeps_finite q ->
  Forall (fun l => two_finite_numbers (field l "coordinates")) (handle locations q).2.
Proof.
  intros Hok Hq. destruct q as [s|body|body|id]; cbn [handle].
  - done.
  - destruct body as [[| | | | | |p]|]; try done.
    destruct (Route.success (Route.POST locations (Ok (VObj p))).1) eqn:Hsuccess.
    + destruct (POST_coordinates locations p _ _ (surjective_pairing _) Hsuccess)
        as (c0 & c1 & lon & lat & created & Hcoords & Hlon & Hlat & _ & -> & Hcreated).
      apply Forall_app. split; [done|]. apply Forall_singleton.
      destruct (Hq c0 c1 lon lat Hcoords Hlon Hlat) as [Hflon Hflat].
      unfold field. rewrite Hcreated. cbn [default from_option Datatypes.id].
      destruct lon, lat; try discriminate. by eexists _, _.
    + pose proof (POST_cases locations p) as Hc. destruct Hc; done.
  - destruct (PUT_store locations body) as [->|(patch & i & old & -> & Hi & ->)]; [done|].
    apply Forall_insert; [done|].
    unfold field. rewrite lookup_union.
    destruct (decide ("coordinates" = "id")) as [|Hne]; [done|].
    rewrite lookup_delete_ne by done.
    destruct (patch !! "coordinates") as [v|] eqn:Hv.
    + destruct (old !! "coordinates"); by apply Hq.
    + rewrite (left_id None _). by apply (Forall_lookup_1 _ _ _ _ Hok Hi).
  - apply Forall_forall. intros l Hl. rewrite Forall_forall in Hok. apply Hok.
    eapply elem_of_sublist; [done|]. apply DELETE_store.
Qed.

Lemma run_finite (locations : list object) (qs : list request) :
  Forall (fun l => two_finite_numbers (field l "coordinates")) locations ->
  Forall keeps_finite qs ->
  Forall (fun l => two_finite_numbers (field l "coordinates")) (run locations qs).2.
Proof.
  intros Hok Hqs. revert locations Hok.
  induction Hqs as [|q qs Hq _ IH]; intros locations Hok; [done|].
  rewrite run_cons. apply IH. by apply handle_finite.
Qed.

(** C10, as amended.  The coordinates of every seed record are two finite
    numbers.  Create stores two Numbers, the [parseFloat] of the two elements
    of the payload, finite when the elements parse to finite numbers, and
    Delete stores nothing: after any sequence of requests in which every
    Create has elements that parse to finite numbers and no Update carries
    [coordinates] other than two finite numbers, the coordinates of every
    record of the store are exactly two finite numbers; and an array of
    exactly two Numbers when only the Updates are so restricted, to two
    numbers.  (Update stores the coordinates of its body as they come.) *)
Theorem coordinates_invariant (qs : list request) :
  Forall (fun l => two_finite_numbers (field l "coordinates")) Route.seed /\
  (forall locations p r locations',
     Route.POST locations (Ok (VObj p)) = (r, locations') -> Route.success r = true ->
     exists c0 c1 lon lat (created : object),
       field p "coordinates" = VArr [c0; c1] /\
       parseFloat c0 = Ok lon /\ parseFloat c1 = Ok lat /\
       Route.data r = VObj created /\ locations' = locations ++ [created] /\
       created !! "coordinates" = Some (VArr [VNum lon; VNum lat])) /\
  (Forall keeps_finite qs ->
     Forall (fun l => two_finite_numbers (field l "coordinates")) (run Route.seed qs).2) /\
  (Forall keeps_coordinates qs ->
     Forall (fun l => two_numbers (field l "coordinates")) (run Route.seed qs).2).
Proof.
  split_and!.
  - apply seed_coordinates.
  - apply POST_coordinates.
  - intros Hqs. apply run_finite; [apply seed_coordinates|done].
  - intros Hqs. apply run_coordinates; [|done].
    eapply Forall_impl; [apply seed_coordinates|].
    intros l (a & b & ->). by eexists _, _.
Qed.

End Coordinates.

(** ** The ids of the stored records *)

Lemma seed_safe_ids : safe_ids Route.seed.
Proof.
  repeat constructor; eexists; (split; [reflexivity|]); unfold MAX_SAFE_INTEGER; lia.
Qed.

Lemma safe_ids_lookup (locations : list object) (l : object) :
  safe_ids locations -> l ∈ locations ->
  exists z, Route.id_of l = VNum (num_of_Z z) /\ int_id l = Some z /\
            1 <= z <= max_id locations.
Proof.
  intros Hsafe Hl. unfold safe_ids in Hsafe. rewrite Forall_forall in Hsafe.
  destruct (Hsafe l Hl) as (z & Hz & Hrange).
  exists z. pose proof (int_id_num_of_Z l z Hz) as Hint.
  split_and!; [unfold Route.id_of; by rewrite Hz|done|lia|].
  by eapply max_id_bound.
Qed.

Lemma max_id_nonneg (locations : list object) : 0 <= max_id locations.
Proof.
  unfold max_id. induction (ids locations) as [|z zs IH]; cbn [foldr]; lia.
Qed.

Lemma max_id_le (n : Z) (locations : list object) :
  0 <= n -> (forall l z, l ∈ locations -> int_id l = Some z -> z <= n) ->
  max_id locations <= n.
Proof.
  intros Hn. unfold max_id, ids.
  induction locations as [|l locations IH]; intros Hall; [done|].
  cbn [omap list_omap].
  assert (foldr Z.max 0 (omap int_id locations) <= n).
  { apply IH. intros l' z Hl'. apply Hall. by right. }
  destruct (int_id l) as [z|] eqn:Hz; cbn [foldr]; [|done].
  pose proof (Hall l z (list_elem_of_here _ _) Hz). lia.
Qed.

Lemma ids_within_sublist (n : Z) (locations locations' : list object) :
  sublist locations' locations -> ids_within n locations -> ids_within n locations'.
Proof.
  intros Hsub (Hsafe & Hdup & Hmax). split_and!.
  - unfold safe_ids in *. rewrite Forall_forall in *.
    intros l Hl. apply Hsafe. by eapply elem_of_sublist.
  - eapply sublist_NoDup; [done|]. by apply fmap_sublist.
  - apply max_id_le; [pose proof (max_id_nonneg locations); lia|].
    intros l z Hl Hz.
    pose proof (max_id_bound locations l z (elem_of_sublist _ _ _ Hl Hsub) Hz). lia.
Qed.

Lemma ids_within_append (n : Z) (locations : list object) (l : object) :
  ids_within n locations -> n < MAX_SAFE_INTEGER ->
  l !! "id" = Some (VNum (num_of_Z (max_id locations + 1))) ->
  ids_within (n + 1) (locations ++ [l]).
Proof.
  intros (Hsafe & Hdup & Hmax) Hn Hl.
  pose proof (max_id_nonneg locations) as H0.
  split_and!.
  - apply Forall_app. split; [done|]. apply Forall_singleton.
    exists (max_id locations + 1). split; [done|lia].
  - rewrite fmap_app. apply NoDup_app. split_and!; [done| |apply NoDup_singleton].
    intros v Hv Hv'. apply list_elem_of_singleton in Hv' as ->.
    apply list_elem_of_fmap in Hv as (l' & Heq & Hl').
    destruct (safe_ids_lookup _ _ Hsafe Hl') as (z & Hz & _ & Hrange).
    unfold Route.id_of in Heq at 1. rewrite Hl in Heq. cbn in Heq.
    rewrite Hz in Heq. injection Heq as Heq. lia.
  - apply max_id_le; [lia|]. intros l' z [Hl'| ->%list_elem_of_singleton]%elem_of_app Hz.
    + pose proof (max_id_bound _ _ _ Hl' Hz). lia.
    + rewrite (int_id_num_of_Z _ _ Hl) in Hz. injection Hz as <-. lia.
Qed.

Lemma ids_within_weaken (n m : Z) (locations : list object) :
  n <= m -> ids_within n locations -> ids_within m locations.
Proof. intros Hnm (? & ? & ?). split_and!; [done|done|lia]. Qed.

Lemma seed_ids_within : ids_within 3 Route.seed.
Proof.
  split_and!; [apply seed_safe_ids| |by vm_compute].
  assert (Route.id_of <$> Route.seed =
          [VNum (num_of_Z 1); VNum (num_of_Z 2); VNum (num_of_Z 3)]) as ->
    by (vm_compute; reflexivity).
  repeat (apply NoDup_cons_2;
          [rewrite ?elem_of_cons, elem_of_nil; intros Hin; intuition discriminate|]).
  apply NoDup_nil_2.
Qed.

(** In such a store one record at most has a given id. *)
Lemma record_with_id_unique (n : number) (locations : list object)
    (i j : nat) (l l' : object) :
  safe_ids locations -> NoDup (Route.id_of <$> locations) ->
  locations !! i = Some l -> has_id n l ->
  locations !! j = Some l' -> has_id n l' -> i = j.
Proof.
  intros Hsafe Hdup Hi Hl Hj Hl'.
  destruct (safe_ids_lookup _ _ Hsafe (list_elem_of_lookup_2 _ _ _ Hi))
    as (z & Hz & _ & _).
  destruct (safe_ids_lookup _ _ Hsafe (list_elem_of_lookup_2 _ _ _ Hj))
    as (z' & Hz' & _ & _).
  unfold has_id in Hl, Hl'. rewrite Hz in Hl. rewrite Hz' in Hl'.
  destruct n as [| |q|]; try discriminate.
  cbn in Hl, Hl'. apply Qeq_bool_iff in Hl, Hl'.
  assert (inject_Z z == inject_Z z')%Q as Hzz by (by rewrite Hl, Hl').
  apply inject_Z_injective in Hzz as ->.
  eapply (NoDup_lookup _ i j (VNum (num_of_Z z'))); [done|..];
    rewrite list_lookup_fmap; [by rewrite Hi; cbn; rewrite Hz|by rewrite Hj; cbn; rewrite Hz'].
Qed.

Section Identifier_runs.
Context `{Platform}.

Lemma POST_new_record (locations : list object) (body : result value) :
  safe_ids locations ->
  (Route.POST locations body).2 = locations \/
  exists l, (Route.POST locations body).2 = locations ++ [l] /\
            l !! "id" = Some (VNum (num_of_Z (max_id locations + 1))).
Proof.
  intros Hsafe. unfold Route.POST, Route.POST_try.
  rewrite (Math_max_ids _ Hsafe).
  repeat handler_step; try (by left).
  right. eexists. split; [done|].
  unfold Route.location. rewrite lookup_insert_eq. by rewrite num_add_Z.
Qed.

Lemma PUT_ids (locations : list object) (body : result value) :
  Route.id_of <$> (Route.PUT locations body).2 = Route.id_of <$> locations /\
  (safe_ids locations -> safe_ids (Route.PUT locations body).2).
Proof.
  destruct (PUT_store locations body) as [->|(patch & i & old & -> & Hi & ->)]; [done|].
  assert (Hid : (delete "id" patch ∪ old) !! "id" = old !! "id").
  { apply lookup_union_r, lookup_delete_eq. }
  split.
  - rewrite list_fmap_insert. apply list_insert_id.
    rewrite list_lookup_fmap, Hi. unfold Route.id_of. by rewrite Hid.
  - intros Hsafe. apply Forall_insert; [done|]. rewrite Hid.
    unfold safe_ids in Hsafe. by apply (Forall_lookup_1 _ _ _ _ Hsafe Hi).
Qed.

Lemma max_id_id_of (locations locations' : list object) :
  safe_ids locations -> safe_ids locations' ->
  Route.id_of <$> locations' = Route.id_of <$> locations ->
  max_id locations' = max_id locations.
Proof.
  intros Hsafe Hsafe' Hids. unfold max_id. f_equal.
  rewrite (safe_ids_ids _ Hsafe), (safe_ids_ids _ Hsafe') in Hids.
  assert (Hinj : Inj (=) (=) (fun z => VNum (num_of_Z z))).
  { intros z z' Heq. by injection Heq. }
  by apply (inj (fmap (fun z => VNum (num_of_Z z)))).
Qed.

Lemma handle_ids_within (n : Z) (locations : list object) (q : request) :
  ids_within n locations -> n < MAX_SAFE_INTEGER ->
  ids_within (n + 1) (handle locations q).2.
Proof.
  intros Hids Hn. destruct q as [s|body|body|id]; cbn [handle].
  - apply (ids_within_weaken n); [lia|done].
  - destruct Hids as (Hsafe & Hdup & Hmax).
    destruct (POST_new_record locations body Hsafe) as [->|(l & -> & Hl)].
    + apply (ids_within_weaken n); [lia|done].
    + by apply ids_within_append.
  - destruct Hids as (Hsafe & Hdup & Hmax).
    destruct (PUT_ids locations body) as [Heq Hsafe'].
    split_and!; [by apply Hsafe'|by rewrite Heq|].
    rewrite (max_id_id_of locations); [lia|done|by apply Hsafe'|done].
  - apply (ids_within_weaken n); [lia|].
    eapply ids_within_sublist; [apply DELETE_store|done].
Qed.

(** After [k] requests the ids of the store are distinct positive safe
    integers, none above [3 + k]. *)
Lemma run_ids_within (n : Z) (locations : list object) (qs : list request) :
  ids_within n locations -> n + Z.of_nat (length qs) <= MAX_SAFE_INTEGER ->
  ids_within (n + Z.of_nat (length qs)) (run locations qs).2.
Proof.
  revert n locations. induction qs as [|q qs IH]; intros n locations Hids Hn.
  - cbn. by rewrite Z.add_0_r.
  - rewrite run_cons. cbn [length] in *.
    replace (n + Z.of_nat (S (length qs))) with ((n + 1) + Z.of_nat (length qs)) by lia.
    apply IH; [|lia]. apply handle_ids_within; [done|lia].
Qed.

End Identifier_runs.

(** ** Equality of Numbers *)

Lemma num_eqb_sym (x y : number) : num_eqb x y = num_eqb y x.
Proof.
  destruct x as [| |a|], y as [| |b|]; try done. cbn.
  destruct (Qeq_bool a b) eqn:E, (Qeq_bool b a) eqn:E'; try done.
  - apply Qeq_bool_iff in E. symmetry in E. apply Qeq_bool_iff in E. congruence.
  - apply Qeq_bool_iff in E'. symmetry in E'. apply Qeq_bool_iff in E'. congruence.
Qed.

Lemma num_eqb_trans (x y z : number) :
  num_eqb x y = true -> num_eqb y z = true -> num_eqb x z = true.
Proof.
  destruct x as [| |a|], y as [| |b|], z as [| |c|]; try done. cbn.
  rewrite !Qeq_bool_iff. intros -> ->. reflexivity.
Qed.

Lemma num_eqb_refl (x : number) : x <> NaN -> num_eqb x x = true.
Proof. destruct x; try done. intros _. cbn. by apply Qeq_bool_iff. Qed.

Lemma num_eqb_NaN (x : number) : num_eqb x NaN = false.
Proof. by destruct x. Qed.

Lemma num_eqb_Z (a b : Z) : num_eqb (num_of_Z a) (num_of_Z b) = bool_decide (a = b).
Proof.
  cbn. destruct (Qeq_bool (inject_Z a) (inject_Z b)) eqn:E.
  - apply Qeq_bool_iff in E. apply -> inject_Z_injective in E.
    by rewrite bool_decide_eq_true_2.
  - rewrite bool_decide_eq_false_2; [done|]. intros ->.
    assert (Qeq_bool (inject_Z b) (inject_Z b) = true) by (by apply Qeq_bool_iff).
    congruence.
Qed.

Lemma num_less_NaN (x : number) : ~ num_less x NaN /\ ~ num_less NaN x.
Proof.
  split; intros [Hle _]; apply num_le_not_NaN in Hle as [? ?]; congruence.
Qed.

Lemma same_value_zero_refl (x : number) : Panel.same_value_zero x x = true.
Proof. destruct x; try done. cbn. by apply Qeq_bool_iff. Qed.

Lemma same_value_zero_trans (x y z : number) :
  Panel.same_value_zero x y = true -> Panel.same_value_zero y z = true ->
  Panel.same_value_zero x z = true.
Proof.
  destruct x as [| |a|], y as [| |b|], z as [| |c|]; try done.
  apply (num_eqb_trans (Finite a) (Finite b) (Finite c)).
Qed.

Lemma same_value_zero_num_eqb (x y : number) :
  x <> NaN -> Panel.same_value_zero x y = num_eqb x y.
Proof. by destruct x. Qed.

(** ** The ids that Create assigns *)

Lemma no_record_above (locations : list object) (z : Z) :
  safe_ids locations -> max_id locations < z -> no_record_has (num_of_Z z) locations.
Proof.
  intros Hsafe Hz l Hl.
  destruct (safe_ids_lookup _ _ Hsafe Hl) as (z' & Hid & _ & Hrange).
  unfold has_id. rewrite Hid. cbn [strict_equals_num]. rewrite num_eqb_Z.
  rewrite bool_decide_eq_false_2; [done|lia].
Qed.

Lemma max_id_app (locations : list object) (l : object) (z : Z) :
  l !! "id" = Some (VNum (num_of_Z z)) -> max_id locations <= z ->
  max_id (locations ++ [l]) = z.
Proof.
  intros Hl Hz. unfold max_id, ids in *. rewrite omap_app. cbn [omap list_omap].
  rewrite (int_id_num_of_Z l z Hl). cbn [app].
  induction (omap int_id locations) as [|y ys IH]; cbn [foldr app] in *; lia.
Qed.

Lemma max_id_attained (locations : list object) :
  safe_ids locations -> locations <> [] ->
  exists l, l ∈ locations /\ int_id l = Some (max_id locations).
Proof.
  intros Hsafe Hne. unfold safe_ids in Hsafe.
  induction Hsafe as [|l locations (z & Hz & Hrange) Hsafe IH]; [done|]. clear Hne.
  pose proof (int_id_num_of_Z l z Hz) as Hint.
  assert (Hmax : max_id (l :: locations) = Z.max z (max_id locations)).
  { unfold max_id, ids. cbn [omap list_omap]. by rewrite Hint. }
  rewrite Hmax.
  destruct locations as [|l' locations].
  - exists l. split; [left|]. rewrite Hint. f_equal. cbn. lia.
  - destruct IH as (m & Hm & Hbest); [done|].
    destruct (Z.max_spec z (max_id (l' :: locations))) as [[_ ->]|[_ ->]].
    + exists m. split; [by right|done].
    + exists l. split; [left|done].
Qed.

Lemma int_id_Some (l : object) (z : Z) :
  int_id l = Some z -> l !! "id" = Some (VNum (num_of_Z z)).
Proof.
  unfold int_id. intros Hz.
  destruct (l !! "id") as [[| | |[| |[n []]|]| | |]|]; try discriminate.
  by injection Hz as ->.
Qed.

Lemma has_id_int_id (l : object) (z : Z) :
  int_id l = Some z -> has_id (num_of_Z z) l.
Proof.
  intros Hz%int_id_Some. unfold has_id, Route.id_of. rewrite Hz. cbn.
  apply Qeq_bool_iff. reflexivity.
Qed.

Lemma int_id_max (locations : list object) (i j : nat) (l l' : object) (z : Z) :
  safe_ids locations -> NoDup (Route.id_of <$> locations) ->
  locations !! i = Some l -> locations !! j = Some l' ->
  int_id l = Some z -> int_id l' = Some z -> i = j.
Proof.
  intros Hsafe Hdup Hi Hj Hl Hl'.
  eapply (record_with_id_unique (num_of_Z z)); eauto using has_id_int_id.
Qed.

Section Assigned.
Context `{Platform}.

Lemma run_cons_answers (locations : list object) (q : request) (qs : list request) :
  (run locations (q :: qs)).1 = (handle locations q).1 :: (run (handle locations q).2 qs).1.
Proof.
  cbn [run]. destruct (handle locations q) as [r s]. cbn [fst snd].
  by destruct (run s qs).
Qed.

Lemma POST_id (locations : list object) (body : result value) :
  safe_ids locations ->
  Route.success (Route.POST locations body).1 = false /\
    (Route.POST locations body).2 = locations \/
  Route.success (Route.POST locations body).1 = true /\
    exists l, (Route.POST locations body).2 = locations ++ [l] /\
              Route.data (Route.POST locations body).1 = VObj l /\
              l !! "id" = Some (VNum (num_of_Z (max_id locations + 1))).
Proof.
  intros Hsafe. unfold Route.POST, Route.POST_try.
  rewrite (Math_max_ids _ Hsafe).
  repeat handler_step; try (by left).
  right. split; [done|]. eexists. split_and!; [done|done|].
  unfold Route.location. rewrite lookup_insert_eq. by rewrite num_add_Z.
Qed.

Lemma DELETE_spares (locations : list object) (id : option string) :
  safe_ids locations -> ~ deletes_greatest locations (Delete id) ->
  max_id locations <= max_id (Route.DELETE locations id).2.
Proof.
  intros Hsafe Hnot.
  destruct id as [id|]; [|done].
  destruct (decide (id = EmptyString)) as [->|Hid]; [done|].
  rewrite (DELETE_find _ _ Hid).
  destruct (list_find (has_id (parseInt_string id)) locations) as [[i l]|] eqn:E;
    cbn [snd]; [|done].
  apply find_record_with_id in E.
  assert (Hl : int_id l <> Some (max_id locations)).
  { intros Hl. apply Hnot. split; [done|]. by exists i, l. }
  destruct E as (Hi & _ & _).
  destruct (max_id_attained locations Hsafe) as (m & Hm & Hbest).
  { intros ->. done. }
  apply list_elem_of_lookup in Hm as (j & Hj).
  assert (Hij : j <> i) by (intros ->; congruence).
  eapply max_id_bound; [|done].
  destruct (decide (j < i)%nat) as [Hlt|Hge].
  - apply (list_elem_of_lookup_2 _ j). by rewrite list_lookup_delete_lt.
  - apply (list_elem_of_lookup_2 _ (pred j)). rewrite list_lookup_delete_ge by lia.
    by replace (S (pred j)) with j by lia.
Qed.

Lemma DELETE_greatest (locations : list object) (q : request) :
  safe_ids locations -> NoDup (Route.id_of <$> locations) ->
  deletes_greatest locations q ->
  max_id (handle locations q).2 < max_id locations.
Proof.
  intros Hsafe Hdup Hq. destruct q as [| | |[id|]]; try done.
  destruct Hq as (Hid & i & l & Hrec & Hl). cbn [handle].
  rewrite (DELETE_find _ _ Hid).
  pose proof Hrec as (Hi & _ & _). apply find_record_with_id in Hrec. rewrite Hrec.
  cbn [snd].
  destruct (safe_ids_lookup _ _ Hsafe (list_elem_of_lookup_2 _ _ _ Hi))
    as (z & _ & Hz & Hrange).
  assert (z = max_id locations) as -> by congruence.
  enough (max_id (delete i locations) <= max_id locations - 1) by lia.
  apply max_id_le; [lia|]. intros l' z' Hl' Hz'.
  apply list_elem_of_lookup in Hl' as (j & Hj).
  assert (exists j', j' <> i /\ locations !! j' = Some l') as (j' & Hne & Hj').
  { destruct (decide (j < i)%nat) as [Hlt|Hge].
    - exists j. split; [lia|]. by rewrite list_lookup_delete_lt in Hj.
    - exists (S j). split; [lia|]. by rewrite list_lookup_delete_ge in Hj by lia. }
  pose proof (max_id_bound _ _ _ (list_elem_of_lookup_2 _ _ _ Hj') Hz').
  destruct (decide (z' = max_id locations)) as [->|]; [|lia].
  by destruct (Hne (int_id_max _ _ _ _ _ _ Hsafe Hdup Hj' Hi Hz' Hl)).
Qed.

Lemma handle_spares (locations : list object) (q : request) :
  safe_ids locations -> ~ deletes_greatest locations q ->
  max_id locations <= max_id (handle locations q).2.
Proof.
  intros Hsafe Hq. destruct q as [s|body|body|id]; cbn [handle].
  - done.
  - destruct (POST_id locations body Hsafe) as [[_ ->]|[_ (l & -> & _ & Hl)]]; [done|].
    rewrite (max_id_app _ _ _ Hl); lia.
  - destruct (PUT_ids locations body) as [Hids Hsafe'].
    by rewrite (max_id_id_of locations _ Hsafe (Hsafe' Hsafe) Hids).
  - by apply DELETE_spares.
Qed.

(** The ids of the Creates of a run that spares the greatest id. *)
Lemma run_spares (locations : list object) (qs : list request) :
  safe_ids locations -> NoDup (Route.id_of <$> locations) ->
  max_id locations + Z.of_nat (length qs) <= MAX_SAFE_INTEGER ->
  spares_greatest locations qs ->
  exists zs,
    new_ids qs (run locations qs).1 = (fun z => VNum (num_of_Z z)) <$> zs /\
    Forall (fun z => max_id locations < z) zs /\
    forall i j a b, zs !! i = Some a -> zs !! j = Some b -> (i < j)%nat -> a < b.
Proof.
  revert locations. induction qs as [|q qs IH]; intros locations Hsafe Hdup Hmax Hqs.
  { exists []. split_and!; [done|done|]. intros i j a b Hi. done. }
  destruct Hqs as [Hq Hqs]. cbn [length] in Hmax.
  assert (Hwithin : ids_within (max_id locations) locations) by done.
  apply (handle_ids_within _ _ q) in Hwithin as (Hsafe' & Hdup' & Hmax'); [|lia].
  pose proof (handle_spares locations q Hsafe Hq) as Hup.
  destruct (IH _ Hsafe' Hdup') as (zs & Hzs & Hall & Hsorted); [lia|done|].
  rewrite run_cons_answers.
  assert (Hrest : exists zs',
    new_ids qs (run (handle locations q).2 qs).1 = (fun z => VNum (num_of_Z z)) <$> zs' /\
    Forall (fun z => max_id locations < z) zs' /\
    forall i j a b, zs' !! i = Some a -> zs' !! j = Some b -> (i < j)%nat -> a < b).
  { exists zs. split_and!; [done| |done].
    eapply Forall_impl; [done|]. intros z Hz. cbn in Hz. lia. }
  destruct q as [s|body|body|id]; cbn [new_ids]; try done.
  cbn [handle] in *.
  destruct (POST_id locations body Hsafe) as [[Hfail _]|[Hsuccess (l & Hstore & Hdata & Hl)]].
  { by rewrite Hfail. }
  rewrite Hsuccess, Hdata. cbn [prop]. unfold field. rewrite Hl.
  cbn [default from_option Datatypes.id].
  assert (Hnext : max_id (Route.POST locations body).2 = max_id locations + 1).
  { rewrite Hstore. apply max_id_app; [done|lia]. }
  exists ((max_id locations + 1) :: zs). split_and!.
  - cbn [app]. by rewrite fmap_cons, Hzs.
  - constructor; [lia|]. eapply Forall_impl; [done|]. intros z Hz. cbn in Hz. lia.
  - intros [|i] [|j] a b Hi Hj Hlt; try lia; cbn in Hi, Hj.
    + injection Hi as <-. rewrite Forall_forall in Hall.
      specialize (Hall b (list_elem_of_lookup_2 _ _ _ Hj)). cbn in Hall. lia.
    + apply (Hsorted i j); [done|done|lia].
Qed.

(** C1, as amended.  Create assigns [max(existing ids, 0) + 1], which is
    above every id the store holds at that moment.  The ids of successive
    Creates increase, all above every id the store held at the start,
    whatever requests come in between, as long as none of them is a Delete of
    the record with the greatest id: no id is then assigned twice, and none
    that a record of the store had at the start.  After a Delete of the
    record with the greatest id, the greatest id of the store is lower, and
    the next Create assigns an id that is at most the id deleted. *)
Theorem POST_assigns_next_id (locations : list object) :
  safe_ids locations ->
  (forall p r locations',
     Route.POST locations (Ok (VObj p)) = (r, locations') -> Route.success r = true ->
     exists newLocation : object,
       Route.status r = 201 /\ Route.data r = VObj newLocation /\
       locations' = locations ++ [newLocation] /\
       newLocation !! "id" = Some (VNum (num_of_Z (max_id locations + 1))) /\
       forall l z, l ∈ locations -> int_id l = Some z -> z < max_id locations + 1) /\
  (forall qs,
     NoDup (Route.id_of <$> locations) ->
     max_id locations + Z.of_nat (length qs) <= MAX_SAFE_INTEGER ->
     spares_greatest locations qs ->
     exists zs,
       new_ids qs (run locations qs).1 = (fun z => VNum (num_of_Z z)) <$> zs /\
       Forall (fun z => max_id locations < z) zs /\
       (forall i j a b, zs !! i = Some a -> zs !! j = Some b -> (i < j)%nat -> a < b) /\
       NoDup zs /\
       Forall (fun z => no_record_has (num_of_Z z) locations) zs) /\
  (forall q,
     NoDup (Route.id_of <$> locations) -> deletes_greatest locations q ->
     max_id (handle locations q).2 < max_id locations /\
     forall p r locations',
       Route.POST (handle locations q).2 (Ok (VObj p)) = (r, locations') ->
       Route.success r = true ->
       exists z, prop (Route.data r) "id" = VNum (num_of_Z z) /\ z <= max_id locations).
Proof.
  intros Hsafe. split_and!.
  - intros p r locations' Hpost Hsuccess.
    destruct (POST_id locations (Ok (VObj p)) Hsafe)
      as [[Hfail _]|[_ (l & Hstore & Hdata & Hl)]]; rewrite Hpost in *; cbn [fst snd] in *;
      [congruence|].
    exists l. split_and!; try done.
    + pose proof (POST_cases locations p) as Hc. rewrite Hpost in Hc.
      cbn [fst snd] in Hc. destruct Hc; done.
    + intros l' z Hl' Hz. pose proof (max_id_bound _ _ _ Hl' Hz). lia.
  - intros qs Hdup Hmax Hqs.
    destruct (run_spares locations qs Hsafe Hdup Hmax Hqs) as (zs & Hzs & Habove & Hsorted).
    exists zs. split_and!; try done.
    + apply NoDup_alt. intros i j z Hi Hj.
      destruct (Nat.lt_trichotomy i j) as [Hlt|[->|Hlt]]; [|done|].
      * pose proof (Hsorted i j z z Hi Hj Hlt). lia.
      * pose proof (Hsorted j i z z Hj Hi Hlt). lia.
    + eapply Forall_impl; [done|]. intros z Hz. by apply no_record_above.
  - intros q Hdup Hq. pose proof (DELETE_greatest locations q Hsafe Hdup Hq) as Hless.
    split; [done|]. intros p r locations' Hpost Hsuccess.
    assert (Hsafe' : safe_ids (handle locations q).2).
    { destruct q as [| | |id]; try done. cbn [handle].
      unfold safe_ids in *. rewrite Forall_forall in *. intros l Hl. apply Hsafe.
      eapply elem_of_sublist; [done|]. apply DELETE_store. }
    destruct (POST_id _ (Ok (VObj p)) Hsafe')
      as [[Hfail _]|[_ (l & _ & Hdata & Hl)]]; rewrite Hpost in *; cbn [fst snd] in *;
      [congruence|].
    exists (max_id (handle locations q).2 + 1). split; [|lia].
    rewrite Hdata. cbn [prop]. unfold field. by rewrite Hl.
Qed.

End Assigned.

(** * Further properties

    What the handlers, the panel and the service do beyond the claims above:
    their answers to requests they refuse, what a request leaves of the
    store for the next one, and how the panel's handlers compose. *)

(** ** White space and substrings *)

Lemma strip_any_WhiteSpace (p r : string) :
  p ∈ WhiteSpace -> strip_any WhiteSpace (p +:+ r) = Some r.
Proof.
  intros Hp. vm_compute in Hp.
  repeat (apply elem_of_cons in Hp as [->|Hp]; [reflexivity|]).
  by apply elem_of_nil in Hp.
Qed.

Lemma strip_all_whitespace (fuel : nat) (s : string) :
  whitespace s -> (String.length s <= fuel)%nat -> strip_all fuel WhiteSpace s = EmptyString.
Proof.
  intros Hs. revert fuel. induction Hs as [|p s Hp Hs IH]; intros fuel Hlen.
  - by destruct fuel.
  - pose proof WhiteSpace_not_empty as Hne. rewrite Forall_forall in Hne.
    specialize (Hne p Hp). rewrite length_app in Hlen.
    destruct fuel as [|fuel]; [destruct p; [done|cbn in Hlen; lia]|].
    cbn [strip_all]. rewrite (strip_any_WhiteSpace p s Hp).
    apply IH. destruct p; [done|]. cbn in Hlen. lia.
Qed.

(** [trim] leaves nothing of a string exactly when the string is white
    space. *)
Lemma trim_whitespace (s : string) : trim s = EmptyString <-> whitespace s.
Proof.
  split.
  - intros Ht. destruct (trim_trimmed s) as [(before & after & Hb & Ha & Hs) _].
    rewrite Ht in Hs. rewrite Hs. by apply made_of_app.
  - intros Hs. unfold trim, trimStart.
    by rewrite (strip_all_whitespace _ s Hs (le_n _)).
Qed.

Lemma includes_unfold (s sub : string) :
  includes s sub =
  match strip_prefix sub s with
  | Some _ => true
  | None => match s with EmptyString => false | String _ s' => includes s' sub end
  end.
Proof. by destruct s. Qed.

Lemma includes_substring_iff (s sub : string) : includes s sub = true <-> substring sub s.
Proof.
  split.
  - induction s as [|a s IH]; rewrite includes_unfold.
    + destruct (strip_prefix sub EmptyString) as [r|] eqn:E; [|done].
      intros _. apply strip_prefix_Some in E. by exists EmptyString, r.
    + destruct (strip_prefix sub (String a s)) as [r|] eqn:E.
      * intros _. apply strip_prefix_Some in E. by exists EmptyString, r.
      * intros (before & after & ->)%IH. by exists (String a before), after.
  - intros (before & after & ->).
    induction before as [|a before IH]; rewrite includes_unfold.
    + change (EmptyString +:+ sub +:+ after) with (sub +:+ after).
      by rewrite (proj2 (strip_prefix_Some sub (sub +:+ after) after) eq_refl).
    + rewrite app_cons. by destruct (strip_prefix sub _).
Qed.

(** ** Values that have no string *)

Lemma value_array_ind (P : value -> Prop) :
  P VUndefined -> P VNull -> (forall b, P (VBool b)) -> (forall n, P (VNum n)) ->
  (forall s, P (VStr s)) -> (forall l, Forall P l -> P (VArr l)) ->
  (forall m, P (VObj m)) -> forall v, P v.
Proof.
  intros Hu Hn Hb Hnum Hs Ha Ho. fix IH 1.
  intros [| |b|n|s|l|m];
    [exact Hu|exact Hn|exact (Hb b)|exact (Hnum n)|exact (Hs s)| |exact (Ho m)].
  apply Ha. induction l as [|x l IHl]; constructor; [apply IH|apply IHl].
Qed.

Section Conversion_facts.
Context `{Platform}.

Lemma ToString_cons (x : value) (l : list value) :
  ToString (VArr (x :: l)) =
  (s <- match x with VUndefined | VNull => Ok EmptyString | _ => ToString x end ;;
   match l with
   | [] => Ok s
   | _ :: _ => r <- ToString (VArr l) ;; Ok (s +:+ "," +:+ r)
   end).
Proof. reflexivity. Qed.

(** [ToString] throws exactly of the values that have no string. *)
Lemma ToString_Throw (v : value) : ToString v = Throw <-> unprintable v.
Proof.
  induction v as [| |b|n|s|l IH|m] using value_array_ind;
    try (split; [by try destruct b|inversion 1]).
  - induction IH as [|x l Hx _ IHl].
    + split; [done|]. inversion 1 as [|? ? Hin]. by apply elem_of_nil in Hin.
    + rewrite ToString_cons. split.
      * intros Hthrow.
        destruct (match x with VUndefined | VNull => Ok EmptyString | _ => ToString x end)
          as [s|] eqn:Es; cbn [bind] in Hthrow.
        -- destruct l as [|y l]; [done|].
           destruct (ToString (VArr (y :: l))) as [r|] eqn:Er; [done|].
           pose proof (proj1 IHl eq_refl) as Hu.
           inversion Hu as [|? z Hz Hu']; subst.
           apply (unprintable_array _ z); [by right|done].
        -- apply (unprintable_array _ x); [left|]. apply Hx. by destruct x.
      * inversion 1 as [|? z Hz Hu]; subst.
        apply elem_of_cons in Hz as [->|Hz].
        -- apply Hx in Hu. destruct x; try done; by rewrite Hu.
        -- assert (ToString (VArr l) = Throw) as Hl.
           { apply IHl. by apply (unprintable_array _ z). }
           destruct (match x with VUndefined | VNull => Ok EmptyString | _ => ToString x end);
             [|done]. cbn [bind]. destruct l; [done|]. by rewrite Hl.
  - cbn [ToString]. destruct (m !! "toString") as [t|] eqn:E.
    + rewrite bool_decide_eq_true_2 by done. split; [|done].
      intros _. constructor. by rewrite E.
    + rewrite bool_decide_eq_false_2 by (by intros [? ?]). split; [done|].
      inversion 1 as [? [? ?]|]. congruence.
Qed.

Lemma parseInt_Throw (v : value) : parseInt v = Throw <-> unprintable v.
Proof.
  rewrite <- ToString_Throw. unfold parseInt. by destruct (ToString v).
Qed.

Lemma parseFloat_Throw (v : value) : parseFloat v = Throw <-> unprintable v.
Proof.
  rewrite <- ToString_Throw. unfold parseFloat. by destruct (ToString v).
Qed.

Lemma NewDate_Throw (v : value) : NewDate v = Throw <-> unprintable v.
Proof.
  rewrite <- ToString_Throw. unfold NewDate, ToPrimitive.
  destruct v as [| |[|]| | | |]; try done;
    destruct (ToString _); done.
Qed.

Lemma call_trim_Throw (v : value) : call_trim v = Throw <-> forall s, v <> VStr s.
Proof.
  destruct v; cbn; split; try done; try (intros Hn; by destruct (Hn s)).
Qed.

Lemma call_toString_Ok (v : value) (s : string) :
  Service.call_toString v = Ok s -> ToString v = Ok s /\ ~ unprintable v.
Proof.
  intros Hv. assert (ToString v = Ok s) as Hs by (by destruct v).
  split; [done|]. rewrite <- ToString_Throw. congruence.
Qed.

End Conversion_facts.

(** ** The panel: bounds that are not numbers *)

(** X1.  A location one of whose coordinates is [NaN] is within no overlay,
    and an overlay one of whose bounds is [NaN] holds no location: such a
    location is in the list of no overlay of the statistics. *)
Theorem isLocationInOverlay_NaN (location : Panel.Location) :
  (forall overlay,
     has_NaN (Panel.coordinates location) (Panel.bounds overlay) ->
     Panel.isLocationInOverlay location overlay = false) /\
  ((Panel.coordinates location).1 = NaN \/ (Panel.coordinates location).2 = NaN ->
   forall overlays locations,
     Forall (fun s => location ∉ Panel.locations s)
       (Panel.overlaysWithStats overlays locations)).
Proof.
  assert (Hout : forall overlay,
    has_NaN (Panel.coordinates location) (Panel.bounds overlay) ->
    Panel.isLocationInOverlay location overlay = false).
  { intros overlay Hnan.
    destruct (Panel.isLocationInOverlay location overlay) eqn:E; [|done].
    apply isLocationInOverlay_Contains in E as (H1 & H2 & H3 & H4).
    apply num_le_not_NaN in H1, H2, H3, H4. unfold has_NaN in Hnan. tauto. }
  split; [done|].
  intros Hnan overlays locations. apply Forall_forall. intros s Hs Hin.
  apply list_elem_of_In, in_map_iff in Hs as (o & <- & _). cbn [Panel.locations] in Hin.
  apply list_elem_of_In, filter_In in Hin as [_ Hin].
  rewrite Hout in Hin; [done|]. unfold has_NaN. tauto.
Qed.

(** ** The panel: the selection *)

Lemma ids_include_app (ids ids' : list number) (x : number) :
  Panel.ids_include (ids ++ ids') x = Panel.ids_include ids x || Panel.ids_include ids' x.
Proof. unfold Panel.ids_include. apply existsb_app. Qed.

Lemma ids_include_false (ids : list number) (x : number) :
  Panel.ids_include ids x = false <-> forall i, i ∈ ids -> Panel.same_value_zero x i = false.
Proof.
  unfold Panel.ids_include. induction ids as [|i ids IH]; cbn [existsb].
  - split; [intros _ i Hi; by apply elem_of_nil in Hi|done].
  - rewrite orb_false_iff, IH. split.
    + intros [Hi Hids] j [->|Hj]%elem_of_cons; auto.
    + intros Hall. split; [apply Hall; left|intros j Hj; apply Hall; by right].
Qed.

Lemma ids_include_true (ids : list number) (x : number) :
  Panel.ids_include ids x = true <-> exists i, i ∈ ids /\ Panel.same_value_zero x i = true.
Proof.
  unfold Panel.ids_include. rewrite existsb_exists.
  split; intros (i & Hi & Hx); exists i; by rewrite ?list_elem_of_In in *.
Qed.

Lemma filter_all {A : Type} (f : A -> bool) (l : list A) :
  (forall x, x ∈ l -> f x = true) -> List.filter f l = l.
Proof.
  induction l as [|x l IH]; [done|]. intros Hall. cbn.
  rewrite (Hall x) by left. f_equal. apply IH. intros y Hy. apply Hall. by right.
Qed.

Lemma sublist_List_filter {A : Type} (f : A -> bool) (l : list A) :
  sublist (List.filter f l) l.
Proof.
  induction l as [|x l IH]; cbn; [done|]. destruct (f x); by constructor.
Qed.

Lemma filter_Forall_all {A : Type} (P : A -> Prop) `{!forall x, Decision (P x)} (l : list A) :
  Forall P l -> filter P l = l.
Proof.
  induction 1 as [|x l Hx _ IH]; [done|]. by rewrite filter_cons, decide_True, IH.
Qed.

Lemma List_filter_filter {A : Type} (f : A -> bool) (l : list A) :
  List.filter f l = filter (fun x => f x = true) l.
Proof.
  induction l as [|x l IH]; [done|]. cbn [List.filter]. rewrite filter_cons, IH.
  destruct (f x); [by rewrite decide_True|by rewrite decide_False].
Qed.

Section Toggle.
Context `{Platform}.

(** X2.  Toggling an overlay changes whether its id is selected and leaves
    every other id as it was: an id that is not selected is added at the end
    of the selection, and every occurrence of one that is selected is taken
    out, the others staying as they are, in their order and as often as they
    occur.  The id [NaN] is the exception: once selected it stays,
    [includes] finding it and [!==] never. *)
Theorem handleOverlayToggle_flips (props : Panel.Props) (x : number) :
  let selected := Panel.selectedOverlayIds props in
  let selection := Panel.handleOverlayToggle props x in
  (x <> NaN -> Panel.ids_include selection x = negb (Panel.ids_include selected x)) /\
  (forall y, Panel.same_value_zero y x = false ->
     Panel.ids_include selection y = Panel.ids_include selected y) /\
  (Panel.ids_include selected x = false -> selection = selected ++ [x]) /\
  (Panel.ids_include selected x = true ->
     selection = filter (fun y => num_eqb y x <> true) selected) /\
  (Panel.ids_include selected x = true -> sublist selection selected) /\
  (x = NaN -> Panel.ids_include selected x = true -> selection = selected).
Proof.
  intros selected selection. unfold selection, Panel.handleOverlayToggle. fold selected.
  destruct (Panel.ids_include selected x) eqn:Hx; split_and!; try done.
  - intros Hnan. cbn [negb]. apply ids_include_false.
    intros i [Hi Hne]%list_elem_of_In%filter_In.
    rewrite same_value_zero_num_eqb, num_eqb_sym by done.
    by destruct (num_eqb i x).
  - intros y Hy. destruct (Panel.ids_include selected y) eqn:Hsel.
    + apply ids_include_true in Hsel as (i & Hi & Hyi).
      apply ids_include_true. exists i. split; [|done].
      apply list_elem_of_In, filter_In. split; [by apply list_elem_of_In|].
      destruct (num_eqb i x) eqn:Hix; [|done].
      assert (Panel.same_value_zero i x = true) as Hsv.
      { by destruct i, x. }
      by rewrite (same_value_zero_trans y i x) in Hy.
    + apply ids_include_false. intros i [Hi _]%list_elem_of_In%filter_In.
      rewrite ids_include_false in Hsel. apply Hsel. by apply list_elem_of_In.
  - intros _. rewrite List_filter_filter. apply list_filter_iff.
    intros y. by destruct (num_eqb y x).
  - intros _. apply sublist_List_filter.
  - intros -> _. apply filter_all. intros i _. by rewrite num_eqb_NaN.
  - intros Hnan. cbn [negb]. rewrite ids_include_app, Hx. cbn.
    by rewrite same_value_zero_refl.
  - intros y Hy. rewrite ids_include_app. cbn. by rewrite Hy, !orb_false_r.
Qed.

(** X3.  Toggling twice an overlay that was not selected gives back the
    selection as it was, order and repetitions included. *)
Theorem handleOverlayToggle_twice (props : Panel.Props) (x : number) :
  x <> NaN -> Panel.ids_include (Panel.selectedOverlayIds props) x = false ->
  Panel.handleOverlayToggle (with_selection props (Panel.handleOverlayToggle props x)) x =
  Panel.selectedOverlayIds props.
Proof.
  intros Hnan Hx. unfold Panel.handleOverlayToggle at 2. rewrite Hx.
  unfold Panel.handleOverlayToggle. cbn [with_selection Panel.selectedOverlayIds].
  rewrite ids_include_app, Hx. cbn. rewrite same_value_zero_refl. cbn.
  rewrite List.filter_app. cbn. rewrite (num_eqb_refl x Hnan). cbn.
  rewrite List.app_nil_r. apply filter_all.
  intros i Hi. rewrite ids_include_false in Hx. specialize (Hx i Hi).
  rewrite same_value_zero_num_eqb, num_eqb_sym in Hx by done. by rewrite Hx.
Qed.

End Toggle.

(** ** The panel: the number of locations selected *)

Lemma foldl_sum (counts : list nat) (n : nat) :
  foldl (fun sum c => (sum + c)%nat) n counts = (n + sum_list counts)%nat.
Proof.
  revert n. induction counts as [|c counts IH]; intros n; cbn; [lia|]. rewrite IH. lia.
Qed.

Lemma foldl_fmap {A B C : Type} (f : C -> B -> C) (g : A -> B) (l : list A) (c : C) :
  foldl (fun acc x => f acc (g x)) c l = foldl f c (g <$> l).
Proof. revert c. induction l as [|x l IH]; intros c; cbn; [done|]. apply IH. Qed.

Lemma containments_cons (o : Panel.MapOverlay) (overlays : list Panel.MapOverlay)
    (locations : list Panel.Location) :
  length (containments (o :: overlays) locations) =
  (count_in (Panel.bounds o) locations + length (containments overlays locations))%nat.
Proof.
  unfold containments, count_in, contained_in. cbn [list_prod].
  rewrite filter_app, List.length_app. f_equal.
  induction locations as [|l locations IH]; [done|].
  cbn [List.map]. rewrite !filter_cons. cbn [fst snd].
  destruct (decide (Contains (Panel.coordinates l) (Panel.bounds o))); cbn [length]; by rewrite IH.
Qed.

Lemma containments_sum (overlays : list Panel.MapOverlay) (locations : list Panel.Location) :
  length (containments overlays locations) =
  sum_list ((fun o => count_in (Panel.bounds o) locations) <$> overlays).
Proof.
  induction overlays as [|o overlays IH]; [done|].
  rewrite containments_cons, IH. done.
Qed.

Section Total.
Context `{Platform}.

Lemma totalLocationsInSelected_sum (props : Panel.Props) :
  Panel.totalLocationsInSelected props =
  sum_list ((fun o => count_in (Panel.bounds o) (Panel.allLocations props)) <$>
            filter (is_selected props) (Panel.allOverlays props)).
Proof.
  unfold Panel.totalLocationsInSelected, Panel.overlaysWithStats.
  rewrite (foldl_fmap (fun sum c => (sum + c)%nat) Panel.locationCount), foldl_sum.
  cbn [Nat.add]. f_equal.
  induction (Panel.allOverlays props) as [|o overlays IH]; [done|].
  cbn [List.map List.filter Panel.overlay]. rewrite filter_cons.
  destruct (decide (is_selected props o)) as [Hsel|Hsel]; unfold is_selected in Hsel.
  - rewrite Hsel. cbn [fmap list_fmap Panel.locationCount].
    rewrite filter_isLocationInOverlay. f_equal. apply IH.
  - apply not_true_is_false in Hsel. rewrite Hsel. apply IH.
Qed.

(** X4.  The number of locations the summary shows is the number of pairs of
    an overlay whose id is selected and a location within its bounds: a
    location within two selected overlays counts twice.  It is at most the
    number of overlays times the number of locations, and it depends on
    which ids the selection holds, not on their order or repetition. *)
Theorem totalLocationsInSelected_pairs (props : Panel.Props) :
  Panel.totalLocationsInSelected props =
    length (containments (filter (is_selected props) (Panel.allOverlays props))
              (Panel.allLocations props)) /\
  (Panel.totalLocationsInSelected props <=
     length (Panel.allOverlays props) * length (Panel.allLocations props))%nat /\
  (forall props', Panel.allOverlays props' = Panel.allOverlays props ->
     Panel.allLocations props' = Panel.allLocations props ->
     (forall x, Panel.ids_include (Panel.selectedOverlayIds props') x =
                Panel.ids_include (Panel.selectedOverlayIds props) x) ->
     Panel.totalLocationsInSelected props' = Panel.totalLocationsInSelected props).
Proof.
  assert (Hpairs : Panel.totalLocationsInSelected props =
    length (containments (filter (is_selected props) (Panel.allOverlays props))
              (Panel.allLocations props))).
  { by rewrite totalLocationsInSelected_sum, containments_sum. }
  split_and!; [done|..].
  - rewrite Hpairs. unfold containments.
    etrans; [apply length_filter|]. rewrite length_prod.
    apply Nat.mul_le_mono_r, length_filter.
  - intros props' Ho Hl Hsel. rewrite !totalLocationsInSelected_sum, Ho, Hl.
    do 2 f_equal. apply list_filter_iff. intros o. unfold is_selected. by rewrite Hsel.
Qed.

(** X5.  When not as many overlays are selected as there are, Select All
    selects every overlay: the summary then counts every pair of an overlay
    and a location within it, and a second Select All clears the
    selection. *)
Theorem handleSelectAll_then (props : Panel.Props) (st : Panel.State) :
  length (Panel.selectedOverlayIds props) <> length (Panel.allOverlays props) ->
  let all := with_selection props (Panel.handleSelectAll props st) in
  Panel.totalLocationsInSelected all =
    length (containments (Panel.allOverlays props) (Panel.allLocations props)) /\
  Panel.handleSelectAll all st = [].
Proof.
  intros Hne all.
  assert (Hall : Panel.selectedOverlayIds all = Panel.id <$> Panel.allOverlays props).
  { unfold all, Panel.handleSelectAll. cbn [with_selection Panel.selectedOverlayIds].
    rewrite length_overlaysWithStats, ids_overlaysWithStats.
    apply Nat.eqb_neq in Hne. by rewrite Hne. }
  split.
  - rewrite totalLocationsInSelected_sum, containments_sum.
    change (Panel.allOverlays all) with (Panel.allOverlays props).
    change (Panel.allLocations all) with (Panel.allLocations props).
    do 2 f_equal. apply filter_Forall_all, Forall_forall. intros o Ho.
    unfold is_selected. rewrite Hall. apply ids_include_true.
    exists (Panel.id o). split; [by apply list_elem_of_fmap_2|apply same_value_zero_refl].
  - unfold Panel.handleSelectAll. rewrite length_overlaysWithStats, Hall.
    change (Panel.allOverlays all) with (Panel.allOverlays props).
    by rewrite length_fmap, Nat.eqb_refl.
Qed.

(** X6.  Clear empties the selection and the search query and leaves the
    panel open or closed as it was: the list then shows every overlay again,
    and the summary counts no location. *)
Theorem handleClearAll_resets (props : Panel.Props) (st : Panel.State) :
  let cleared := Panel.handleClearAll props st in
  cleared.1 = [] /\ Panel.searchQuery cleared.2 = EmptyString /\
  Panel.isExpanded cleared.2 = Panel.isExpanded st /\
  Panel.candidates (with_selection props cleared.1) cleared.2 =
    Panel.overlaysWithStats (Panel.allOverlays props) (Panel.allLocations props) /\
  Panel.totalLocationsInSelected (with_selection props cleared.1) = 0%nat.
Proof.
  intros cleared. split_and!; try done.
  rewrite totalLocationsInSelected_sum.
  cbn [cleared Panel.handleClearAll fst with_selection Panel.allOverlays].
  induction (Panel.allOverlays props) as [|o overlays IH]; [done|].
  rewrite filter_cons, decide_False; [done|]. unfold is_selected. done.
Qed.

(** X7.  A query that is empty or white space only lists every overlay.  Any
    other query lists, in the order of the overlays, exactly those whose
    name in lower case contains the query in lower case, as it was typed:
    the white space around it is part of what is looked for. *)
Theorem searchResults_matches (stats : list Panel.OverlayWithStats) (query : string) :
  let found := Panel.searchResults stats query in
  (whitespace query -> found = stats) /\
  (~ whitespace query ->
     sublist found stats /\
     forall o, o ∈ found <->
       o ∈ stats /\
       substring (toLowerCase query) (toLowerCase (Panel.name (Panel.overlay o)))).
Proof.
  intros found. unfold found, Panel.searchResults. split.
  - intros Hq. apply trim_whitespace in Hq. by rewrite Hq.
  - intros Hq. rewrite <- trim_whitespace in Hq.
    assert (truthy (VStr (trim query)) = true) as ->.
    { cbn. by rewrite bool_decide_eq_false_2. }
    cbn [negb]. split; [apply sublist_List_filter|].
    intros o. rewrite list_elem_of_In, filter_In, <- list_elem_of_In.
    by rewrite includes_substring_iff.
Qed.

End Total.

(** ** The route: listing *)

Lemma strict_equals_num_true (v : value) (n : number) :
  strict_equals_num v n = true <-> exists m, v = VNum m /\ num_eqb m n = true.
Proof.
  split; [destruct v; try done; eauto|]. by intros (m & -> & ?).
Qed.

Lemma speciesId_of_species (n : number) (l : object) :
  strict_equals_num (Route.speciesId_of l) n = true <-> of_species n l.
Proof.
  unfold of_species, Route.speciesId_of. rewrite strict_equals_num_true.
  split; intros (m & Hm & Hn); exists m; (split; [|done]).
  - destruct (l !! "speciesId") as [v|]; cbn in Hm; by subst.
  - by rewrite Hm.
Qed.

Section Listing.
Context `{Platform}.

(** X8.  List leaves the store as it is and always answers 200 with a list
    of records in the order of the store: all of them when there is no
    [speciesId] parameter or an empty one, otherwise those whose [speciesId]
    is a Number equal to what [parseInt] reads of the parameter.  A parameter
    of which [parseInt] reads nothing gives the empty list, not an error. *)
Theorem GET_filters (locations : list object) (speciesId : option string) :
  let answer := Route.GET locations speciesId in
  answer.2 = locations /\ Route.status answer.1 = 200 /\ Route.success answer.1 = true /\
  exists listed,
    Route.data answer.1 = VArr (VObj <$> listed) /\ sublist listed locations /\
    (speciesId = None \/ speciesId = Some EmptyString -> listed = locations) /\
    (forall s, speciesId = Some s -> s <> EmptyString ->
       (forall l, l ∈ listed <-> l ∈ locations /\ of_species (parseInt_string s) l) /\
       (parseInt_string s = NaN -> listed = [])).
Proof.
  intros answer. split_and!; try done.
  destruct speciesId as [s|]; [destruct (decide (s = EmptyString)) as [->|Hs]|].
  - exists locations. split_and!; try done. intros s [= <-]. done.
  - exists (List.filter
              (fun l => strict_equals_num (Route.speciesId_of l) (parseInt_string s))
              locations).
    split_and!.
    + unfold answer, Route.GET. cbn [truthy].
      by rewrite bool_decide_eq_false_2.
    + apply sublist_List_filter.
    + intros [?|[= ->]]; done.
    + intros ? [= <-] _. split.
      * intros l. by rewrite list_elem_of_In, filter_In, <- list_elem_of_In, speciesId_of_species.
      * intros ->. induction locations as [|l locations IH]; [done|].
        cbn [List.filter]. unfold strict_equals_num at 1.
        destruct (Route.speciesId_of l); try done. by rewrite num_eqb_NaN.
  - exists locations. split_and!; try done.
Qed.

End Listing.

(** ** The route: refusals *)

Section Answers.
Context `{Platform}.

(** X9.  A request that is refused changes nothing: whenever a handler
    answers [success: false], the store is as it was and [data] is [null].
    List is never refused; Create is refused with 400 or 500, never 404;
    Update and Delete with 400, 404 or 500.  An answer with [success: true]
    has status 201 from Create and 200 from the other handlers. *)
Theorem refused_request_changes_nothing (locations : list object) (q : request) :
  let answer := handle locations q in
  (Route.success answer.1 = false ->
     answer.2 = locations /\ Route.data answer.1 = VNull /\
     match q with
     | List_ _ => False
     | Create _ => Route.status answer.1 = 400 \/ Route.status answer.1 = 500
     | Update _ | Delete _ =>
         Route.status answer.1 = 400 \/ Route.status answer.1 = 404 \/
         Route.status answer.1 = 500
     end) /\
  (Route.success answer.1 = true ->
     Route.status answer.1 = match q with Create _ => 201 | _ => 200 end).
Proof.
  intros answer. unfold answer.
  destruct q as [s|body|body|id]; cbn [handle].
  - done.
  - unfold Route.POST, Route.POST_try.
    repeat handler_step; cbn; split; intros; try done; auto.
  - unfold Route.PUT, Route.PUT_try.
    repeat handler_step; cbn; split; intros; try done; auto.
  - unfold Route.DELETE, Route.DELETE_try.
    repeat handler_step; cbn; split; intros; try done; auto.
Qed.

(** X10.  A body that is valid JSON but no object: [null] makes Create and
    Update answer 500, each with its own message; a boolean, a number, a
    string or an array makes Create answer 400 MissingField and Update 400
    MissingId.  The store is as it was in every case. *)
Theorem body_not_an_object (locations : list object) (body : value) :
  (forall m, body <> VObj m) ->
  (body = VNull ->
     Route.POST locations (Ok body) =
       (Route.Unexpected "Failed to create location", locations) /\
     Route.PUT locations (Ok body) =
       (Route.Unexpected "Failed to update location", locations)) /\
  (body <> VNull -> body <> VUndefined ->
     Route.POST locations (Ok body) = (Route.MissingField, locations) /\
     Route.PUT locations (Ok body) = (Route.MissingId, locations)).
Proof.
  intros Hobj. split.
  - by intros ->.
  - intros Hnull Hundef. destruct body as [| | | | | |m]; try done. by destruct (Hobj m).
Qed.

Lemma raises_unprintable (locations : list object) (p : object) :
  safe_ids locations ->
  raises locations p <->
  (forall s, field p "locationName" <> VStr s) \/ exists v, v ∈ converted p /\ unprintable v.
Proof.
  intros Hsafe. unfold raises, converted.
  rewrite (Math_max_ids _ Hsafe), !NewDate_Throw, parseInt_Throw, !parseFloat_Throw,
    call_trim_Throw.
  split.
  - intros [?|[?|[?|[?|[?|[?|[?|?]]]]]]]; try done; try (by left);
      right; eexists; (split; [|done]); set_solver.
  - intros [?|(v & Hv & Hu)]; [tauto|].
    repeat (apply elem_of_cons in Hv as [->|Hv]; [tauto|]).
    by apply elem_of_nil in Hv.
Qed.

(** X11.  Over a store whose ids are numbers, Create answers 500 to a
    payload exactly when the payload passes the four checks and either its
    [locationName] is not a string ([trim] is then no function) or one of the
    values Create converts (the three dates, [speciesId], the two
    coordinates) has no string: it is, or as an array holds, an object with
    a property [toString] of its own.  The store is then as it was. *)
Theorem POST_fails_unexpectedly (locations : list object) (p : object) :
  safe_ids locations ->
  Route.POST locations (Ok (VObj p)) =
    (Route.Unexpected "Failed to create location", locations) <->
  reaches_date_check p /\ ~ invalid_date_order p /\
  ((forall s, field p "locationName" <> VStr s) \/
   exists v, v ∈ converted p /\ unprintable v).
Proof.
  intros Hsafe. rewrite <- (raises_unprintable _ _ Hsafe).
  pose proof (POST_cases locations p) as Hc.
  rewrite (surjective_pairing (Route.POST locations (Ok (VObj p)))).
  destruct Hc as [Hmf|Hmf Hic|Hmf Hic Hibp|Hreach Hido|Hreach Hido Hraise
                  |highest speciesId raw c0 c1 lon lat ts tp te Hreach Hido
                     (Hts & Htp & Hte) Hmax Hsid Hraw Hcoords Hlon Hlat];
    try (split; [discriminate|intros ((? & ? & ?) & ? & ?); tauto]).
  - done.
  - split; [discriminate|]. intros (_ & _ & Hraise). exfalso.
    unfold raises in Hraise. rewrite Hts, Htp, Hte, Hmax, Hsid, Hraw, Hcoords in Hraise.
    change (index (VArr [c0; c1]) 0) with c0 in Hraise.
    change (index (VArr [c0; c1]) 1) with c1 in Hraise.
    rewrite Hlon, Hlat in Hraise. cbn [call_trim] in Hraise.
    destruct Hraise as [?|[?|[?|[?|[?|[?|[?|?]]]]]]]; discriminate.
Qed.

(** X12.  A peak that does not parse as a date passes the check of the order
    of the dates, whatever the start and the end are: both comparisons with
    an invalid date are false.  Such a payload is accepted unless a
    conversion throws. *)
Theorem POST_unparsable_dates (locations : list object) (p : object) (ts te : number) :
  reaches_date_check p ->
  NewDate (prop (field p "bloomingPeriod") "start") = Ok ts ->
  NewDate (prop (field p "bloomingPeriod") "peak") = Ok NaN ->
  NewDate (prop (field p "bloomingPeriod") "end") = Ok te ->
  ~ invalid_date_order p /\
  (Route.POST locations (Ok (VObj p))).1 <> Route.InvalidDateOrder /\
  (~ raises locations p -> Route.success (Route.POST locations (Ok (VObj p))).1 = true).
Proof.
  intros Hreach Hts Htp Hte.
  assert (Hido : ~ invalid_date_order p).
  { intros (ts' & tp' & te' & (E1 & E2 & E3) & Hless).
    assert (tp' = NaN) as -> by congruence.
    destruct (num_less_NaN ts'), (num_less_NaN te'). tauto. }
  split_and!; [done| |].
  - pose proof (POST_cases locations p) as Hc. destruct Hc; try done.
  - intros Hraise. by apply POST_accepts.
Qed.

End Answers.

(** ** The route: the ids along a run *)

Section Counting.
Context `{Platform}.

(** X13.  After any [k] requests to the seed store, no two records of the
    store have the same id, and every id is an integer from 1 to [3 + k]. *)
Theorem run_keeps_ids_unique (qs : list request) :
  3 + Z.of_nat (length qs) <= MAX_SAFE_INTEGER ->
  let store := (run Route.seed qs).2 in
  NoDup (Route.id_of <$> store) /\
  Forall (fun l => exists z, l !! "id" = Some (VNum (num_of_Z z)) /\
                             1 <= z <= 3 + Z.of_nat (length qs)) store.
Proof.
  intros Hk store.
  destruct (run_ids_within 3 Route.seed qs seed_ids_within Hk) as (Hsafe & Hdup & Hmax).
  fold store in Hsafe, Hdup, Hmax. split; [done|].
  apply Forall_forall. intros l Hl.
  pose proof Hsafe as Hsafe'. unfold safe_ids in Hsafe'. rewrite Forall_forall in Hsafe'.
  destruct (Hsafe' l Hl) as (z & Hz & Hrange). exists z. split; [done|].
  pose proof (max_id_bound store l z Hl (int_id_num_of_Z l z Hz)). lia.
Qed.

(** X14.  While nothing is deleted, the Creates that succeed are numbered
    one after the other: in a run without Delete over a store whose greatest
    id is [m], they answer with the ids [m + 1], [m + 2], ... in the order of
    the requests, whatever Lists, Updates and refused Creates come in
    between. *)
Theorem creates_count_up (locations : list object) (qs : list request) :
  safe_ids locations -> Forall (fun q => ~ is_delete q) qs ->
  max_id locations + Z.of_nat (length qs) <= MAX_SAFE_INTEGER ->
  let created := new_ids qs (run locations qs).1 in
  created =
    (fun z => VNum (num_of_Z z)) <$> seqZ (max_id locations + 1) (Z.of_nat (length created)).
Proof.
  intros Hsafe Hqs. revert locations Hsafe.
  induction Hqs as [|q qs Hq _ IH]; intros locations Hsafe Hmax created; [done|].
  unfold created. rewrite run_cons_answers. cbn [length] in Hmax.
  pose proof (max_id_nonneg locations) as H0.
  destruct q as [s|body|body|id]; cbn [new_ids handle]; [| | |by destruct Hq].
  - apply IH; [done|]. cbn [Route.GET snd]. lia.
  - destruct (POST_id locations body Hsafe) as [[-> ->]|[-> (l & -> & -> & Hl)]].
    + apply IH; [done|lia].
    + assert (Hsafe' : safe_ids (locations ++ [l])).
      { apply Forall_app. split; [done|]. apply Forall_singleton.
        exists (max_id locations + 1). split; [done|lia]. }
      assert (Hmax' : max_id (locations ++ [l]) = max_id locations + 1).
      { apply max_id_app; [done|lia]. }
      specialize (IH (locations ++ [l]) Hsafe'). rewrite Hmax' in IH.
      cbn [app length prop]. unfold field. rewrite Hl. cbn [default from_option Datatypes.id].
      rewrite Nat2Z.inj_succ, seqZ_cons by lia. rewrite fmap_cons. f_equal.
      rewrite Z.pred_succ.
      replace (Z.succ (max_id locations + 1)) with (max_id locations + 1 + 1) by lia.
      apply IH. lia.
  - destruct (PUT_ids locations body) as [Hids Hsafe'].
    specialize (Hsafe' Hsafe).
    rewrite <- (max_id_id_of locations _ Hsafe Hsafe' Hids).
    apply IH; [done|]. rewrite (max_id_id_of locations _ Hsafe Hsafe' Hids). lia.
Qed.

End Counting.

(** ** The route: one request after another *)

Lemma list_find_last {A : Type} (P : A -> Prop) `{!forall x, Decision (P x)}
    (l : list A) (x : A) :
  list_find P l = None -> P x -> list_find P (l ++ [x]) = Some (length l, x).
Proof.
  intros Hl Hx. rewrite (list_find_app_r _ _ _ Hl). cbn.
  by rewrite decide_True.
Qed.

Lemma delete_last {A : Type} (l : list A) (x : A) : delete (length l) (l ++ [x]) = l.
Proof. induction l as [|y l IH]; [done|]. cbn. f_equal. apply IH. Qed.

Lemma list_find_replace {A : Type} (P : A -> Prop) `{!forall x, Decision (P x)}
    (l : list A) (i : nat) (x y : A) :
  list_find P l = Some (i, x) -> P y -> list_find P (<[i := y]> l) = Some (i, y).
Proof.
  intros (Hi & Hx & Hbefore)%list_find_Some Hy. apply list_find_Some. split_and!.
  - apply list_lookup_insert_eq. by eapply lookup_lt_Some.
  - done.
  - intros j z Hj Hlt. rewrite list_lookup_insert_ne in Hj by lia. by eapply Hbefore.
Qed.

Lemma list_delete_insert {A : Type} (l : list A) (i : nat) (x : A) :
  delete i (<[i := x]> l) = delete i l.
Proof.
  revert i. induction l as [|y l IH]; intros [|i]; try done. cbn. f_equal. apply IH.
Qed.

Section Round_trips.
Context `{Platform}.

Lemma PUT_find (locations : list object) (body : object) (idv : value) (n : number) :
  body !! "id" = Some idv -> truthy idv = true -> parseInt idv = Ok n ->
  Route.PUT locations (Ok (VObj body)) =
  match list_find (has_id n) locations with
  | None => (Route.NotFound, locations)
  | Some (i, old) =>
      (Route.Success (VObj (delete "id" body ∪ old)) "Location updated successfully",
       <[i := delete "id" body ∪ old]> locations)
  end.
Proof.
  intros Hid Htruthy Hn. unfold Route.PUT, Route.PUT_try. cbn [bind get].
  rewrite Hid. cbn [default from_option Datatypes.id]. rewrite Htruthy. cbn [negb].
  rewrite (findIndex_id _ _ _ Hn). cbn [bind].
  destruct (list_find (has_id n) locations) as [[i old]|] eqn:E; [|done].
  apply list_find_Some in E as (Hi & _ & _). cbn [fmap option_fmap option_map fst].
  rewrite Hi. cbn [default from_option Datatypes.id].
  rewrite list_lookup_insert_eq by (by eapply lookup_lt_Some). done.
Qed.

(** [PUT] of an object, by what its [id] is. *)
Lemma PUT_object (locations : list object) (body : object) :
  Route.PUT locations (Ok (VObj body)) =
  if negb (truthy (field body "id")) then (Route.MissingId, locations) else
  match parseInt (field body "id") with
  | Throw =>
      match locations with
      | [] => (Route.NotFound, locations)
      | _ :: _ => (Route.Unexpected "Failed to update location", locations)
      end
  | Ok n =>
      match list_find (has_id n) locations with
      | None => (Route.NotFound, locations)
      | Some (i, old) =>
          (Route.Success (VObj (delete "id" body ∪ old)) "Location updated successfully",
           <[i := delete "id" body ∪ old]> locations)
      end
  end.
Proof.
  unfold field. destruct (body !! "id") as [idv|] eqn:Hid; cycle 1.
  { unfold Route.PUT, Route.PUT_try. cbn [bind get]. by rewrite Hid. }
  cbn [default from_option Datatypes.id].
  destruct (truthy idv) eqn:Htruthy; cycle 1.
  { unfold Route.PUT, Route.PUT_try. cbn [bind get]. rewrite Hid.
    cbn [default from_option Datatypes.id]. by rewrite Htruthy. }
  cbn [negb]. destruct (parseInt idv) as [n|] eqn:Hn.
  - apply (PUT_find _ _ _ _ Hid Htruthy Hn).
  - unfold Route.PUT, Route.PUT_try. cbn [bind get]. rewrite Hid.
    cbn [default from_option Datatypes.id]. rewrite Htruthy. cbn [negb].
    destruct locations as [|l locations]; [done|]. cbn [findIndex]. by rewrite Hn.
Qed.

(** X15.  The record that Create stores is listed after it: last of all
    when List has no filter, and under a filter of species after the records
    that were listed before, if its [speciesId] (what [parseInt] read of the
    payload's) is the number of the filter; otherwise the list is as it
    was. *)
Theorem POST_then_GET (locations : list object) (p : object)
    (r : Route.Response) (locations' : list object) :
  Route.POST locations (Ok (VObj p)) = (r, locations') -> Route.success r = true ->
  exists (created : object) (speciesId : number),
    Route.data r = VObj created /\
    created !! "speciesId" = Some (VNum speciesId) /\
    parseInt (field p "speciesId") = Ok speciesId /\
    Route.data (Route.GET locations' None).1 = VArr (VObj <$> locations ++ [created]) /\
    forall s listed, s <> EmptyString ->
      Route.data (Route.GET locations (Some s)).1 = VArr (VObj <$> listed) ->
      Route.data (Route.GET locations' (Some s)).1 =
        VArr (VObj <$> listed ++
                if num_eqb speciesId (parseInt_string s) then [created] else []).
Proof.
  intros Hpost Hsuccess.
  pose proof (POST_cases locations p) as Hc. rewrite Hpost in Hc. cbn [fst snd] in Hc.
  destruct Hc as [| | | | |highest speciesId raw c0 c1 lon lat ts tp te
                           _ _ _ _ Hsid _ _ _ _]; try discriminate.
  exists newLocation, speciesId. split_and!; try done.
  intros s listed Hs. unfold Route.GET. cbn [truthy fst Route.data Route.Success].
  rewrite bool_decide_eq_false_2 by done. cbn [negb].
  intros [= Hlisted].
  assert (Hinj : Inj (=) (=) VObj) by (by intros ? ? [= ->]).
  apply (inj (fmap VObj)) in Hlisted as <-.
  rewrite List.filter_app. cbn [List.filter].
  replace (Route.speciesId_of newLocation) with (VNum speciesId) by done.
  cbn [strict_equals_num]. by destruct (num_eqb speciesId (parseInt_string s)).
Qed.

(** X16.  Create does not test that [speciesId] is a number: when it accepts
    a payload of whose [speciesId] [parseInt] reads nothing, the record has
    [NaN] for a species, and List finds it under no filter of species. *)
Theorem POST_unreadable_species (locations : list object) (p : object)
    (r : Route.Response) (locations' : list object) :
  Route.POST locations (Ok (VObj p)) = (r, locations') -> Route.success r = true ->
  parseInt (field p "speciesId") = Ok NaN ->
  prop (Route.data r) "speciesId" = VNum NaN /\
  forall s, s <> EmptyString ->
    Route.data (Route.GET locations' (Some s)).1 = Route.data (Route.GET locations (Some s)).1.
Proof.
  intros Hpost Hsuccess Hnan.
  pose proof (POST_cases locations p) as Hc. rewrite Hpost in Hc. cbn [fst snd] in Hc.
  destruct Hc as [| | | | |highest speciesId raw c0 c1 lon lat ts tp te
                           _ _ _ _ Hsid _ _ _ _]; try discriminate.
  rewrite Hnan in Hsid. injection Hsid as <-. split; [done|].
  intros s Hs. unfold Route.GET. cbn [truthy fst Route.data Route.Success].
  rewrite bool_decide_eq_false_2 by done. cbn [negb].
  rewrite List.filter_app. cbn [List.filter].
  replace (Route.speciesId_of newLocation) with (VNum NaN) by done.
  cbn [strict_equals_num num_eqb]. by rewrite List.app_nil_r.
Qed.

(** X17.  Deleting the record that Create has just stored gives back the
    record and the store as it was before the Create: for a store whose ids
    are numbers, and an [id] parameter of which [parseInt] reads the new
    id. *)
Theorem POST_then_DELETE (locations : list object) (p : object)
    (r : Route.Response) (locations' : list object) (id : string) :
  safe_ids locations ->
  Route.POST locations (Ok (VObj p)) = (r, locations') -> Route.success r = true ->
  parseInt_string id = num_of_Z (max_id locations + 1) ->
  exists created : object,
    Route.data r = VObj created /\ locations' = locations ++ [created] /\
    let answer := Route.DELETE locations' (Some id) in
    Route.status answer.1 = 200 /\ Route.success answer.1 = true /\
    Route.data answer.1 = VObj created /\
    Route.message answer.1 = "Location deleted successfully" /\
    answer.2 = locations.
Proof.
  intros Hsafe Hpost Hsuccess Hid.
  pose proof (POST_cases locations p) as Hc. rewrite Hpost in Hc. cbn [fst snd] in Hc.
  destruct Hc as [| | | | |highest speciesId raw c0 c1 lon lat ts tp te
                           _ _ _ Hmax _ _ _ _ _]; try discriminate.
  rewrite (Math_max_ids _ Hsafe) in Hmax. injection Hmax as <-.
  assert (Hne : id <> EmptyString) by (intros ->; discriminate).
  exists newLocation. split; [done|]. split; [done|].
  rewrite (DELETE_find _ _ Hne), Hid.
  rewrite (list_find_last (has_id (num_of_Z (max_id locations + 1))) locations newLocation).
  - cbn [fst snd]. by rewrite delete_last.
  - apply find_no_record, no_record_above; [done|lia].
  - unfold has_id, Route.id_of, newLocation, Route.location.
    rewrite lookup_insert_eq. cbn [default from_option Datatypes.id strict_equals_num].
    rewrite num_add_Z, num_eqb_Z. by apply bool_decide_eq_true_2.
Qed.

(** X18.  In a store whose ids are distinct numbers, a Delete that succeeds
    takes exactly one record out, and the same Delete again answers
    NotFound. *)
Theorem DELETE_twice (locations : list object) (id : string) :
  safe_ids locations -> NoDup (Route.id_of <$> locations) ->
  let first := Route.DELETE locations (Some id) in
  Route.success first.1 = true ->
  Route.DELETE first.2 (Some id) = (Route.NotFound, first.2) /\
  length locations = S (length first.2).
Proof.
  intros Hsafe Hdup first Hsuccess.
  assert (Hne : id <> EmptyString) by (intros ->; discriminate).
  subst first. rewrite (DELETE_find locations id Hne) in Hsuccess |- *.
  destruct (list_find (has_id (parseInt_string id)) locations) as [[i l]|] eqn:E;
    [|discriminate].
  cbn [snd]. apply list_find_Some in E as (Hi & Hl & _).
  split.
  - rewrite (DELETE_find _ _ Hne).
    assert (list_find (has_id (parseInt_string id)) (delete i locations) = None) as ->; [|done].
    apply find_no_record. intros l' Hl' Hid'.
    apply list_elem_of_lookup in Hl' as (j & Hj).
    destruct (decide (j < i)%nat) as [Hlt|Hge].
    + rewrite list_lookup_delete_lt in Hj by done.
      pose proof (record_with_id_unique _ _ _ _ _ _ Hsafe Hdup Hi Hl Hj Hid'). lia.
    + rewrite list_lookup_delete_ge in Hj by lia.
      pose proof (record_with_id_unique _ _ _ _ _ _ Hsafe Hdup Hi Hl Hj Hid'). lia.
  - rewrite length_delete by (by eexists). apply lookup_lt_Some in Hi. lia.
Qed.

(** X19.  Delete reads its [id] parameter with [parseInt]: two parameters of
    which [parseInt] reads the same number (white space and a sign before
    the digits, anything after them) have the same effect and the same
    answer, and a parameter of which it reads no number is answered
    NotFound. *)
Theorem DELETE_reads_leading_integer (locations : list object) (id : string) :
  id <> EmptyString ->
  (forall id', id' <> EmptyString -> parseInt_string id' = parseInt_string id ->
     Route.DELETE locations (Some id') = Route.DELETE locations (Some id)) /\
  (parseInt_string id = NaN -> Route.DELETE locations (Some id) = (Route.NotFound, locations)).
Proof.
  intros Hid. split.
  - intros id' Hid' Heq. by rewrite !DELETE_find, Heq.
  - intros Hnan. rewrite DELETE_find, Hnan by done.
    assert (list_find (has_id NaN) locations = None) as ->; [|done].
    apply find_no_record. intros l _. unfold has_id, strict_equals_num.
    destruct (Route.id_of l); try done. by rewrite num_eqb_NaN.
Qed.

(** X20.  An Update made twice is an Update made once, answer and store.
    Two Updates of the same [id], one after the other, are the Update whose
    body has the properties of both, those of the second taking precedence:
    the second Update answers, and leaves the store, as that one would. *)
Theorem PUT_composes (locations : list object) :
  (forall body, Route.PUT (Route.PUT locations body).2 body = Route.PUT locations body) /\
  (forall first second : object,
     first !! "id" = second !! "id" ->
     Route.PUT (Route.PUT locations (Ok (VObj first))).2 (Ok (VObj second)) =
     Route.PUT locations (Ok (VObj (second ∪ first)))).
Proof.
  assert (Hcomposes : forall first second : object,
    first !! "id" = second !! "id" ->
    Route.PUT (Route.PUT locations (Ok (VObj first))).2 (Ok (VObj second)) =
    Route.PUT locations (Ok (VObj (second ∪ first)))).
  { intros first second Hid.
    assert (Hunion : field (second ∪ first) "id" = field second "id").
    { unfold field. rewrite lookup_union, <- Hid. by destruct (first !! "id"). }
    assert (Hfirst : field first "id" = field second "id") by (unfold field; by rewrite Hid).
    rewrite (PUT_object locations first), (PUT_object locations (second ∪ first)).
    rewrite Hunion, Hfirst.
    destruct (truthy (field second "id")) eqn:Htruthy; cbn [negb snd];
      [|by rewrite PUT_object, Htruthy].
    destruct (parseInt (field second "id")) as [n|] eqn:Hn; cycle 1.
    { destruct locations; cbn [snd]; by rewrite PUT_object, Htruthy, Hn. }
    destruct (list_find (has_id n) locations) as [[i old]|] eqn:E; cbn [snd];
      rewrite PUT_object, Htruthy, Hn; cbn [negb]; [|by rewrite E].
    assert (Hmerged : has_id n (delete "id" first ∪ old)).
    { apply list_find_Some in E as (_ & Hold & _). unfold has_id, Route.id_of in *.
      by rewrite (lookup_union_r (delete "id" first) old "id") by apply lookup_delete_eq. }
    rewrite (list_find_replace _ _ _ _ _ E Hmerged).
    rewrite list_insert_insert_eq.
    by rewrite (assoc_L (∪)), <- delete_union. }
  split; [|done].
  intros [[| | | | | |body]|]; try done.
  rewrite (Hcomposes body body eq_refl). by rewrite (idemp_L (∪)).
Qed.

(** X21.  An Update cannot hide a record from Delete: deleting a record
    after it was updated returns the record as updated, and leaves the store
    as deleting it before the Update would have. *)
Theorem PUT_then_DELETE (locations : list object) (body : object) (id : string) :
  id <> EmptyString -> parseInt (field body "id") = Ok (parseInt_string id) ->
  let updated := Route.PUT locations (Ok (VObj body)) in
  Route.success updated.1 = true ->
  exists i old,
    record_with_id (parseInt_string id) locations i old /\
    let merged : object := delete "id" body ∪ old in
    let answer := Route.DELETE updated.2 (Some id) in
    Route.data updated.1 = VObj merged /\
    Route.status answer.1 = 200 /\ Route.success answer.1 = true /\
    Route.data answer.1 = VObj merged /\
    Route.message answer.1 = "Location deleted successfully" /\
    answer.2 = delete i locations /\
    answer.2 = (Route.DELETE locations (Some id)).2.
Proof.
  intros Hid Hn updated Hsuccess. subst updated.
  rewrite (DELETE_find locations id Hid).
  rewrite (PUT_object locations body), Hn in Hsuccess |- *.
  destruct (truthy (field body "id")); [|discriminate]. cbn [negb] in *.
  destruct (list_find (has_id (parseInt_string id)) locations) as [[i old]|] eqn:E;
    [|discriminate].
  exists i, old. split; [by apply find_record_with_id|].
  cbn [fst snd Route.data Route.Success].
  assert (Hmerged : has_id (parseInt_string id) (delete "id" body ∪ old)).
  { apply list_find_Some in E as (_ & Hold & _). unfold has_id, Route.id_of in *.
    by rewrite (lookup_union_r (delete "id" body) old "id") by apply lookup_delete_eq. }
  rewrite (DELETE_find _ id Hid), (list_find_replace _ _ _ _ _ E Hmerged).
  cbn [fst snd Route.data Route.Success Route.status Route.success Route.message].
  by rewrite list_delete_insert.
Qed.

End Round_trips.

(** ** The service: creating a location *)

Section Mock_cases.
Context `{Platform}.

Lemma mockCreateLocation_cases (draw : Z) (p : object) :
  mock_outcome draw p (Service.mockCreateLocation draw (VObj p)).
Proof.
  unfold Service.mockCreateLocation, Service.mockCreateLocation_try.
  cbn [bind orr falsy get].
  fold (field p "speciesId") (field p "locationName") (field p "coordinates")
    (field p "bloomingPeriod").
  destruct (truthy (field p "speciesId")) eqn:Hs; cbn [negb bind];
    [|apply mock_missing_field; unfold missing_field, absent_or_falsy; tauto].
  destruct (truthy (field p "locationName")) eqn:Hn; cbn [negb bind];
    [|apply mock_missing_field; unfold missing_field, absent_or_falsy; tauto].
  destruct (truthy (field p "coordinates")) eqn:Hc; cbn [negb bind];
    [|apply mock_missing_field; unfold missing_field, absent_or_falsy; tauto].
  destruct (truthy (field p "bloomingPeriod")) eqn:Hb; cbn [negb bind];
    [|apply mock_missing_field; unfold missing_field, absent_or_falsy; tauto].
  assert (Hmf : ~ missing_field p).
  { unfold missing_field, absent_or_falsy. intros [?|[?|[?|?]]]; congruence. }
  destruct (negb (isArray (field p "coordinates")) ||
            negb (Nat.eqb (array_length (field p "coordinates")) 2)) eqn:Harr.
  { apply mock_invalid_coordinates; [done|].
    intros a b E. rewrite E in Harr. discriminate. }
  apply two_elements in Harr as (c0 & c1 & Hcoords).
  assert (Hic : ~ invalid_coordinates p) by (apply not_invalid_coordinates; eauto).
  unfold orr, falsy. rewrite !(get_truthy _ _ Hb). cbn [bind].
  destruct (truthy (prop (field p "bloomingPeriod") "start")) eqn:Hstart; cbn [negb bind];
    [|apply mock_invalid_blooming_period; unfold invalid_blooming_period, absent_or_falsy; tauto].
  destruct (truthy (prop (field p "bloomingPeriod") "peak")) eqn:Hpeak; cbn [negb bind];
    [|apply mock_invalid_blooming_period; unfold invalid_blooming_period, absent_or_falsy; tauto].
  destruct (truthy (prop (field p "bloomingPeriod") "end")) eqn:Hend; cbn [negb bind];
    [|apply mock_invalid_blooming_period; unfold invalid_blooming_period, absent_or_falsy; tauto].
  assert (Hibp : ~ invalid_blooming_period p).
  { unfold invalid_blooming_period, absent_or_falsy. intros [?|[?|?]]; congruence. }
  assert (Hreach : reaches_date_check p) by done.
  destruct (NewDate (prop (field p "bloomingPeriod") "start")) as [ts|] eqn:Hts; cbn [bind]; cycle 1.
  { apply mock_unexpected; [done| |unfold mock_raises; tauto].
    intros (? & ? & ? & (? & ? & ?) & _). congruence. }
  destruct (NewDate (prop (field p "bloomingPeriod") "peak")) as [tp|] eqn:Htp; cbn [bind]; cycle 1.
  { apply mock_unexpected; [done| |unfold mock_raises; tauto].
    intros (? & ? & ? & (? & ? & ?) & _). congruence. }
  destruct (NewDate (prop (field p "bloomingPeriod") "end")) as [te|] eqn:Hte; cbn [bind]; cycle 1.
  { apply mock_unexpected; [done| |unfold mock_raises; tauto].
    intros (? & ? & ? & (? & ? & ?) & _). congruence. }
  destruct (js_lt tp ts || js_lt te tp) eqn:Horder.
  { apply mock_invalid_date_order; [done|]. exists ts, tp, te. split; [done|].
    apply orb_true_iff in Horder. rewrite !js_lt_iff in Horder. done. }
  assert (Hido : ~ invalid_date_order p).
  { intros (ts' & tp' & te' & (E1 & E2 & E3) & Hless).
    rewrite <- !js_lt_iff in Hless.
    apply orb_false_iff in Horder as [? ?].
    destruct Hless; congruence. }
  destruct (call_trim (field p "locationName")) as [name|] eqn:Hname; cbn [bind];
    [|apply mock_unexpected; [done|done|unfold mock_raises; tauto]].
  rewrite Hcoords.
  change (index (VArr [c0; c1]) 0) with c0.
  change (index (VArr [c0; c1]) 1) with c1.
  destruct (Service.call_toString c0) as [s0|] eqn:Hs0; cbn [bind];
    [|apply mock_unexpected; [done|done|];
      unfold mock_raises; rewrite Hcoords;
      change (index (VArr [c0; c1]) 0) with c0; tauto].
  destruct (Service.call_toString c1) as [s1|] eqn:Hs1; cbn [bind];
    [|apply mock_unexpected; [done|done|];
      unfold mock_raises; rewrite Hcoords;
      change (index (VArr [c0; c1]) 1) with c1; tauto].
  destruct (field p "locationName") as [| | | |raw| |] eqn:Hraw; try discriminate.
  injection Hname as <-.
  eapply mock_created; try done.
  unfold mock_raises. rewrite Hts, Htp, Hte, Hraw, Hcoords.
  change (index (VArr [c0; c1]) 0) with c0.
  change (index (VArr [c0; c1]) 1) with c1.
  rewrite Hs0, Hs1. cbn [call_trim]. intros [?|[?|[?|[?|[?|?]]]]]; discriminate.
Qed.

(** X22.  [createLocation] refuses a payload for the reason for which the
    route's Create refuses it: each of the four validation errors of the one
    is answered exactly when the corresponding error of the other is,
    whatever the store of the route holds. *)
Theorem createLocation_refuses_as_POST (draw : Z) (locations : list object) (p : object) :
  let reply := Api.createLocation draw (VObj p) in
  let answer := (Route.POST locations (Ok (VObj p))).1 in
  (answer = Route.MissingField <->
   reply = Service.Failure "Thiếu thông tin bắt buộc") /\
  (answer = Route.InvalidCoordinates <->
   reply = Service.Failure "Tọa độ không hợp lệ") /\
  (answer = Route.InvalidBloomingPeriod <->
   reply = Service.Failure "Thời gian nở hoa không hợp lệ") /\
  (answer = Route.InvalidDateOrder <->
   reply = Service.Failure "Thứ tự thời gian nở hoa không hợp lệ").
Proof.
  intros reply answer. unfold reply, answer, Api.createLocation.
  pose proof (POST_cases locations p) as Hpost.
  pose proof (mockCreateLocation_cases draw p) as Hmock.
  destruct Hpost as [Hmf|Hmf Hic|Hmf Hic Hibp|(Hmf & Hic & Hibp) Hido
                     |(Hmf & Hic & Hibp) Hido _
                     |? ? ? ? ? ? ? ? ? ? (Hmf & Hic & Hibp) Hido];
    destruct Hmock as [Hmf'|Hmf' Hic'|Hmf' Hic' Hibp'|(Hmf' & Hic' & Hibp') Hido'
                       |(Hmf' & Hic' & Hibp') Hido' _
                       |? ? ? ? ? (Hmf' & Hic' & Hibp') Hido'];
    try tauto; split_and!; split; intros; try done.
Qed.

(** X23.  What [createLocation] accepts, the route's Create accepts too,
    over a store whose ids are numbers and provided [speciesId] has a
    string: the two records have the same [locationName], [coordinates] and
    [bloomingPeriod].  They differ in [speciesId], which the route reads with
    [parseInt] and the service returns as it came, and in [id], which is the
    next of the store for the route and [draw + 1000] for the service. *)
Theorem createLocation_then_POST (draw : Z) (locations : list object) (p : object) :
  safe_ids locations ->
  Service.success (Api.createLocation draw (VObj p)) = true ->
  ~ unprintable (field p "speciesId") ->
  exists (created mocked : object) (n : number),
    Route.POST locations (Ok (VObj p)) = (Route.Created created, locations ++ [created]) /\
    Service.data (Api.createLocation draw (VObj p)) = VObj mocked /\
    created !! "locationName" = mocked !! "locationName" /\
    created !! "coordinates" = mocked !! "coordinates" /\
    created !! "bloomingPeriod" = mocked !! "bloomingPeriod" /\
    mocked !! "speciesId" = Some (field p "speciesId") /\
    parseInt (field p "speciesId") = Ok n /\ created !! "speciesId" = Some (VNum n) /\
    mocked !! "id" = Some (VNum (num_of_Z (draw + 1000))) /\
    created !! "id" = Some (VNum (num_of_Z (max_id locations + 1))).
Proof.
  intros Hsafe Hsuccess Hspecies. unfold Api.createLocation in *.
  pose proof (mockCreateLocation_cases draw p) as Hmock.
  destruct Hmock as [| | | | |raw c0 c1 s0 s1 Hreach Hido Hraise Hraw Hcoords Hs0 Hs1];
    try discriminate.
  apply call_toString_Ok in Hs0 as [Hs0 Hc0], Hs1 as [Hs1 Hc1].
  assert (Hnot : ~ raises locations p).
  { rewrite (raises_unprintable _ _ Hsafe). intros [Hname|(v & Hv & Hu)].
    - by apply (Hname raw).
    - unfold converted in Hv. rewrite Hcoords in Hv.
      change (index (VArr [c0; c1]) 0) with c0 in Hv.
      change (index (VArr [c0; c1]) 1) with c1 in Hv.
      unfold mock_raises in Hraise. rewrite !NewDate_Throw in Hraise.
      repeat (apply elem_of_cons in Hv as [->|Hv]; [tauto|]).
      by apply elem_of_nil in Hv. }
  pose proof (POST_cases locations p) as Hpost.
  rewrite (surjective_pairing (Route.POST locations (Ok (VObj p)))).
  destruct Hpost as [Hmf|Hmf Hic|Hmf Hic Hibp|_ Hido'|_ _ Hraise'
                     |highest speciesId raw' c0' c1' lon lat ts tp te _ _ _
                        Hmax Hsid Hraw' Hcoords' Hlon Hlat];
    try (exfalso; destruct Hreach as (? & ? & ?); tauto).
  rewrite (Math_max_ids _ Hsafe) in Hmax. injection Hmax as <-.
  rewrite Hraw in Hraw'. injection Hraw' as <-.
  rewrite Hcoords in Hcoords'. injection Hcoords' as <- <-.
  unfold parseFloat in Hlon, Hlat. rewrite Hs0 in Hlon. rewrite Hs1 in Hlat.
  injection Hlon as <-. injection Hlat as <-.
  eexists _, _, speciesId. split_and!; try done.
  unfold newLocation, Route.location. rewrite lookup_insert_eq. by rewrite num_add_Z.
Qed.

(** X24.  The route's Create and [createLocation] test that the name is not
    empty before they trim it: a [locationName] of white space only is not
    refused, and the record has the empty string for a name. *)
Theorem blank_name_accepted (draw : Z) (locations : list object) (p : object) (raw : string) :
  field p "locationName" = VStr raw -> whitespace raw ->
  (Route.success (Route.POST locations (Ok (VObj p))).1 = true ->
     raw <> EmptyString /\
     prop (Route.data (Route.POST locations (Ok (VObj p))).1) "locationName" =
       VStr EmptyString) /\
  (Service.success (Api.createLocation draw (VObj p)) = true ->
     raw <> EmptyString /\
     prop (Service.data (Api.createLocation draw (VObj p))) "locationName" =
       VStr EmptyString).
Proof.
  intros Hraw Hblank. apply trim_whitespace in Hblank.
  assert (Hpresent : ~ missing_field p -> raw <> EmptyString).
  { intros Hmf ->. apply Hmf. right. left. unfold absent_or_falsy. by rewrite Hraw. }
  split.
  - intros Haccepted. pose proof (POST_cases locations p) as Hc.
    destruct Hc as [| | | | |highest speciesId raw' c0 c1 lon lat ts tp te
                             (Hmf & _ & _) _ _ _ _ Hraw' _ _ _]; try discriminate.
    rewrite Hraw in Hraw'. injection Hraw' as <-.
    split; [by apply Hpresent|].
    unfold newLocation, Route.location. cbn [prop Route.data Route.Created]. unfold field.
    rewrite !lookup_insert_ne, lookup_insert_eq by done. by rewrite Hblank.
  - unfold Api.createLocation. intros Haccepted.
    pose proof (mockCreateLocation_cases draw p) as Hc.
    destruct Hc as [| | | | |raw' c0 c1 s0 s1 (Hmf & _ & _) _ _ Hraw' _ _ _];
      try discriminate.
    rewrite Hraw in Hraw'. injection Hraw' as <-.
    split; [by apply Hpresent|].
    unfold Route.location. cbn [prop Service.data]. unfold field.
    rewrite !lookup_insert_ne, lookup_insert_eq by done. by rewrite Hblank.
Qed.

End Mock_cases.

(** ** The service: species and locations *)

Section Fetch_facts.
Context `{Platform}.
Variable base : option string.
Variable fetch : string -> result Api.FetchResponse.

Lemma request_outcome (url : string) :
  let outcome :=
    response <- fetch url ;;
    if negb (Api.ok response) then Throw else
    data <- Api.json response ;;
    success <- get data "success" ;;
    if negb (truthy success) then Throw else
    get data "data" in
  (forall d, outcome = Ok d <-> succeeds fetch url d) /\
  (outcome = Throw <-> fails fetch url).
Proof.
  intros outcome.
  assert (Hok : forall d, outcome = Ok d <-> succeeds fetch url d).
  { intros d. unfold outcome, succeeds. split.
    - destruct (fetch url) as [response|] eqn:Hf; [|done]. cbn [bind].
      destruct (Api.ok response) eqn:Hr; [|done]. cbn [negb].
      destruct (Api.json response) as [[| | | | | |body]|] eqn:Hj;
        cbn [bind get truthy negb]; try done.
      fold (field body "success") (field body "data").
      destruct (truthy (field body "success")) eqn:Hs; [|done]. cbn [negb].
      intros [= <-]. by exists response, body.
    - intros (response & body & -> & Hr & Hj & Hs & <-). cbn [bind].
      rewrite Hr, Hj. cbn [negb bind get]. fold (field body "success"). by rewrite Hs. }
  split; [done|]. unfold fails. split.
  - intros Hthrow d Hd. apply Hok in Hd. congruence.
  - intros Hfails. destruct outcome as [d|] eqn:E; [|done].
    destruct (Hfails d). by apply Hok.
Qed.

Lemma getSpeciesById_outcome (speciesId : number) :
  (forall d, succeeds fetch (species_url base speciesId) d ->
             Api.getSpeciesById base fetch speciesId = d) /\
  (fails fetch (species_url base speciesId) ->
   Api.getSpeciesById base fetch speciesId = VNull).
Proof.
  unfold Api.getSpeciesById, Api.getSpeciesById_try.
  destruct (request_outcome (species_url base speciesId)) as [Hok Hthrow].
  unfold species_url in *.
  split.
  - intros d Hd. apply Hok in Hd. cbv zeta in Hd. by rewrite Hd.
  - intros Hf. apply Hthrow in Hf. cbv zeta in Hf. by rewrite Hf.
Qed.

Lemma getLocationsBySpecies_outcome (speciesId : number) :
  (forall d, succeeds fetch (locations_url base speciesId) d ->
             Api.getLocationsBySpecies base fetch speciesId = d) /\
  (fails fetch (locations_url base speciesId) ->
   Api.getLocationsBySpecies base fetch speciesId = VArr []).
Proof.
  unfold Api.getLocationsBySpecies, Api.getLocationsBySpecies_try.
  destruct (request_outcome (locations_url base speciesId)) as [Hok Hthrow].
  unfold locations_url in *.
  split.
  - intros d Hd. apply Hok in Hd. cbv zeta in Hd. by rewrite Hd.
  - intros Hf. apply Hthrow in Hf. cbv zeta in Hf. by rewrite Hf.
Qed.

(** X25.  [getSpeciesWithLocations] is [null] when the request of the
    species fails (the promise rejects, the response is not ok, its body is
    no JSON or no object with a truthy [success]) and when it succeeds with
    data that are falsy.  Otherwise it is the species with its locations,
    and a request of the locations that fails goes unnoticed: the locations
    are then the empty list. *)
Theorem getSpeciesWithLocations_outcomes (speciesId : number) :
  let result := Api.getSpeciesWithLocations base fetch speciesId in
  (fails fetch (species_url base speciesId) -> result = VNull) /\
  (forall species, succeeds fetch (species_url base speciesId) species ->
     (truthy species = false -> result = VNull) /\
     (truthy species = true ->
        (forall locations, succeeds fetch (locations_url base speciesId) locations ->
           result = VObj (<["species" := species]> (<["locations" := locations]> ∅))) /\
        (fails fetch (locations_url base speciesId) ->
           result = VObj (<["species" := species]> (<["locations" := VArr []]> ∅))))).
Proof.
  intros result. unfold result, Api.getSpeciesWithLocations.
  destruct (getSpeciesById_outcome speciesId) as [Hs Hsf].
  destruct (getLocationsBySpecies_outcome speciesId) as [Hl Hlf].
  split.
  - intros Hf. by rewrite (Hsf Hf).
  - intros species Hspecies. rewrite (Hs _ Hspecies). split.
    + by intros ->.
    + intros ->. cbn [negb]. split.
      * intros locations Hlocations. by rewrite (Hl _ Hlocations).
      * intros Hf. by rewrite (Hlf Hf).
Qed.

End Fetch_facts.

(** ** Worked examples

    On the platform [reference]. *)

#[local] Existing Instance reference.

(** *** The built-in functions *)

Example trim_garden : trim " Test Garden " = "Test Garden".
Proof. reflexivity. Qed.

Example trim_line_ends :
  trim (string_of_codes [9; 194; 160; 65; 32; 66; 226; 128; 169; 13; 10]%N) = "A B".
Proof. reflexivity. Qed.

Example parseInt_decimal : parseInt_string "  42abc" = num_of_Z 42.
Proof. reflexivity. Qed.

Example parseInt_hexadecimal : parseInt_string "-0x1F" = num_of_Z (-31).
Proof. reflexivity. Qed.

Example parseInt_none : parseInt_string "abc" = NaN /\ parseInt_string "" = NaN.
Proof. split; reflexivity. Qed.

Example parseInt_rounds :
  parseInt_string "9007199254740992" = num_of_Z 9007199254740992 /\
  parseInt_string "9007199254740993" = num_of_Z 9007199254740992 /\
  parseInt_string "9007199254740995" = num_of_Z 9007199254740996 /\
  parseInt_string "-9007199254740997" = num_of_Z (-9007199254740996).
Proof. split_and!; vm_compute; reflexivity. Qed.

Example Number_of_integer_overflows :
  Number_of_integer (2 ^ 1024 - 2 ^ 970 - 1) = num_of_Z (2 ^ 1024 - 2 ^ 971) /\
  Number_of_integer (2 ^ 1024 - 2 ^ 970) = PosInfinity /\
  Number_of_integer (10 ^ 400) = PosInfinity /\
  Number_of_integer (- 10 ^ 400) = NegInfinity.
Proof. split_and!; vm_compute; reflexivity. Qed.

Example includes_substring :
  includes "antelope valley" "valley" = true /\ includes "namaqualand" "valley" = false /\
  includes "namaqualand" "" = true.
Proof. split_and!; reflexivity. Qed.

Example ToString_array :
  ToString (VArr [VNum (num_of_Z 1); VNull; VStr "a"; VArr [VBool true; VUndefined]]) =
  Ok "1,,a,true,".
Proof. reflexivity. Qed.

Example ToString_object :
  ToString (VObj ∅) = Ok "[object Object]" /\
  ToString (VObj (<["toString" := VNum (num_of_Z 1)]> ∅)) = Throw.
Proof. split; reflexivity. Qed.

Example NewDate_examples :
  NewDate (VStr "2024-03-01") = Ok (num_of_Z 1709251200000) /\
  NewDate (VStr "soon") = Ok NaN /\
  NewDate (VBool true) = Ok (num_of_Z 1) /\
  NewDate (VNum (Finite (15 # 10))) = Ok (num_of_Z 1).
Proof. split_and!; reflexivity. Qed.

Example parseFloat_examples :
  parseFloat (VStr " 106.7 east") = Ok (Finite (1067 # 10)) /\
  parseFloat (VNum (Finite (1078 # 100))) = Ok (Finite (1078 # 100)) /\
  parseFloat (VStr "east") = Ok NaN.
Proof. split_and!; reflexivity. Qed.

(** *** The handlers *)

(** Not all overlays are selected, the query leaves one candidate, and
    selecting all selects both overlays. *)
Lemma handleSelectAll_ignores_search :
  length (Panel.selectedOverlayIds Examples.props) <>
    length (Panel.allOverlays Examples.props) /\
  (fun o => Panel.id (Panel.overlay o)) <$>
    Panel.candidates Examples.props Examples.searching = [num_of_Z 1] /\
  Panel.handleSelectAll Examples.props Examples.searching = [num_of_Z 1; num_of_Z 2] /\
  Panel.handleSelectAll Examples.props Examples.searching <>
    (fun o => Panel.id (Panel.overlay o)) <$>
      Panel.candidates Examples.props Examples.searching.
Proof. split_and!; [discriminate|reflexivity|reflexivity|discriminate]. Qed.

Lemma handleSelectAll_all_witness :
  length (Panel.selectedOverlayIds Examples.props) <>
    length (Panel.allOverlays Examples.props) /\
  Panel.handleSelectAll Examples.props Examples.searching =
    Panel.id <$> Panel.allOverlays Examples.props.
Proof.
  split; [discriminate|].
  apply (proj1 (proj2 (handleSelectAll_all Examples.props Examples.searching))).
  discriminate.
Defined.

(** The corner of a box is inside it. *)
Lemma isLocationInOverlay_inclusive_witness :
  well_formed (Panel.bounds Examples.desert) /\
  is_corner (Panel.coordinates Examples.corner) (Panel.bounds Examples.desert) /\
  Panel.isLocationInOverlay Examples.corner Examples.desert = true.
Proof.
  assert (Hwf : well_formed (Panel.bounds Examples.desert)).
  { split; apply js_le_iff; reflexivity. }
  assert (Hcorner : is_corner (Panel.coordinates Examples.corner)
                      (Panel.bounds Examples.desert)).
  { split; left; reflexivity. }
  split_and!; [done|done|].
  apply (proj1 (proj2 (isLocationInOverlay_inclusive Examples.corner Examples.desert)));
    [done|by right].
Defined.

(** The statistics of the two overlays over three locations. *)
Lemma overlaysWithStats_stable_witness :
  Panel.locationCount <$>
    Panel.overlaysWithStats (Panel.allOverlays Examples.props)
      (Panel.allLocations Examples.props) = [1%nat; 1%nat] /\
  Panel.overlay <$>
    Panel.overlaysWithStats (Panel.allOverlays Examples.props)
      (Panel.allLocations Examples.props) = Panel.allOverlays Examples.props.
Proof.
  split; [reflexivity|].
  apply (proj1 (overlaysWithStats_stable (Panel.allOverlays Examples.props)
                  (Panel.allLocations Examples.props))).
Defined.

(** Create answers 4, Delete takes the record 4 away, and Create answers 4
    again. *)
Lemma id_reused_after_delete :
  let answers :=
    (run Route.seed [Create (Ok (VObj Examples.garden)); Delete (Some "4");
                     Create (Ok (VObj Examples.garden))]).1 in
  Route.success <$> answers = [true; true; true] /\
  (fun r => prop (Route.data r) "id") <$> answers =
    [VNum (num_of_Z 4); VNum (num_of_Z 4); VNum (num_of_Z 4)] /\
  ~ num_less (num_of_Z 4) (num_of_Z 4) /\ VNum (num_of_Z 4) <> VNum (num_of_Z 5).
Proof.
  split_and!; [vm_compute; reflexivity|vm_compute; reflexivity| |discriminate].
  intros Hless. apply js_lt_iff in Hless. discriminate.
Qed.

Lemma POST_assigns_next_id_witness :
  safe_ids Route.seed /\ NoDup (Route.id_of <$> Route.seed) /\
  spares_greatest Route.seed Examples.spared /\
  new_ids Examples.spared (run Route.seed Examples.spared).1 =
    [VNum (num_of_Z 4); VNum (num_of_Z 5)] /\
  exists zs,
    new_ids Examples.spared (run Route.seed Examples.spared).1 =
      (fun z => VNum (num_of_Z z)) <$> zs /\
    Forall (fun z => max_id Route.seed < z) zs /\
    (forall i j a b, zs !! i = Some a -> zs !! j = Some b -> (i < j)%nat -> a < b) /\
    NoDup zs /\
    Forall (fun z => no_record_has (num_of_Z z) Route.seed) zs.
Proof.
  pose proof seed_ids_within as (Hsafe & Hdup & _).
  assert (Hspared : spares_greatest Route.seed Examples.spared).
  { cbn [spares_greatest Examples.spared].
    split; [intros []|]. split; [|split; [intros []|exact I]].
    intros (_ & i & l & (_ & Hid & _) & Hgreatest).
    assert (Hmax : max_id (handle Route.seed (Create (Ok (VObj Examples.garden)))).2 = 4)
      by (vm_compute; reflexivity).
    rewrite Hmax in Hgreatest. apply int_id_Some in Hgreatest.
    unfold has_id, Route.id_of in Hid. rewrite Hgreatest in Hid. discriminate. }
  split_and!; [done|done|done|vm_compute; reflexivity|].
  apply (proj1 (proj2 (POST_assigns_next_id Route.seed Hsafe)) Examples.spared Hdup);
    [vm_compute; discriminate|done].
Defined.

Lemma inverted_dates (p : object) :
  field p "bloomingPeriod" = Examples.period "2024-03-15" "2024-03-01" "2024-04-01" ->
  invalid_date_order p.
Proof.
  intros Hp. exists (num_of_Z 1710460800000), (num_of_Z 1709251200000), (num_of_Z 1711929600000).
  unfold parsed_dates. rewrite Hp.
  split; [split_and!; vm_compute; reflexivity|].
  left. apply js_lt_iff. reflexivity.
Qed.

(** The dates are out of order and the species is missing: the answer is
    MissingField. *)
Lemma missing_field_before_date_order :
  invalid_date_order Examples.inverted_no_species /\
  (Route.POST Route.seed (Ok (VObj Examples.inverted_no_species))).1 =
    Route.MissingField /\
  Route.MissingField <> Route.InvalidDateOrder.
Proof.
  split_and!; [|vm_compute; reflexivity|discriminate].
  apply inverted_dates. vm_compute; reflexivity.
Qed.

Lemma inverted_reaches_date_check : reaches_date_check Examples.inverted.
Proof.
  split_and!.
  - unfold missing_field, absent_or_falsy. intros [?|[?|[?|?]]]; discriminate.
  - apply not_invalid_coordinates. by eexists _, _.
  - unfold invalid_blooming_period, absent_or_falsy. intros [?|[?|?]]; discriminate.
Qed.

Lemma POST_date_order_witness :
  (invalid_date_order Examples.inverted /\ reaches_date_check Examples.inverted /\
   Route.POST Route.seed (Ok (VObj Examples.inverted)) =
     (Route.InvalidDateOrder, Route.seed)) /\
  (parsed_dates Examples.one_day (num_of_Z 1709251200000) (num_of_Z 1709251200000)
     (num_of_Z 1709251200000) /\
   (Route.POST Route.seed (Ok (VObj Examples.one_day))).1 <> Route.InvalidDateOrder).
Proof.
  assert (Hido : invalid_date_order Examples.inverted).
  { apply inverted_dates. vm_compute; reflexivity. }
  assert (Hday : parsed_dates Examples.one_day (num_of_Z 1709251200000)
                   (num_of_Z 1709251200000) (num_of_Z 1709251200000)).
  { split_and!; vm_compute; reflexivity. }
  split; [split_and!; [done| |]|split; [done|]].
  - apply inverted_reaches_date_check.
  - apply (proj1 (POST_date_order Route.seed Examples.inverted) Hido).
    apply inverted_reaches_date_check.
  - apply (proj2 (POST_date_order Route.seed Examples.one_day) _ _ _ Hday). by right.
Defined.

(** The payload [null] has none of the four fields, and the answer is not
    MissingField. *)
Lemma null_payload_not_missing_field :
  missing_field (fields_of VNull) /\
  Route.status (Route.POST Route.seed (Ok VNull)).1 = 500 /\
  Route.message (Route.POST Route.seed (Ok VNull)).1 = "Failed to create location" /\
  (Route.POST Route.seed (Ok VNull)).1 <> Route.MissingField.
Proof. split_and!; [by left|reflexivity|reflexivity|discriminate]. Qed.

Lemma POST_first_failure_witness :
  reaches_date_check Examples.inverted /\ invalid_date_order Examples.inverted /\
  (Route.POST Route.seed (Ok (VObj Examples.inverted))).1 = Route.InvalidDateOrder /\
  Route.status (Route.POST Route.seed (Ok VNull)).1 = 500.
Proof.
  assert (Hido : invalid_date_order Examples.inverted).
  { apply inverted_dates. vm_compute; reflexivity. }
  pose proof inverted_reaches_date_check as Hreach.
  split_and!; [done|done| |].
  - destruct Hreach as (Hmf & Hic & Hibp).
    destruct (proj2 (POST_first_failure Route.seed (VObj Examples.inverted)))
      as (_ & _ & _ & Hdate & _); [discriminate|discriminate|].
    by apply Hdate.
  - by apply (proj1 (POST_first_failure Route.seed VNull)).
Defined.



Lemma PUT_merges_witness :
  let answer := Route.PUT Route.seed (Ok (VObj Examples.patch_1)) in
  (Examples.patch_1 !! "id" = Some (VStr "1") /\ truthy (VStr "1") = true /\
   parseInt (VStr "1") = Ok (num_of_Z 1) /\
   record_with_id (num_of_Z 1) Route.seed 0 Examples.seed_1) /\
  exists merged : object,
    Route.status answer.1 = 200 /\ Route.success answer.1 = true /\
    Route.data answer.1 = VObj merged /\
    Route.message answer.1 = "Location updated successfully" /\
    answer.2 = <[0%nat := merged]> Route.seed /\
    (forall k v, delete "id" Examples.patch_1 !! k = Some v -> merged !! k = Some v) /\
    (forall k, delete "id" Examples.patch_1 !! k = None ->
               merged !! k = Examples.seed_1 !! k) /\
    merged !! "id" = Examples.seed_1 !! "id".
Proof.
  intros answer.
  assert (Hrec : record_with_id (num_of_Z 1) Route.seed 0 Examples.seed_1).
  { split_and!; [reflexivity|vm_compute; reflexivity|intros; lia]. }
  split; [split_and!; [vm_compute; reflexivity|reflexivity|reflexivity|done]|].
  apply (proj2 (proj2 (PUT_merges Route.seed Examples.patch_1 (VStr "1") (num_of_Z 1)
                         eq_refl eq_refl eq_refl)) 0%nat Examples.seed_1 Hrec).
Defined.

Lemma DELETE_removes_witness :
  let answer := Route.DELETE Route.seed (Some "2") in
  ("2" <> EmptyString /\ record_with_id (num_of_Z 2) Route.seed 1 Examples.seed_2) /\
  exists before after,
    Route.seed = before ++ Examples.seed_2 :: after /\ length before = 1%nat /\
    Route.status answer.1 = 200 /\ Route.success answer.1 = true /\
    Route.data answer.1 = VObj Examples.seed_2 /\
    Route.message answer.1 = "Location deleted successfully" /\
    answer.2 = before ++ after.
Proof.
  intros answer.
  assert (Hid : "2" <> EmptyString) by discriminate.
  assert (Hrec : record_with_id (num_of_Z 2) Route.seed 1 Examples.seed_2).
  { split_and!; [reflexivity|vm_compute; reflexivity|].
    intros j l' Hj Hlt. assert (j = 0%nat) as -> by lia.
    injection Hj as <-. vm_compute. discriminate. }
  split; [done|].
  apply (proj1 (proj2 (DELETE_removes Route.seed "2" Hid)) 1%nat Examples.seed_2 Hrec).
Defined.

(** An Update leaves a string for coordinates, and a Create two [NaN]. *)
Lemma coordinates_spoiled :
  (fun l => field l "coordinates") <$>
    (run Route.seed [Update (Ok (VObj Examples.patch_1))]).2 =
    [VStr "nowhere";
     VArr [VNum (Finite (1066947 # 10000)); VNum (Finite (107881 # 10000))];
     VArr [VNum (Finite (106692 # 1000)); VNum (Finite (107756 # 10000))]] /\
  ~ Forall (fun l => two_finite_numbers (field l "coordinates"))
      (run Route.seed [Update (Ok (VObj Examples.patch_1))]).2 /\
  (fun l => field l "coordinates") <$>
    (run Route.seed [Create (Ok (VObj Examples.nowhere))]).2 =
    [VArr [VNum (Finite (1067008 # 10000)); VNum (Finite (107769 # 10000))];
     VArr [VNum (Finite (1066947 # 10000)); VNum (Finite (107881 # 10000))];
     VArr [VNum (Finite (106692 # 1000)); VNum (Finite (107756 # 10000))];
     VArr [VNum NaN; VNum NaN]] /\
  ~ Forall (fun l => two_finite_numbers (field l "coordinates"))
      (run Route.seed [Create (Ok (VObj Examples.nowhere))]).2.
Proof.
  assert (Hupdate : (fun l => field l "coordinates") <$>
    (run Route.seed [Update (Ok (VObj Examples.patch_1))]).2 =
    [VStr "nowhere";
     VArr [VNum (Finite (1066947 # 10000)); VNum (Finite (107881 # 10000))];
     VArr [VNum (Finite (106692 # 1000)); VNum (Finite (107756 # 10000))]])
    by (vm_compute; reflexivity).
  assert (Hcreate : (fun l => field l "coordinates") <$>
    (run Route.seed [Create (Ok (VObj Examples.nowhere))]).2 =
    [VArr [VNum (Finite (1067008 # 10000)); VNum (Finite (107769 # 10000))];
     VArr [VNum (Finite (1066947 # 10000)); VNum (Finite (107881 # 10000))];
     VArr [VNum (Finite (106692 # 1000)); VNum (Finite (107756 # 10000))];
     VArr [VNum NaN; VNum NaN]])
    by (vm_compute; reflexivity).
  split_and!; [done| |done|].
  - intros HF.
    apply (Forall_fmap (fun l : object => field l "coordinates")) in HF.
    rewrite Hupdate in HF. apply Forall_inv in HF as (a & b & E). discriminate.
  - intros HF.
    apply (Forall_fmap (fun l : object => field l "coordinates")) in HF.
    rewrite Hcreate in HF.
    do 3 apply Forall_inv_tail in HF. apply Forall_inv in HF as (a & b & E).
    discriminate.
Qed.

Lemma coordinates_invariant_witness :
  Forall keeps_finite Examples.creations /\
  Forall (fun l => two_finite_numbers (field l "coordinates"))
    (run Route.seed Examples.creations).2 /\
  Forall keeps_coordinates Examples.requests /\
  Forall (fun l => two_numbers (field l "coordinates")) (run Route.seed Examples.requests).2.
Proof.
  assert (Hfinite : Forall keeps_finite Examples.creations).
  { assert (Hcreate : forall p,
      field p "coordinates" = VArr [VNum (Finite (1067 # 10)); VNum (Finite (1078 # 100))] ->
      keeps_finite (Create (Ok (VObj p)))).
    { intros p Hp c0 c1 lon lat Hc Hlon Hlat. rewrite Hp in Hc. injection Hc as <- <-.
      vm_compute in Hlon, Hlat. injection Hlon as <-. by injection Hlat as <-. }
    apply Forall_cons_2; [apply Hcreate; vm_compute; reflexivity|].
    apply Forall_cons_2; [intros v Hv; vm_compute in Hv; discriminate|].
    apply Forall_cons_2; [apply Hcreate; vm_compute; reflexivity|].
    apply Forall_cons_2; [exact I|].
    apply Forall_cons_2; [apply Hcreate; vm_compute; reflexivity|].
    apply Forall_nil_2. }
  assert (Hkeeps : Forall keeps_coordinates Examples.requests).
  { repeat constructor. intros v Hv. vm_compute in Hv. discriminate. }
  split_and!; [done| |done|].
  - by apply (proj1 (proj2 (proj2 (coordinates_invariant Examples.creations)))).
  - by apply (proj2 (proj2 (proj2 (coordinates_invariant Examples.requests)))).
Defined.

(** The record 1 after the Update: its id as before, a string for
    coordinates, and the peak before the start. *)
Lemma PUT_does_not_validate :
  exists l,
    (Route.PUT Route.seed (Ok (VObj Examples.patch_1))).2 !! 0%nat = Some l /\
    l !! "id" = Some (VNum (num_of_Z 1)) /\
    invalid_coordinates l /\ invalid_date_order l.
Proof.
  assert (Hlength : length (Route.PUT Route.seed (Ok (VObj Examples.patch_1))).2 = 3%nat)
    by (vm_compute; reflexivity).
  destruct (lookup_lt_is_Some_2 (Route.PUT Route.seed (Ok (VObj Examples.patch_1))).2 0)
    as [l Hl]; [lia|].
  exists l. split; [done|].
  assert (Hid : (.!! "id") <$>
            (Route.PUT Route.seed (Ok (VObj Examples.patch_1))).2 !! 0%nat =
          Some (Some (VNum (num_of_Z 1)))) by (vm_compute; reflexivity).
  assert (Hcoordinates : (fun l => field l "coordinates") <$>
            (Route.PUT Route.seed (Ok (VObj Examples.patch_1))).2 !! 0%nat =
          Some (VStr "nowhere")) by (vm_compute; reflexivity).
  assert (Hperiod : (fun l => field l "bloomingPeriod") <$>
            (Route.PUT Route.seed (Ok (VObj Examples.patch_1))).2 !! 0%nat =
          Some (Examples.period "2024-03-15" "2024-03-01" "2024-04-01"))
    by (vm_compute; reflexivity).
  rewrite Hl in Hid, Hcoordinates, Hperiod.
  injection Hid as Hid. injection Hcoordinates as Hcoordinates.
  injection Hperiod as Hperiod.
  split_and!; [done| |by apply inverted_dates].
  intros a b E. congruence.
Qed.

(** *** Further properties *)

(** A location with no longitude is not at the corner it would be at. *)
Lemma isLocationInOverlay_NaN_witness :
  has_NaN (Panel.coordinates Examples.adrift) (Panel.bounds Examples.desert) /\
  Panel.isLocationInOverlay Examples.adrift Examples.desert = false.
Proof.
  assert (Hnan : has_NaN (Panel.coordinates Examples.adrift) (Panel.bounds Examples.desert))
    by (by left).
  split; [done|].
  exact (proj1 (isLocationInOverlay_NaN Examples.adrift) Examples.desert Hnan).
Defined.

Lemma handleOverlayToggle_flips_witness :
  Panel.ids_include (Panel.selectedOverlayIds Examples.props) (num_of_Z 2) = false /\
  Panel.handleOverlayToggle Examples.props (num_of_Z 2) = [num_of_Z 2] /\
  Panel.ids_include (Panel.handleOverlayToggle Examples.props (num_of_Z 2)) (num_of_Z 2) = true /\
  Panel.handleOverlayToggle
    (with_selection Examples.props [num_of_Z 2; num_of_Z 2; num_of_Z 1]) (num_of_Z 1) =
    filter (fun y => num_eqb y (num_of_Z 1) <> true) [num_of_Z 2; num_of_Z 2; num_of_Z 1] /\
  filter (fun y => num_eqb y (num_of_Z 1) <> true) [num_of_Z 2; num_of_Z 2; num_of_Z 1] =
    [num_of_Z 2; num_of_Z 2].
Proof.
  destruct (handleOverlayToggle_flips Examples.props (num_of_Z 2))
    as (Hflip & _ & Hadd & _).
  destruct (handleOverlayToggle_flips
              (with_selection Examples.props [num_of_Z 2; num_of_Z 2; num_of_Z 1])
              (num_of_Z 1))
    as (_ & _ & _ & Hremove & _).
  split_and!; [reflexivity|by apply Hadd|by apply Hflip|by apply Hremove|reflexivity].
Defined.

Lemma handleOverlayToggle_twice_witness :
  Panel.handleOverlayToggle
    (with_selection Examples.props (Panel.handleOverlayToggle Examples.props (num_of_Z 2)))
    (num_of_Z 2) = [].
Proof.
  exact (handleOverlayToggle_twice Examples.props (num_of_Z 2) ltac:(discriminate) eq_refl).
Defined.

Lemma totalLocationsInSelected_pairs_witness :
  (Panel.totalLocationsInSelected Examples.props <=
     length (Panel.allOverlays Examples.props) * length (Panel.allLocations Examples.props))%nat.
Proof. exact (proj1 (proj2 (totalLocationsInSelected_pairs Examples.props))). Defined.

(** Both overlays selected: one location in each. *)
Lemma handleSelectAll_then_witness :
  let all :=
    with_selection Examples.props (Panel.handleSelectAll Examples.props Examples.searching) in
  Panel.selectedOverlayIds all = [num_of_Z 1; num_of_Z 2] /\
  length (containments (Panel.allOverlays Examples.props)
            (Panel.allLocations Examples.props)) = 2%nat /\
  Panel.totalLocationsInSelected all =
    length (containments (Panel.allOverlays Examples.props)
              (Panel.allLocations Examples.props)) /\
  Panel.handleSelectAll all Examples.searching = [].
Proof.
  intros all.
  assert (Hne : length (Panel.selectedOverlayIds Examples.props) <>
                length (Panel.allOverlays Examples.props)) by discriminate.
  destruct (handleSelectAll_then Examples.props Examples.searching Hne) as [Htotal Hclear].
  split_and!; [reflexivity|reflexivity|exact Htotal|exact Hclear].
Defined.

Lemma space_WhiteSpace : " " ∈ WhiteSpace.
Proof. apply list_elem_of_In. do 5 right. by left. Qed.

Lemma two_spaces : whitespace "  ".
Proof.
  apply (made_of_cons _ " " " "); [apply space_WhiteSpace|].
  apply (made_of_cons _ " " EmptyString); [apply space_WhiteSpace|constructor].
Qed.

(** A query of two spaces lists both overlays. *)
Lemma searchResults_matches_witness :
  Panel.searchResults
    (Panel.overlaysWithStats (Panel.allOverlays Examples.props)
       (Panel.allLocations Examples.props)) "  " =
  Panel.overlaysWithStats (Panel.allOverlays Examples.props)
    (Panel.allLocations Examples.props).
Proof.
  exact (proj1 (searchResults_matches _ "  ") two_spaces).
Defined.

(** No record is of the species "abc". *)
Lemma GET_filters_witness :
  exists listed,
    Route.data (Route.GET Route.seed (Some "abc")).1 = VArr (VObj <$> listed) /\
    listed = [].
Proof.
  destruct (GET_filters Route.seed (Some "abc")) as (_ & _ & _ & listed & Hdata & _ & _ & Hs).
  exists listed. split; [done|]. by apply (Hs "abc").
Defined.

(** No record has the id 9. *)
Lemma refused_request_changes_nothing_witness :
  let answer := handle Route.seed (Delete (Some "9")) in
  Route.success answer.1 = false /\
  answer.2 = Route.seed /\ Route.data answer.1 = VNull /\
  (Route.status answer.1 = 400 \/ Route.status answer.1 = 404 \/
   Route.status answer.1 = 500).
Proof.
  intros answer.
  assert (Hrefused : Route.success answer.1 = false) by (vm_compute; reflexivity).
  split; [done|].
  exact (proj1 (refused_request_changes_nothing Route.seed (Delete (Some "9"))) Hrefused).
Defined.

Lemma body_not_an_object_witness :
  Route.POST Route.seed (Ok (VArr [])) = (Route.MissingField, Route.seed) /\
  Route.PUT Route.seed (Ok (VArr [])) = (Route.MissingId, Route.seed).
Proof.
  apply (proj2 (body_not_an_object Route.seed (VArr []) ltac:(discriminate)));
    discriminate.
Defined.

Lemma nameless_checks :
  reaches_date_check Examples.nameless /\ ~ invalid_date_order Examples.nameless.
Proof.
  split; [split_and!|].
  - unfold missing_field, absent_or_falsy. intros [?|[?|[?|?]]]; discriminate.
  - apply not_invalid_coordinates. by eexists _, _.
  - unfold invalid_blooming_period, absent_or_falsy. intros [?|[?|?]]; discriminate.
  - intros (ts & tp & te & (Hts & Htp & Hte) & Hless).
    vm_compute in Hts, Htp, Hte. injection Hts as <-. injection Htp as <-.
    injection Hte as <-. rewrite <- !js_lt_iff in Hless. by destruct Hless.
Qed.

(** A name that is a number passes the checks and cannot be trimmed. *)
Lemma POST_fails_unexpectedly_witness :
  (forall s, field Examples.nameless "locationName" <> VStr s) /\
  Route.POST Route.seed (Ok (VObj Examples.nameless)) =
    (Route.Unexpected "Failed to create location", Route.seed).
Proof.
  assert (Hname : forall s, field Examples.nameless "locationName" <> VStr s)
    by discriminate.
  split; [done|].
  apply (proj2 (POST_fails_unexpectedly Route.seed Examples.nameless seed_safe_ids)).
  destruct nameless_checks as [Hreach Hido]. split_and!; [done|done|by left].
Defined.

Lemma unparsable_peak_reaches_date_check : reaches_date_check Examples.unparsable_peak.
Proof.
  split_and!.
  - unfold missing_field, absent_or_falsy. intros [?|[?|[?|?]]]; discriminate.
  - apply not_invalid_coordinates. by eexists _, _.
  - unfold invalid_blooming_period, absent_or_falsy. intros [?|[?|?]]; discriminate.
Qed.

(** The peak does not parse and the end is before the start: the payload is
    accepted. *)
Lemma POST_unparsable_dates_witness :
  reaches_date_check Examples.unparsable_peak /\
  NewDate (prop (field Examples.unparsable_peak "bloomingPeriod") "peak") = Ok NaN /\
  ~ invalid_date_order Examples.unparsable_peak /\
  (Route.POST Route.seed (Ok (VObj Examples.unparsable_peak))).1 <> Route.InvalidDateOrder /\
  Route.success (Route.POST Route.seed (Ok (VObj Examples.unparsable_peak))).1 = true.
Proof.
  pose proof unparsable_peak_reaches_date_check as Hreach.
  assert (Hstart : NewDate (prop (field Examples.unparsable_peak "bloomingPeriod") "start") =
                   Ok (num_of_Z 1709251200000)) by (vm_compute; reflexivity).
  assert (Hpeak : NewDate (prop (field Examples.unparsable_peak "bloomingPeriod") "peak") =
                  Ok NaN) by (vm_compute; reflexivity).
  assert (Hend : NewDate (prop (field Examples.unparsable_peak "bloomingPeriod") "end") =
                 Ok (num_of_Z 1706745600000)) by (vm_compute; reflexivity).
  assert (Haccepted :
    Route.success (Route.POST Route.seed (Ok (VObj Examples.unparsable_peak))).1 = true)
    by (vm_compute; reflexivity).
  destruct (POST_unparsable_dates Route.seed Examples.unparsable_peak _ _
              Hreach Hstart Hpeak Hend) as (Hido & Hanswer & _).
  by split_and!.
Defined.

Lemma run_keeps_ids_unique_witness :
  3 + Z.of_nat (length Examples.requests) <= MAX_SAFE_INTEGER /\
  NoDup (Route.id_of <$> (run Route.seed Examples.requests).2) /\
  Forall (fun l => exists z, l !! "id" = Some (VNum (num_of_Z z)) /\
                             1 <= z <= 3 + Z.of_nat (length Examples.requests))
    (run Route.seed Examples.requests).2.
Proof.
  assert (Hk : 3 + Z.of_nat (length Examples.requests) <= MAX_SAFE_INTEGER)
    by (cbn; unfold MAX_SAFE_INTEGER; lia).
  split; [done|]. exact (run_keeps_ids_unique Examples.requests Hk).
Defined.

(** The two Creates that succeed are numbered 4 and 5. *)
Lemma creates_count_up_witness :
  let created := new_ids Examples.creations (run Route.seed Examples.creations).1 in
  created = [VNum (num_of_Z 4); VNum (num_of_Z 5)] /\
  created =
    (fun z => VNum (num_of_Z z)) <$>
      seqZ (max_id Route.seed + 1) (Z.of_nat (length created)).
Proof.
  intros created. split; [vm_compute; reflexivity|].
  apply (creates_count_up Route.seed Examples.creations seed_safe_ids).
  - repeat constructor; intros [].
  - vm_compute. discriminate.
Defined.

(** The species 2 has one record before the Create and two after. *)
Lemma POST_then_GET_witness :
  let answer := Route.POST Route.seed (Ok (VObj Examples.garden)) in
  Route.success answer.1 = true /\
  Route.data (Route.GET Route.seed (Some "2")).1 = VArr (VObj <$> [Examples.seed_2]) /\
  exists created,
    Route.data answer.1 = VObj created /\
    Route.data (Route.GET answer.2 (Some "2")).1 = VArr (VObj <$> [Examples.seed_2; created]).
Proof.
  intros answer.
  assert (Haccepted : Route.success answer.1 = true) by (vm_compute; reflexivity).
  assert (Hbefore : Route.data (Route.GET Route.seed (Some "2")).1 =
                    VArr (VObj <$> [Examples.seed_2])) by (vm_compute; reflexivity).
  split_and!; [done|done|].
  destruct (POST_then_GET Route.seed Examples.garden answer.1 answer.2
              (surjective_pairing answer) Haccepted)
    as (created & speciesId & Hdata & Hspecies & Hparsed & _ & Hlisted).
  exists created. split; [done|].
  rewrite (Hlisted "2" [Examples.seed_2]) by done.
  assert (speciesId = num_of_Z 2) as -> by (vm_compute in Hparsed; by injection Hparsed).
  reflexivity.
Defined.

(** A species that is no number: the record is created, and no filter finds
    it. *)
Lemma POST_unreadable_species_witness :
  let answer := Route.POST Route.seed (Ok (VObj Examples.unlisted)) in
  Route.success answer.1 = true /\
  parseInt (field Examples.unlisted "speciesId") = Ok NaN /\
  prop (Route.data answer.1) "speciesId" = VNum NaN /\
  Route.data (Route.GET answer.2 (Some "rose")).1 =
    Route.data (Route.GET Route.seed (Some "rose")).1.
Proof.
  intros answer.
  assert (Haccepted : Route.success answer.1 = true) by (vm_compute; reflexivity).
  assert (Hnan : parseInt (field Examples.unlisted "speciesId") = Ok NaN) by reflexivity.
  destruct (POST_unreadable_species Route.seed Examples.unlisted answer.1 answer.2
              (surjective_pairing answer) Haccepted Hnan) as [Hspecies Hlisted].
  split_and!; [done|done|done|]. by apply Hlisted.
Defined.

Lemma POST_then_DELETE_witness :
  let answer := Route.POST Route.seed (Ok (VObj Examples.garden)) in
  Route.success answer.1 = true /\
  parseInt_string "4" = num_of_Z (max_id Route.seed + 1) /\
  exists created : object,
    Route.data answer.1 = VObj created /\ answer.2 = Route.seed ++ [created] /\
    let deleted := Route.DELETE answer.2 (Some "4") in
    Route.status deleted.1 = 200 /\ Route.success deleted.1 = true /\
    Route.data deleted.1 = VObj created /\
    Route.message deleted.1 = "Location deleted successfully" /\
    deleted.2 = Route.seed.
Proof.
  intros answer.
  assert (Haccepted : Route.success answer.1 = true) by (vm_compute; reflexivity).
  split_and!; [done|reflexivity|].
  exact (POST_then_DELETE Route.seed Examples.garden answer.1 answer.2 "4"
           seed_safe_ids (surjective_pairing answer) Haccepted eq_refl).
Defined.

Lemma DELETE_twice_witness :
  let first := Route.DELETE Route.seed (Some "2") in
  Route.success first.1 = true /\
  Route.DELETE first.2 (Some "2") = (Route.NotFound, first.2) /\
  length Route.seed = S (length first.2).
Proof.
  intros first.
  assert (Hdeleted : Route.success first.1 = true) by (vm_compute; reflexivity).
  split; [done|].
  exact (DELETE_twice Route.seed "2" seed_safe_ids (proj1 (proj2 seed_ids_within)) Hdeleted).
Defined.

Lemma DELETE_reads_leading_integer_witness :
  Route.DELETE Route.seed (Some " +2nd") = Route.DELETE Route.seed (Some "2") /\
  Route.DELETE Route.seed (Some "two") = (Route.NotFound, Route.seed).
Proof.
  split.
  - apply (proj1 (DELETE_reads_leading_integer Route.seed "2" ltac:(discriminate)));
      [discriminate|reflexivity].
  - apply (proj2 (DELETE_reads_leading_integer Route.seed "two" ltac:(discriminate))).
    reflexivity.
Defined.

(** Renaming the record 2 and then moving it to another species is one
    Update that does both. *)
Lemma PUT_composes_witness :
  Examples.rename_2 !! "id" = Examples.respecies_2 !! "id" /\
  Route.PUT (Route.PUT Route.seed (Ok (VObj Examples.rename_2))).2
    (Ok (VObj Examples.respecies_2)) =
  Route.PUT Route.seed (Ok (VObj (Examples.respecies_2 ∪ Examples.rename_2))).
Proof.
  assert (Hid : Examples.rename_2 !! "id" = Examples.respecies_2 !! "id")
    by (vm_compute; reflexivity).
  split; [done|].
  exact (proj2 (PUT_composes Route.seed) Examples.rename_2 Examples.respecies_2 Hid).
Defined.

(** The record 2 is renamed and then deleted. *)
Lemma PUT_then_DELETE_witness :
  let updated := Route.PUT Route.seed (Ok (VObj Examples.rename_2)) in
  Route.success updated.1 = true /\
  prop (Route.data updated.1) "locationName" = VStr "Tao Dan Park" /\
  exists i old,
    record_with_id (parseInt_string "2") Route.seed i old /\
    let merged : object := delete "id" Examples.rename_2 ∪ old in
    let answer := Route.DELETE updated.2 (Some "2") in
    Route.data updated.1 = VObj merged /\
    Route.status answer.1 = 200 /\ Route.success answer.1 = true /\
    Route.data answer.1 = VObj merged /\
    Route.message answer.1 = "Location deleted successfully" /\
    answer.2 = delete i Route.seed /\
    answer.2 = (Route.DELETE Route.seed (Some "2")).2.
Proof.
  intros updated.
  assert (Hupdated : Route.success updated.1 = true) by (vm_compute; reflexivity).
  split_and!; [done|vm_compute; reflexivity|].
  exact (PUT_then_DELETE Route.seed Examples.rename_2 "2" ltac:(discriminate)
           eq_refl Hupdated).
Defined.

Lemma createLocation_refuses_as_POST_witness :
  (Route.POST Route.seed (Ok (VObj Examples.inverted))).1 = Route.InvalidDateOrder /\
  Api.createLocation 0 (VObj Examples.inverted) =
    Service.Failure "Thứ tự thời gian nở hoa không hợp lệ".
Proof.
  assert (Hroute : (Route.POST Route.seed (Ok (VObj Examples.inverted))).1 =
                   Route.InvalidDateOrder) by (vm_compute; reflexivity).
  split; [done|].
  exact (proj1 (proj2 (proj2 (proj2
           (createLocation_refuses_as_POST 0 Route.seed Examples.inverted)))) Hroute).
Defined.

Lemma createLocation_then_POST_witness :
  Service.success (Api.createLocation 0 (VObj Examples.garden)) = true /\
  exists (created mocked : object) (n : number),
    Route.POST Route.seed (Ok (VObj Examples.garden)) =
      (Route.Created created, Route.seed ++ [created]) /\
    Service.data (Api.createLocation 0 (VObj Examples.garden)) = VObj mocked /\
    created !! "locationName" = mocked !! "locationName" /\
    created !! "coordinates" = mocked !! "coordinates" /\
    created !! "bloomingPeriod" = mocked !! "bloomingPeriod" /\
    mocked !! "speciesId" = Some (field Examples.garden "speciesId") /\
    parseInt (field Examples.garden "speciesId") = Ok n /\
    created !! "speciesId" = Some (VNum n) /\
    mocked !! "id" = Some (VNum (num_of_Z (0 + 1000))) /\
    created !! "id" = Some (VNum (num_of_Z (max_id Route.seed + 1))).
Proof.
  assert (Haccepted : Service.success (Api.createLocation 0 (VObj Examples.garden)) = true)
    by (vm_compute; reflexivity).
  split; [done|].
  apply (createLocation_then_POST 0 Route.seed Examples.garden seed_safe_ids Haccepted).
  inversion 1.
Defined.

(** Two spaces for a name: the record is created with no name. *)
Lemma blank_name_accepted_witness :
  Route.success (Route.POST Route.seed (Ok (VObj Examples.blank_name))).1 = true /\
  prop (Route.data (Route.POST Route.seed (Ok (VObj Examples.blank_name))).1)
    "locationName" = VStr EmptyString.
Proof.
  assert (Haccepted :
    Route.success (Route.POST Route.seed (Ok (VObj Examples.blank_name))).1 = true)
    by (vm_compute; reflexivity).
  split; [done|].
  exact (proj2 (proj1 (blank_name_accepted 0 Route.seed Examples.blank_name "  "
                         eq_refl two_spaces) Haccepted)).
Defined.

(** The species is found and the request of its locations fails. *)
Lemma getSpeciesWithLocations_outcomes_witness :
  succeeds Examples.species_only (species_url None (num_of_Z 7)) Examples.rose /\
  fails Examples.species_only (locations_url None (num_of_Z 7)) /\
  Api.getSpeciesWithLocations None Examples.species_only (num_of_Z 7) =
    VObj (<["species" := Examples.rose]> (<["locations" := VArr []]> ∅)).
Proof.
  assert (Hspecies : succeeds Examples.species_only (species_url None (num_of_Z 7))
                       Examples.rose).
  { eexists _, _. split_and!; reflexivity. }
  assert (Hlocations : fails Examples.species_only (locations_url None (num_of_Z 7))).
  { intros d (response & body & Hfetch & Hok & _). vm_compute in Hfetch.
    injection Hfetch as <-. discriminate. }
  split_and!; [done|done|].
  exact (proj2 (proj2 (proj2 (getSpeciesWithLocations_outcomes None Examples.species_only
                                (num_of_Z 7)) Examples.rose Hspecies) eq_refl) Hlocations).
Defined.
